(** * Blog platform with threaded comments: the [posts] application

    A shallow embedding of [posts/models.py], [posts/serializers.py],
    [posts/permissions.py], [posts/pagination.py] and [posts/views.py],
    together with the parts of Django's ORM and of the REST framework's
    generic views that these files configure, followed by the properties
    of the comment tree, of the author-only permission and of the endpoints.

    Tables are lists of rows in insertion order; primary keys come from a
    per-table sequence that is never reused.  The application gives the
    comments no ordering, so the order of a query set without an
    [order_by] is the database's choice: here it is the table scanned
    in insertion order, a convention of this model and not a property of
    the code.  Text is held as UTF-8, time is what the clock gives at
    each reading, and the two recursions that the interpreter can cut
    short, the nested serializer and the deletion collector, carry the
    depth it allows them. *)

From Stdlib Require Import List Arith Bool Lia String Ascii Sorted Permutation.
Import ListNotations.
Local Open Scope string_scope.
Local Open Scope list_scope.
Local Open Scope nat_scope.

Set Implicit Arguments.

(* ------------------------------------------------------------------ *)
(** ** Exceptions and fallible computations *)

(** The Python exceptions that the modelled code can raise and that no
    serializer field turns into a validation error. *)
Inductive exn : Type :=
| RecursionError
| DoesNotExist
| MultipleObjectsReturned
| IntegrityError
| ValueError.

Inductive result (A : Type) : Type :=
| Ok (a : A)
| Raise (e : exn).

Arguments Ok {A} a.
Arguments Raise {A} e.

Definition bind {A B : Type} (m : result A) (k : A -> result B) : result B :=
  match m with
  | Ok a => k a
  | Raise e => Raise e
  end.

Notation "x <- m ;; k" := (bind m (fun x => k))
  (at level 61, m at next level, right associativity).

(** A list comprehension whose body may raise: the first exception wins. *)
Fixpoint mapM {A B : Type} (f : A -> result B) (l : list A) : result (list B) :=
  match l with
  | [] => Ok []
  | x :: xs => y <- f x ;; ys <- mapM f xs ;; Ok (y :: ys)
  end.

(** [QuerySet.get]: exactly one row must match. *)
Definition get {A : Type} (p : A -> bool) (qs : list A) : result A :=
  match filter p qs with
  | [] => Raise DoesNotExist
  | [x] => Ok x
  | _ :: _ :: _ => Raise MultipleObjectsReturned
  end.

Definition mem (n : nat) (l : list nat) : bool := existsb (Nat.eqb n) l.

Definition eq_opt (a : option nat) (n : nat) : bool :=
  match a with
  | Some m => m =? n
  | None => false
  end.

(* ------------------------------------------------------------------ *)
(** ** posts/models.py *)

Module models.

(** [django.contrib.auth.models.User], as far as the application uses it. *)
Module User.
Record t : Type := mk { id : nat; username : string }.
End User.

Module Category.
Record t : Type := mk { id : nat; name : string }.
End Category.

Module Tag.
Record t : Type := mk { id : nat; name : string }.
End Tag.

(** Foreign keys hold the primary key of the row they point to;
[category] is nullable, [tag] is the many-to-many set. *)
Module Post.
Record t : Type := mk {
id : nat;
title : string;
content : string;
category : option nat;
tag : list nat;
created_at : nat;
updated_at : nat;
author : nat
}.
End Post.

Module Comment.
Record t : Type := mk {
id : nat;
post : nat;
content : string;
author : nat;
parent : option nat;
created_at : nat;
updated_at : nat
}.
End Comment.

(** The entity store: one table per model and one key sequence per
table that the application inserts into. *)
Record Store : Type := mkStore {
User_objects : list User.t;
Category_objects : list Category.t;
Tag_objects : list Tag.t;
Post_objects : list Post.t;
Comment_objects : list Comment.t;
Category_seq : nat;
Tag_seq : nat;
Post_seq : nat;
Comment_seq : nat
}.

(** [comment.post] and [comment.author]: following a foreign key is a
[get] by primary key. *)
Definition Comment_post (db : Store) (c : Comment.t) : result Post.t :=
get (fun p => Post.id p =? Comment.post c) (Post_objects db).

Definition Comment_author (db : Store) (c : Comment.t) : result User.t :=
get (fun u => User.id u =? Comment.author c) (User_objects db).

Definition Post_author (db : Store) (p : Post.t) : result User.t :=
get (fun u => User.id u =? Post.author p) (User_objects db).

(** [comment.replies.all()]: the reverse side of [parent]
([related_name='replies']). *)
Definition Comment_replies (db : Store) (c : Comment.t) : list Comment.t :=
filter (fun r => eq_opt (Comment.parent r) (Comment.id c)) (Comment_objects db).

(** [post.comments.all()] ([related_name="comments"]). *)
Definition Post_comments (db : Store) (pid : nat) : list Comment.t :=
filter (fun c => Comment.post c =? pid) (Comment_objects db).

(** [post.tag.all()]: the rows of the tag table that the many-to-many
table links to the post. *)
Definition Post_tags (db : Store) (p : Post.t) : list Tag.t :=
filter (fun t => mem (Tag.id t) (Post.tag p)) (Tag_objects db).

(** *** Deletion: [on_delete=models.CASCADE]

Django's collector adds the objects it has not seen yet, then
follows every cascading reverse relation from the new objects and
collects what it finds there.  For comments the only such relation
is [parent]/[replies].  The real collector stops when nothing new
is added; [fuel] bounds the rounds here and one more than the
number of rows is always enough. *)
Fixpoint collect (fuel : nat) (rows : list Comment.t) (seen objs : list nat)
: list nat :=
match fuel with
| 0 => seen
| S fuel' =>
match filter (fun i => negb (mem i seen)) (nodup Nat.eq_dec objs) with
| [] => seen
| new =>
collect fuel' rows (seen ++ new)
  (map Comment.id
     (filter (fun r => match Comment.parent r with
                       | Some p => mem p new
                       | None => false
                       end) rows))
end
end.

Definition collected (db : Store) (objs : list nat) : list nat :=
collect (S (List.length (Comment_objects db))) (Comment_objects db) [] objs.

(** The collector calls itself once for every level of the cascade
that it follows, and the interpreter's recursion limit applies to
it as to any other code: beyond this many levels [delete] ends
with [RecursionError] before any row is removed.  As for
[max_nested_replies] further down, the number depends on the
versions in use and the properties are proved for the constant as
such. *)
Definition max_cascade_levels : nat := 480.

Arguments max_cascade_levels : simpl never.

(** The levels of the cascade that starts from [objs]. *)
Fixpoint collect_levels (fuel : nat) (rows : list Comment.t) (seen objs : list nat)
: nat :=
match fuel with
| 0 => 0
| S fuel' =>
match filter (fun i => negb (mem i seen)) (nodup Nat.eq_dec objs) with
| [] => 0
| new =>
S (collect_levels fuel' rows (seen ++ new)
     (map Comment.id
        (filter (fun r => match Comment.parent r with
                          | Some p => mem p new
                          | None => false
                          end) rows)))
end
end.

Definition cascade_levels (db : Store) (objs : list nat) : nat :=
collect_levels (S (List.length (Comment_objects db))) (Comment_objects db) [] objs.

Definition delete_comments (db : Store) (objs : list nat) : list Comment.t :=
let gone := collected db objs in
filter (fun c => negb (mem (Comment.id c) gone)) (Comment_objects db).

(** [comment.delete()], once the collector has run to its end. *)
Definition Comment_delete (db : Store) (c : Comment.t) : Store :=
mkStore (User_objects db) (Category_objects db) (Tag_objects db)
(Post_objects db)
(delete_comments db [Comment.id c])
(Category_seq db) (Tag_seq db) (Post_seq db) (Comment_seq db).

(** [post.delete()], once the collector has run to its end: the post's
comments go through [Comment.post] and their replies through
[Comment.parent]. *)
Definition Post_delete (db : Store) (p : Post.t) : Store :=
mkStore (User_objects db) (Category_objects db) (Tag_objects db)
(filter (fun q => negb (Post.id q =? Post.id p)) (Post_objects db))
(delete_comments db (map Comment.id (Post_comments db (Post.id p))))
(Category_seq db) (Tag_seq db) (Post_seq db) (Comment_seq db).

(** [instance.delete()] as the interpreter runs it: [after] is the store
that the completed deletion leaves, [levels] the depth that the
collector has to reach for it. *)
Definition Model_delete (levels : nat) (after : Store) : result Store :=
if levels <=? max_cascade_levels then Ok after else Raise RecursionError.

Definition Comment_destroy (db : Store) (c : Comment.t) : result Store :=
Model_delete (cascade_levels db [Comment.id c]) (Comment_delete db c).

(** The post is one level, its comments are the next. *)
Definition Post_destroy (db : Store) (p : Post.t) : result Store :=
Model_delete
(S (cascade_levels db (map Comment.id (Post_comments db (Post.id p)))))
(Post_delete db p).

Definition Post_with_category (p : Post.t) (c : option nat) : Post.t :=
Post.mk (Post.id p) (Post.title p) (Post.content p) c (Post.tag p)
(Post.created_at p) (Post.updated_at p) (Post.author p).

Definition Post_with_tag (p : Post.t) (ts : list nat) : Post.t :=
Post.mk (Post.id p) (Post.title p) (Post.content p) (Post.category p) ts
(Post.created_at p) (Post.updated_at p) (Post.author p).

(** [category.delete()]: [on_delete=models.SET_NULL] on [Post.category]. *)
Definition Category_delete (db : Store) (c : Category.t) : Store :=
mkStore (User_objects db)
(filter (fun x => negb (Category.id x =? Category.id c)) (Category_objects db))
(Tag_objects db)
(map (fun p => if eq_opt (Post.category p) (Category.id c)
         then Post_with_category p None else p) (Post_objects db))
(Comment_objects db)
(Category_seq db) (Tag_seq db) (Post_seq db) (Comment_seq db).

(** [tag.delete()]: the rows of the many-to-many table go with the tag. *)
Definition Tag_delete (db : Store) (t : Tag.t) : Store :=
mkStore (User_objects db) (Category_objects db)
(filter (fun x => negb (Tag.id x =? Tag.id t)) (Tag_objects db))
(map (fun p => Post_with_tag p
           (filter (fun i => negb (i =? Tag.id t)) (Post.tag p)))
(Post_objects db))
(Comment_objects db)
(Category_seq db) (Tag_seq db) (Post_seq db) (Comment_seq db).

End models.
Import models.

(* ------------------------------------------------------------------ *)
(** ** Request payloads and serializer fields (REST framework) *)

(** A key of the submitted JSON object: missing, [null], or a value. *)
Inductive field (A : Type) : Type :=
| Absent
| Null
| Value (a : A).

Arguments Absent {A}.
Arguments Null {A}.
Arguments Value {A} a.

(** What [run_validation] of one field comes to: a value for
    [validated_data], [SkipField], or a [ValidationError] with its codes. *)
Inductive outcome (A : Type) : Type :=
| Valid (a : A)
| Skip
| Invalid (codes : list string).

Arguments Valid {A} a.
Arguments Skip {A}.
Arguments Invalid {A} codes.

Definition ErrorDict : Type := list (string * list string).

(** Text is held as its UTF-8 encoding, the form in which a request
    body arrives: a character is one to four bytes, and the bytes after
    the first are the ones of the form 10xxxxxx. *)
Definition code (c : ascii) : nat := nat_of_ascii c.

Definition is_continuation (c : ascii) : bool :=
  (128 <=? code c) && (code c <? 192).

(** [len(s)]: the number of characters. *)
Fixpoint characters (s : string) : nat :=
  match s with
  | EmptyString => 0
  | String c s' => (if is_continuation c then 0 else 1) + characters s'
  end.

(** [str.isspace()] for a character of one, two or three bytes: the
    ASCII white space and separators, U+0085, U+00A0, U+1680, U+2000 to
    U+200A, U+2028, U+2029, U+202F, U+205F and U+3000.  No character
    of four bytes is white space. *)
Definition isspace_1 (a : nat) : bool :=
  (a =? 32) || ((9 <=? a) && (a <=? 13)) || ((28 <=? a) && (a <=? 31)).

Definition isspace_2 (a b : nat) : bool :=
  (a =? 194) && ((b =? 133) || (b =? 160)).

Definition isspace_3 (a b c : nat) : bool :=
  ((a =? 225) && (b =? 154) && (c =? 128))
  || ((a =? 226) && (b =? 128)
      && (((128 <=? c) && (c <=? 138)) || (c =? 168) || (c =? 169) || (c =? 175)))
  || ((a =? 226) && (b =? 129) && (c =? 159))
  || ((a =? 227) && (b =? 128) && (c =? 128)).

(** Dropping the white space that [s] starts with; [backwards] tells
    that [s] is a text read from its end, where the bytes of a
    character come last byte first. *)
Fixpoint drop_space (backwards : bool) (s : string) : string :=
  match s with
  | EmptyString => s
  | String a s1 =>
      if isspace_1 (code a) then drop_space backwards s1
      else
        match s1 with
        | EmptyString => s
        | String b s2 =>
            if (if backwards then isspace_2 (code b) (code a)
                else isspace_2 (code a) (code b))
            then drop_space backwards s2
            else
              match s2 with
              | EmptyString => s
              | String c s3 =>
                  if (if backwards then isspace_3 (code c) (code b) (code a)
                      else isspace_3 (code a) (code b) (code c))
                  then drop_space backwards s3
                  else s
              end
        end
  end.

Definition reversed (s : string) : string :=
  string_of_list_ascii (rev (list_ascii_of_string s)).

Definition lstrip (s : string) : string := drop_space false s.

Definition rstrip (s : string) : string :=
  reversed (drop_space true (reversed s)).

(** [str.strip()] *)
Definition strip (s : string) : string := lstrip (rstrip s).

Fixpoint has_null_character (s : string) : bool :=
  match s with
  | EmptyString => false
  | String c s' => (nat_of_ascii c =? 0) || has_null_character s'
  end.

Definition codes_if (b : bool) (code : string) : list string :=
  if b then [code] else [].

(** [CharField(required=True, allow_blank=False, trim_whitespace=True)],
    the field a [ModelSerializer] builds for a [CharField] or [TextField]
    column.  [extra] are the validators handed to the field
    ([UniqueValidator]); the field appends its own, for [max_length]
    and for null characters, after them, and all of them are run. *)
Definition CharField (partial : bool) (max_length : option nat)
    (extra : string -> list string) (d : field string) : outcome string :=
  match d with
  | Absent => if partial then Skip else Invalid ["required"]
  | Null => Invalid ["null"]
  | Value s =>
      let v := strip s in
      if String.eqb v "" then Invalid ["blank"]
      else
        match
          extra v
          ++ codes_if (match max_length with
                       | Some n => n <? characters v
                       | None => false
                       end) "max_length"
          ++ codes_if (has_null_character v) "null_characters_not_allowed"
        with
        | [] => Valid v
        | codes => Invalid codes
        end
  end.

(** [queryset.get(...)] inside a related field: only [DoesNotExist] is
    caught and reported as a validation error. *)
Definition related_get {A : Type} (p : A -> bool) (queryset : list A)
  : result (outcome A) :=
  match get p queryset with
  | Ok x => Ok (Valid x)
  | Raise DoesNotExist => Ok (Invalid ["does_not_exist"])
  | Raise e => Raise e
  end.

(** [SlugRelatedField(queryset=..., slug_field=...)]: required, not
    nullable; the empty string counts as [null]. *)
Definition SlugRelatedField {A : Type} (partial : bool) (slug_field : A -> string)
    (queryset : list A) (d : field string) : result (outcome A) :=
  match d with
  | Absent => Ok (if partial then Skip else Invalid ["required"])
  | Null => Ok (Invalid ["null"])
  | Value s =>
      if String.eqb s "" then Ok (Invalid ["null"])
      else related_get (fun x => String.eqb (slug_field x) s) queryset
  end.

(** [SlugRelatedField(queryset=..., many=True, slug_field=...)]: every
    item goes through the child's [to_internal_value]; the first item
    that does not resolve fails the field. *)
Fixpoint many_related {A : Type} (slug_field : A -> string) (queryset : list A)
    (items : list string) : result (outcome (list A)) :=
  match items with
  | [] => Ok (Valid [])
  | s :: rest =>
      o <- related_get (fun x => String.eqb (slug_field x) s) queryset ;;
      match o with
      | Valid x =>
          os <- many_related slug_field queryset rest ;;
          match os with
          | Valid xs => Ok (Valid (x :: xs))
          | Skip => Ok Skip
          | Invalid codes => Ok (Invalid codes)
          end
      | Skip => Ok Skip
      | Invalid codes => Ok (Invalid codes)
      end
  end.

Definition ManySlugRelatedField {A : Type} (partial : bool)
    (slug_field : A -> string) (queryset : list A) (d : field (list string))
  : result (outcome (list A)) :=
  match d with
  | Absent => Ok (if partial then Skip else Invalid ["required"])
  | Null => Ok (Invalid ["null"])
  | Value items => many_related slug_field queryset items
  end.

(** [PrimaryKeyRelatedField(queryset=..., allow_null=True, required=False)] *)
Definition PrimaryKeyRelatedField {A : Type} (pk : A -> nat) (queryset : list A)
    (d : field nat) : result (outcome (option A)) :=
  match d with
  | Absent => Ok Skip
  | Null => Ok (Valid None)
  | Value k =>
      o <- related_get (fun x => pk x =? k) queryset ;;
      Ok match o with
         | Valid x => Valid (Some x)
         | Skip => Skip
         | Invalid codes => Invalid codes
         end
  end.

(** One entry of the error dictionary built by [to_internal_value]. *)
Definition field_errors {A : Type} (name : string) (o : outcome A) : ErrorDict :=
  match o with
  | Invalid codes => [(name, codes)]
  | _ => []
  end.

Definition validated {A : Type} (o : outcome A) : option A :=
  match o with
  | Valid a => Some a
  | _ => None
  end.

(* ------------------------------------------------------------------ *)
(** ** posts/serializers.py *)

Module serializers.

(** The JSON objects a client submits. *)
Module NameBody.
Record t : Type := mk { name : field string }.
End NameBody.

Module PostBody.
Record t : Type := mk {
title : field string;
content : field string;
author : field string;
category : field string;
tag : field (list string)
}.
End PostBody.

Module CommentBody.
Record t : Type := mk {
post : field string;
content : field string;
author : field string;
parent : field nat
}.
End CommentBody.

(** *** Read side *)

(** The representation of a comment: the fields of [Meta.fields], with
the post given by its title, the author by its user name and
[replies] holding representations of the same shape. *)
Module CommentData.
#[local] Unset Elimination Schemes.
Inductive t : Type := mk {
id : nat;
post : string;
content : string;
author : string;
parent : option nat;
created_at : nat;
updated_at : nat;
replies : list t
}.
#[local] Set Elimination Schemes.
End CommentData.

Module PostData.
Record t : Type := mk {
id : nat;
title : string;
content : string;
author : string;
category : option string;
tag : list string;
created_at : nat;
updated_at : nat
}.
End PostData.

(** [CommentSerializer.to_representation].  The [replies] field is a
[ListSerializer] over [instance.replies.all()] whose child is
[RecursiveField]; [RecursiveField.to_representation(value)] builds a
new [CommentSerializer] for [value] and returns its data.  The
source puts no bound on the nesting; [fuel] is the number of levels
left before the interpreter gives up with [RecursionError]. *)
Fixpoint CommentSerializer_to_representation (fuel : nat) (db : Store)
(instance : Comment.t) : result CommentData.t :=
match fuel with
| 0 => Raise RecursionError
| S fuel' =>
let RecursiveField_to_representation :=
fun value => CommentSerializer_to_representation fuel' db value in
p <- Comment_post db instance ;;
a <- Comment_author db instance ;;
rs <- mapM RecursiveField_to_representation (Comment_replies db instance) ;;
Ok (CommentData.mk (Comment.id instance) (Post.title p)
  (Comment.content instance) (User.username a)
  (Comment.parent instance) (Comment.created_at instance)
  (Comment.updated_at instance) rs)
end.

(** The interpreter ends a computation whose calls nest deeper than
[sys.getrecursionlimit()] (1000 frames, which the project leaves as
it is) with [RecursionError].  Every level of [replies] costs the
frames of a serializer, of its list field and of [RecursiveField], so
the limit is reached on a long enough chain of replies: a comment
with this many levels of replies below it is still written out, one
with a level more is not.  The number depends on the versions of the
interpreter and of the framework; the properties below are proved
for the constant as such and use its value only in examples. *)
Definition max_nested_replies : nat := 162.

Arguments max_nested_replies : simpl never.

(** [CommentSerializer(instance).data] *)
Definition CommentSerializer_data (db : Store) (instance : Comment.t)
: result CommentData.t :=
CommentSerializer_to_representation (S max_nested_replies) db instance.

Definition PostSerializer_data (db : Store) (instance : Post.t)
: result PostData.t :=
a <- Post_author db instance ;;
c <- match Post.category instance with
| None => Ok None
| Some k =>
 x <- get (fun x => Category.id x =? k) (Category_objects db) ;;
 Ok (Some (Category.name x))
end ;;
Ok (PostData.mk (Post.id instance) (Post.title instance)
(Post.content instance) (User.username a) c
(map Tag.name (Post_tags db instance))
(Post.created_at instance) (Post.updated_at instance)).

(** [UserSerializer]: [fields = ('id', 'username',)], which is all a
user row holds here. *)
Definition UserSerializer_data (db : Store) (instance : User.t)
: result User.t := Ok instance.

Definition CategorySerializer_data (db : Store) (instance : Category.t)
: result Category.t := Ok instance.

Definition TagSerializer_data (db : Store) (instance : Tag.t)
: result Tag.t := Ok instance.

(** *** Write side: [to_internal_value]

The writable fields are validated in the order of [Meta.fields];
validation errors are gathered per field, any other exception
leaves the serializer at once. *)

Module CommentValidated.
Record t : Type := mk {
post : option Post.t;
content : option string;
parent : option (option Comment.t)
}.
End CommentValidated.

Definition CommentSerializer_to_internal_value (db : Store) (partial : bool)
(data : CommentBody.t) : result (ErrorDict + CommentValidated.t) :=
post <- SlugRelatedField partial Post.title (Post_objects db)
  (CommentBody.post data) ;;
let content := CharField partial None (fun _ => []) (CommentBody.content data) in
parent <- PrimaryKeyRelatedField Comment.id (Comment_objects db)
    (CommentBody.parent data) ;;
match field_errors "post" post ++ field_errors "content" content
++ field_errors "parent" parent with
| [] => Ok (inr (CommentValidated.mk (validated post) (validated content)
           (validated parent)))
| errors => Ok (inl errors)
end.

Module PostValidated.
Record t : Type := mk {
title : option string;
content : option string;
category : option Category.t;
tag : option (list Tag.t)
}.
End PostValidated.

Definition PostSerializer_to_internal_value (db : Store) (partial : bool)
(data : PostBody.t) : result (ErrorDict + PostValidated.t) :=
let title := CharField partial (Some 300) (fun _ => []) (PostBody.title data) in
let content := CharField partial None (fun _ => []) (PostBody.content data) in
category <- SlugRelatedField partial Category.name (Category_objects db)
      (PostBody.category data) ;;
tag <- ManySlugRelatedField partial Tag.name (Tag_objects db)
 (PostBody.tag data) ;;
match field_errors "title" title ++ field_errors "content" content
++ field_errors "category" category ++ field_errors "tag" tag with
| [] => Ok (inr (PostValidated.mk (validated title) (validated content)
           (validated category) (validated tag)))
| errors => Ok (inl errors)
end.

(** [UniqueValidator(queryset)]: another row (not the instance being
updated) already has the value. *)
Definition UniqueValidator (taken : list (nat * string)) (instance : option nat)
(v : string) : list string :=
codes_if
(existsb (fun r => String.eqb (snd r) v
             && negb (match instance with
                      | Some i => fst r =? i
                      | None => false
                      end)) taken) "unique".

Definition CategorySerializer_to_internal_value (db : Store) (partial : bool)
(instance : option Category.t) (data : NameBody.t)
: result (ErrorDict + option string) :=
let name :=
CharField partial (Some 100)
(UniqueValidator
(map (fun c => (Category.id c, Category.name c)) (Category_objects db))
(option_map Category.id instance))
(NameBody.name data) in
match field_errors "name" name with
| [] => Ok (inr (validated name))
| errors => Ok (inl errors)
end.

Definition TagSerializer_to_internal_value (db : Store) (partial : bool)
(instance : option Tag.t) (data : NameBody.t)
: result (ErrorDict + option string) :=
let name :=
CharField partial (Some 50)
(UniqueValidator
(map (fun c => (Tag.id c, Tag.name c)) (Tag_objects db))
(option_map Tag.id instance))
(NameBody.name data) in
match field_errors "name" name with
| [] => Ok (inr (validated name))
| errors => Ok (inl errors)
end.

(** *** Write side: [ModelSerializer.create] and [update]

[serializer.save] adds its keyword arguments to the validated data
and creates the row, or sets the validated attributes on the instance
and saves it.  A column left out takes the model's default: the
empty string for text, [NULL] for a nullable key; a required key
left out violates the table's constraint. *)

Definition or_default {A : Type} (o : option A) (d : A) : A :=
match o with
| Some a => a
| None => d
end.

Definition replace_row {A : Type} (pk : A -> nat) (row : A) (rows : list A)
: list A :=
map (fun r => if pk r =? pk row then row else r) rows.

Definition with_comments (db : Store) (rows : list Comment.t) (seq : nat)
: Store :=
mkStore (User_objects db) (Category_objects db) (Tag_objects db)
(Post_objects db) rows
(Category_seq db) (Tag_seq db) (Post_seq db) seq.

Definition with_posts (db : Store) (rows : list Post.t) (seq : nat) : Store :=
mkStore (User_objects db) (Category_objects db) (Tag_objects db)
rows (Comment_objects db)
(Category_seq db) (Tag_seq db) seq (Comment_seq db).

Definition with_categories (db : Store) (rows : list Category.t) (seq : nat)
: Store :=
mkStore (User_objects db) rows (Tag_objects db)
(Post_objects db) (Comment_objects db)
seq (Tag_seq db) (Post_seq db) (Comment_seq db).

Definition with_tags (db : Store) (rows : list Tag.t) (seq : nat) : Store :=
mkStore (User_objects db) (Category_objects db) rows
(Post_objects db) (Comment_objects db)
(Category_seq db) seq (Post_seq db) (Comment_seq db).

(** [timezone.now()]: [now n] is what reading number [n] of the clock
gives while a row is saved.  A [DateTimeField] with [auto_now_add]
or [auto_now] reads the clock in its own [pre_save], the columns
being saved in the order in which the model declares them: a new
row takes [created_at] from the first reading and [updated_at] from
the second, an updated row takes [updated_at] from the first. *)
Definition Clock : Type := nat -> nat.

(** [serializer.save(author=...)] on a new comment. *)
Definition CommentSerializer_create (db : Store) (now : Clock) (author : User.t)
(v : CommentValidated.t) : result (Store * Comment.t) :=
match CommentValidated.post v with
| None => Raise IntegrityError
| Some p =>
let c :=
Comment.mk (Comment_seq db) (Post.id p)
(or_default (CommentValidated.content v) "")
(User.id author)
(match CommentValidated.parent v with
 | Some (Some q) => Some (Comment.id q)
 | _ => None
 end)
(now 0) (now 1) in
Ok (with_comments db (Comment_objects db ++ [c]) (S (Comment_seq db)), c)
end.

(** [serializer.save()] on an existing comment. *)
Definition CommentSerializer_update (db : Store) (now : Clock)
(instance : Comment.t) (v : CommentValidated.t)
: result (Store * Comment.t) :=
let c :=
Comment.mk (Comment.id instance)
(match CommentValidated.post v with
| Some p => Post.id p
| None => Comment.post instance
end)
(or_default (CommentValidated.content v) (Comment.content instance))
(Comment.author instance)
(match CommentValidated.parent v with
| Some q => option_map Comment.id q
| None => Comment.parent instance
end)
(Comment.created_at instance) (now 0) in
Ok (with_comments db (replace_row Comment.id c (Comment_objects db))
(Comment_seq db), c).

(** [serializer.save(author=...)] on a new post; the tags are set
after the row exists and a set holds each tag once. *)
Definition PostSerializer_create (db : Store) (now : Clock) (author : User.t)
(v : PostValidated.t) : result (Store * Post.t) :=
let p :=
Post.mk (Post_seq db)
(or_default (PostValidated.title v) "")
(or_default (PostValidated.content v) "")
(option_map Category.id (PostValidated.category v))
(nodup Nat.eq_dec (map Tag.id (or_default (PostValidated.tag v) [])))
(now 0) (now 1) (User.id author) in
Ok (with_posts db (Post_objects db ++ [p]) (S (Post_seq db)), p).

Definition PostSerializer_update (db : Store) (now : Clock) (instance : Post.t)
(v : PostValidated.t) : result (Store * Post.t) :=
let p :=
Post.mk (Post.id instance)
(or_default (PostValidated.title v) (Post.title instance))
(or_default (PostValidated.content v) (Post.content instance))
(match PostValidated.category v with
| Some c => Some (Category.id c)
| None => Post.category instance
end)
(match PostValidated.tag v with
| Some ts => nodup Nat.eq_dec (map Tag.id ts)
| None => Post.tag instance
end)
(Post.created_at instance) (now 0) (Post.author instance) in
Ok (with_posts db (replace_row Post.id p (Post_objects db)) (Post_seq db), p).

Definition CategorySerializer_create (db : Store) (v : option string)
: result (Store * Category.t) :=
let c := Category.mk (Category_seq db) (or_default v "") in
Ok (with_categories db (Category_objects db ++ [c]) (S (Category_seq db)), c).

Definition CategorySerializer_update (db : Store) (instance : Category.t)
(v : option string) : result (Store * Category.t) :=
let c := Category.mk (Category.id instance)
   (or_default v (Category.name instance)) in
Ok (with_categories db (replace_row Category.id c (Category_objects db))
(Category_seq db), c).

Definition TagSerializer_create (db : Store) (v : option string)
: result (Store * Tag.t) :=
let c := Tag.mk (Tag_seq db) (or_default v "") in
Ok (with_tags db (Tag_objects db ++ [c]) (S (Tag_seq db)), c).

Definition TagSerializer_update (db : Store) (instance : Tag.t)
(v : option string) : result (Store * Tag.t) :=
let c := Tag.mk (Tag.id instance) (or_default v (Tag.name instance)) in
Ok (with_tags db (replace_row Tag.id c (Tag_objects db)) (Tag_seq db), c).

End serializers.
Import serializers.

(* ------------------------------------------------------------------ *)
(** ** posts/permissions.py *)

Module permissions.

Inductive Method : Type := GET | HEAD | OPTIONS | POST | PUT | PATCH | DELETE.

Definition Method_eqb (a b : Method) : bool :=
match a, b with
| GET, GET | HEAD, HEAD | OPTIONS, OPTIONS | POST, POST
| PUT, PUT | PATCH, PATCH | DELETE, DELETE => true
| _, _ => false
end.

(** [rest_framework.permissions.SAFE_METHODS] *)
Definition SAFE_METHODS : list Method := [GET; HEAD; OPTIONS].

Definition is_safe (m : Method) : bool := existsb (Method_eqb m) SAFE_METHODS.

(** [request.user]: [None] is the [AnonymousUser]. *)
Definition is_authenticated (user : option User.t) : bool :=
match user with
| Some _ => true
| None => false
end.

(** [BasePermission]: the two hooks a permission class may override. *)
Record BasePermission (Obj : Type) : Type := mkPermission {
has_permission : Method -> option User.t -> bool;
has_object_permission : Method -> option User.t -> Obj -> bool
}.

Definition AllowAny (Obj : Type) : BasePermission Obj :=
mkPermission (fun _ _ => true) (fun _ _ _ => true).

(** What [IsAuthorOrReadOnly] asks of the object it guards: an
[author] attribute. *)
Class HasAuthor (Obj : Type) : Type := author_of : Obj -> nat.

#[export] Instance Post_HasAuthor : HasAuthor Post.t := Post.author.
#[export] Instance Comment_HasAuthor : HasAuthor Comment.t := Comment.author.

(** [obj.author == request.user]: two model instances are equal when
their primary keys are; no user equals the anonymous one. *)
Definition IsAuthorOrReadOnly (Obj : Type) `{HasAuthor Obj} : BasePermission Obj :=
mkPermission
(fun method user =>
if is_safe method then true
else is_authenticated user)
(fun method user obj =>
if is_safe method then true
else match user with
  | Some u => author_of obj =? User.id u
  | None => false
  end).

Arguments IsAuthorOrReadOnly Obj {_}.

End permissions.
Import permissions.

(* ------------------------------------------------------------------ *)
(** ** posts/pagination.py *)

Module pagination.

Definition PostPagination_page_size : nat := 10.
Definition CommentPagination_page_size : nat := 20.

(** [PageNumberPagination.paginate_queryset]: pages are numbered from
1, the first page exists even when empty, any other page out of
range is an invalid page. *)
Definition num_pages (page_size count : nat) : nat :=
Nat.max 1 ((count + page_size - 1) / page_size).

Definition paginate_queryset {A : Type} (page_size : nat) (page : option nat)
(queryset : list A) : option (list A) :=
let number := match page with Some n => n | None => 1 end in
if (number =? 0) || (num_pages page_size (List.length queryset) <? number)
then None
else Some (firstn page_size (skipn ((number - 1) * page_size) queryset)).

End pagination.
Import pagination.

(* ------------------------------------------------------------------ *)
(** ** Project settings *)

Module settings.

(** Modelled from the spec: the project's settings module is not among
the sources.  The spec describes the category and tag endpoints as
plain CRUD with no special logic and the author-only permission as
belonging to the post and comment endpoints, so a view that names
no permission class gets the framework's own default, [AllowAny]. *)
Definition DEFAULT_PERMISSION_CLASSES (Obj : Type) : list (BasePermission Obj) :=
[AllowAny Obj].

(** Modelled from the spec: page sizes are given for posts and comments
only; the tests read the category list as a plain list. *)
Definition DEFAULT_PAGINATION_CLASS : option nat := None.

End settings.

(* ------------------------------------------------------------------ *)
(** ** posts/views.py *)

Module views.

Record QueryParams : Type := mkQuery {
post_id : option nat;   (* [None]: missing or empty, both falsy *)
page : option nat
}.

(** A request as a view set sees it: [pk] is set on the detail route
([/comments/{id}/]) and not on the list route ([/comments/]). *)
Record Request (Body : Type) : Type := mkRequest {
method : Method;
user : option User.t;
pk : option nat;
query_params : QueryParams;
data : Body
}.

Inductive Payload (Data : Type) : Type :=
| Detail (d : Data)
| Page (count : nat) (results : list Data)
| Listing (results : list Data)
| Metadata.

Arguments Detail {Data} d.
Arguments Page {Data} count results.
Arguments Listing {Data} results.
Arguments Metadata {Data}.

(** The outcomes of a request.  A refused permission is reported as
403 for anonymous callers too, as the tests of the application
expect. *)
Inductive Response (Data : Type) : Type :=
| HTTP_200_OK (body : Payload Data)
| HTTP_201_CREATED (d : Data)
| HTTP_204_NO_CONTENT
| HTTP_400_BAD_REQUEST (errors : ErrorDict)
| HTTP_403_FORBIDDEN
| HTTP_404_NOT_FOUND
| HTTP_405_METHOD_NOT_ALLOWED
| HTTP_500_INTERNAL_SERVER_ERROR (e : exn).

Arguments HTTP_200_OK {Data} body.
Arguments HTTP_201_CREATED {Data} d.
Arguments HTTP_204_NO_CONTENT {Data}.
Arguments HTTP_400_BAD_REQUEST {Data} errors.
Arguments HTTP_403_FORBIDDEN {Data}.
Arguments HTTP_404_NOT_FOUND {Data}.
Arguments HTTP_405_METHOD_NOT_ALLOWED {Data}.
Arguments HTTP_500_INTERNAL_SERVER_ERROR {Data} e.

(** [viewsets.ModelViewSet]: what a concrete view set configures or
overrides.  [V] is the serializer's validated data. *)
Record ModelViewSet (Obj Body Data V : Type) : Type := mkViewSet {
get_queryset : Store -> QueryParams -> list Obj;
lookup_field : Obj -> nat;
permission_classes : list (BasePermission Obj);
pagination_class : option nat;
to_internal_value : Store -> bool -> option Obj -> Body -> result (ErrorDict + V);
perform_create : Store -> Clock -> option User.t -> V -> result (Store * Obj);
perform_update : Store -> Clock -> Obj -> V -> result (Store * Obj);
perform_destroy : Store -> Obj -> result Store;
serializer_data : Store -> Obj -> result Data
}.

Section GenericViewSet.
Context {Obj Body Data V : Type}.
Variable view : ModelViewSet Obj Body Data V.
Variable now : Clock.

(** [APIView.check_permissions], run by [initial] before the handler
is looked up. *)
Definition check_permissions (request : Request Body) : bool :=
forallb (fun p => has_permission p (method request) (user request))
(permission_classes view).

Definition check_object_permissions (request : Request Body) (obj : Obj) : bool :=
forallb (fun p => has_object_permission p (method request) (user request) obj)
(permission_classes view).

(** [GenericAPIView.get_object]: look the key up in the view's query
set (404 when it is not there), then ask the permissions about
the object found. *)
Definition get_object (db : Store) (request : Request Body) (k : nat)
: Response Data + Obj :=
match get (fun o => lookup_field view o =? k)
(get_queryset view db (query_params request)) with
| Raise DoesNotExist => inl HTTP_404_NOT_FOUND
| Raise e => inl (HTTP_500_INTERNAL_SERVER_ERROR e)
| Ok obj =>
if check_object_permissions request obj then inr obj
else inl HTTP_403_FORBIDDEN
end.

(** [Response(serializer.data)] on a store that may have changed. *)
Definition respond (status : Data -> Response Data) (db : Store) (obj : Obj)
: Response Data * Store :=
match serializer_data view db obj with
| Ok d => (status d, db)
| Raise e => (HTTP_500_INTERNAL_SERVER_ERROR e, db)
end.

Definition ListModelMixin_list (db : Store) (request : Request Body) : Response Data * Store :=
let queryset := get_queryset view db (query_params request) in
match pagination_class view with
| Some page_size =>
match paginate_queryset page_size (page (query_params request)) queryset with
| None => (HTTP_404_NOT_FOUND, db)
| Some rows =>
match mapM (serializer_data view db) rows with
| Ok ds => (HTTP_200_OK (Page (List.length queryset) ds), db)
| Raise e => (HTTP_500_INTERNAL_SERVER_ERROR e, db)
end
end
| None =>
match mapM (serializer_data view db) queryset with
| Ok ds => (HTTP_200_OK (Listing ds), db)
| Raise e => (HTTP_500_INTERNAL_SERVER_ERROR e, db)
end
end.

Definition CreateModelMixin_create (db : Store) (request : Request Body) : Response Data * Store :=
match to_internal_value view db false None (data request) with
| Raise e => (HTTP_500_INTERNAL_SERVER_ERROR e, db)
| Ok (inl errors) => (HTTP_400_BAD_REQUEST errors, db)
| Ok (inr v) =>
match perform_create view db now (user request) v with
| Raise e => (HTTP_500_INTERNAL_SERVER_ERROR e, db)
| Ok (db', obj) => respond HTTP_201_CREATED db' obj
end
end.

Definition RetrieveModelMixin_retrieve (db : Store) (request : Request Body) (k : nat)
: Response Data * Store :=
match get_object db request k with
| inl r => (r, db)
| inr obj => respond (fun d => HTTP_200_OK (Detail d)) db obj
end.

Definition UpdateModelMixin_update (partial : bool) (db : Store) (request : Request Body) (k : nat)
: Response Data * Store :=
match get_object db request k with
| inl r => (r, db)
| inr obj =>
match to_internal_value view db partial (Some obj) (data request) with
| Raise e => (HTTP_500_INTERNAL_SERVER_ERROR e, db)
| Ok (inl errors) => (HTTP_400_BAD_REQUEST errors, db)
| Ok (inr v) =>
match perform_update view db now obj v with
| Raise e => (HTTP_500_INTERNAL_SERVER_ERROR e, db)
| Ok (db', obj') => respond (fun d => HTTP_200_OK (Detail d)) db' obj'
end
end
end.

Definition DestroyModelMixin_destroy (db : Store) (request : Request Body) (k : nat)
: Response Data * Store :=
match get_object db request k with
| inl r => (r, db)
| inr obj =>
match perform_destroy view db obj with
| Ok db' => (HTTP_204_NO_CONTENT, db')
| Raise e => (HTTP_500_INTERNAL_SERVER_ERROR e, db)
end
end.

(** [APIView.dispatch] behind the router: permissions first, then the
action that the route maps the method to. *)
Definition dispatch (db : Store) (request : Request Body) : Response Data * Store :=
if negb (check_permissions request) then (HTTP_403_FORBIDDEN, db)
else
match method request, pk request with
| OPTIONS, _ => (HTTP_200_OK Metadata, db)
| (GET | HEAD), None => ListModelMixin_list db request
| POST, None => CreateModelMixin_create db request
| (GET | HEAD), Some k => RetrieveModelMixin_retrieve db request k
| PUT, Some k => UpdateModelMixin_update false db request k
| PATCH, Some k => UpdateModelMixin_update true db request k
| DELETE, Some k => DestroyModelMixin_destroy db request k
| _, _ => (HTTP_405_METHOD_NOT_ALLOWED, db)
end.

(** [viewsets.ReadOnlyModelViewSet]: the router maps [get] to [list]
and [retrieve] and nothing else. *)
Definition ReadOnlyModelViewSet_dispatch (db : Store) (request : Request Body)
: Response Data * Store :=
if negb (check_permissions request) then (HTTP_403_FORBIDDEN, db)
else
match method request, pk request with
| OPTIONS, _ => (HTTP_200_OK Metadata, db)
| (GET | HEAD), None => ListModelMixin_list db request
| (GET | HEAD), Some k => RetrieveModelMixin_retrieve db request k
| _, _ => (HTTP_405_METHOD_NOT_ALLOWED, db)
end.

End GenericViewSet.

(** [serializer.save(author=self.request.user)]: only a real user can be
stored in the [author] key. *)
Definition save_as_author {Obj V : Type}
(create : Store -> Clock -> User.t -> V -> result (Store * Obj))
(db : Store) (now : Clock) (user : option User.t) (v : V)
: result (Store * Obj) :=
match user with
| Some u => create db now u v
| None => Raise ValueError
end.

(** [UserViewSet]: query set and serializer only.  The hooks of the
write actions are not part of a read-only view set; they are filled
with actions that do nothing and that
[ReadOnlyModelViewSet_dispatch] never calls. *)
Definition UserViewSet : ModelViewSet User.t unit User.t unit :=
mkViewSet
(fun db _ => User_objects db)
User.id
(settings.DEFAULT_PERMISSION_CLASSES User.t)
settings.DEFAULT_PAGINATION_CLASS
(fun _ _ _ _ => Ok (inr tt))
(fun _ _ _ _ => Raise ValueError)
(fun _ _ _ _ => Raise ValueError)
(fun db _ => Ok db)
UserSerializer_data.

Definition CategoryViewSet : ModelViewSet Category.t NameBody.t Category.t (option string) :=
mkViewSet
(fun db _ => Category_objects db)
Category.id
(settings.DEFAULT_PERMISSION_CLASSES Category.t)
settings.DEFAULT_PAGINATION_CLASS
CategorySerializer_to_internal_value
(fun db _ _ v => CategorySerializer_create db v)
(fun db _ instance v => CategorySerializer_update db instance v)
(fun db c => Ok (Category_delete db c))
CategorySerializer_data.

Definition TagViewSet : ModelViewSet Tag.t NameBody.t Tag.t (option string) :=
mkViewSet
(fun db _ => Tag_objects db)
Tag.id
(settings.DEFAULT_PERMISSION_CLASSES Tag.t)
settings.DEFAULT_PAGINATION_CLASS
TagSerializer_to_internal_value
(fun db _ _ v => TagSerializer_create db v)
(fun db _ instance v => TagSerializer_update db instance v)
(fun db t => Ok (Tag_delete db t))
TagSerializer_data.

(** [Post.objects.all().order_by('-created_at')] *)
Fixpoint insert_by_created_at (p : Post.t) (rows : list Post.t) : list Post.t :=
match rows with
| [] => [p]
| q :: rest =>
if Post.created_at q <=? Post.created_at p then p :: rows
else q :: insert_by_created_at p rest
end.

Definition order_by_created_at_desc (rows : list Post.t) : list Post.t :=
fold_right insert_by_created_at [] rows.

Definition PostViewSet : ModelViewSet Post.t PostBody.t PostData.t PostValidated.t :=
mkViewSet
(fun db _ => order_by_created_at_desc (Post_objects db))
Post.id
[IsAuthorOrReadOnly Post.t]
(Some PostPagination_page_size)
(fun db partial _ data => PostSerializer_to_internal_value db partial data)
(save_as_author PostSerializer_create)
PostSerializer_update
Post_destroy
PostSerializer_data.

(** [CommentViewSet.get_queryset] *)
Definition CommentViewSet_get_queryset (db : Store) (q : QueryParams)
: list Comment.t :=
let queryset := Comment_objects db in
match post_id q with
| Some post_id => filter (fun c => Comment.post c =? post_id) queryset
| None => queryset
end.

Definition CommentViewSet
: ModelViewSet Comment.t CommentBody.t CommentData.t CommentValidated.t :=
mkViewSet
CommentViewSet_get_queryset
Comment.id
[IsAuthorOrReadOnly Comment.t]
(Some CommentPagination_page_size)
(fun db partial _ data => CommentSerializer_to_internal_value db partial data)
(save_as_author CommentSerializer_create)
CommentSerializer_update
Comment_destroy
CommentSerializer_data.

End views.
Import views.

(* ------------------------------------------------------------------ *)
(** ** Vocabulary of the properties *)

(** *** Representations as trees *)

(** The keys of a representation and of everything nested in it, in
    the order in which they are written out. *)
Fixpoint subtree_ids (n : CommentData.t) : list nat :=
  match n with
  | CommentData.mk i _ _ _ _ _ _ rs => i :: flat_map subtree_ids rs
  end.

(** The number of levels of a representation: 1 for a comment without
    replies. *)
Fixpoint depth (n : CommentData.t) : nat :=
  match n with
  | CommentData.mk _ _ _ _ _ _ _ rs => S (list_max (map depth rs))
  end.

(** [nested n [c1; ...; ck]]: under [n] there is the reply [c1], under
    that one [c2], and so on. *)
Fixpoint nested (n : CommentData.t) (chain : list Comment.t) : Prop :=
  match chain with
  | [] => True
  | c :: rest =>
      exists r, In r (CommentData.replies n)
                /\ CommentData.id r = Comment.id c
                /\ CommentData.content r = Comment.content c
                /\ nested r rest
  end.

(** *** Stores *)

(** [reply_chain db c [c1; ...; ck]]: [c1] is a stored reply to [c],
    [c2] a stored reply to [c1], and so on. *)
Fixpoint reply_chain (db : Store) (c : Comment.t) (chain : list Comment.t) : Prop :=
  match chain with
  | [] => True
  | r :: rest =>
      In r (Comment_objects db)
      /\ Comment.parent r = Some (Comment.id c)
      /\ reply_chain db r rest
  end.

(** Primary keys identify rows. *)
Definition pk_unique (db : Store) : Prop :=
  NoDup (map Comment.id (Comment_objects db)).

(** The table is in insertion order and the sequence hands out growing
    keys that it has not handed out before. *)
Definition pk_sorted (db : Store) : Prop :=
  StronglySorted lt (map Comment.id (Comment_objects db))
  /\ Forall (fun c => Comment.id c < Comment_seq db) (Comment_objects db).

(** Every comment's parent was created strictly before it. *)
Definition parents_first (db : Store) : Prop :=
  Forall (fun c => forall p, Comment.parent c = Some p -> p < Comment.id c)
    (Comment_objects db).

(** The foreign keys [post] and [author] of every comment point to
    exactly one row. *)
Definition keys_resolve (db : Store) : Prop :=
  Forall (fun c => (exists p, Comment_post db c = Ok p)
                   /\ (exists a, Comment_author db c = Ok a))
    (Comment_objects db).

(** The number of rows created after [c]: what bounds the nesting
    below [c] when parents come first. *)
Definition later (db : Store) (c : Comment.t) : nat :=
  List.length (filter (fun r => Comment.id c <? Comment.id r) (Comment_objects db)).

(** [descends rows a c]: the chain of parents of the stored comment [c]
    passes through the key [a]. *)
Inductive descends (rows : list Comment.t) (a : nat) : Comment.t -> Prop :=
| descends_reply c :
    In c rows -> Comment.parent c = Some a -> descends rows a c
| descends_deeper c b :
    In c rows -> Comment.parent c = Some (Comment.id b) ->
    descends rows a b -> descends rows a c.

(** A clock that advances by one unit from one reading to the next. *)
Definition ticking (t : nat) : Clock := fun n => t + n.

(** *** A small store

    Two users, one post and a thread of three levels on it: a comment,
    a reply to it, a reply to the reply and a later second reply to the
    comment. *)
Definition alice : User.t := User.mk 1 "alice".
Definition bob : User.t := User.mk 2 "bob".

Definition intro : Post.t := Post.mk 1 "Intro" "Hello" (Some 1) [1] 10 10 1.

Definition first_comment : Comment.t := Comment.mk 1 1 "First" 1 None 20 20.
Definition first_reply : Comment.t := Comment.mk 2 1 "Reply" 2 (Some 1) 21 21.
Definition second_reply : Comment.t := Comment.mk 3 1 "Reply to reply" 1 (Some 2) 22 22.

Definition late_reply : Comment.t := Comment.mk 4 1 "Another reply" 2 (Some 1) 23 23.

Definition thread_store : Store :=
  mkStore [alice; bob] [Category.mk 1 "Tech"] [Tag.mk 1 "News"] [intro]
    [first_comment; first_reply; second_reply; late_reply] 2 2 2 5.

(** *** A comment made its own parent

    Alice's change of the [parent] of her first comment to the comment
    itself, and the store it leaves. *)
Definition own_parent : Request CommentBody.t :=
  mkRequest PATCH (Some alice) (Some 1) (mkQuery None None)
    (CommentBody.mk Absent Absent Absent (Value 1)).

Definition looped_comment : Comment.t := Comment.mk 1 1 "First" 1 (Some 1) 20 30.

Definition looped_store : Store :=
  mkStore [alice; bob] [Category.mk 1 "Tech"] [Tag.mk 1 "News"] [intro]
    [looped_comment; first_reply; second_reply; late_reply] 2 2 2 5.

(** *** A long thread

    One comment on "Intro" and [n] replies below it, each a reply to
    the one before. *)
Definition nth_reply (i : nat) : Comment.t :=
  Comment.mk (S i) 1 "Reply" 1
    (match i with 0 => None | S _ => Some i end) (20 + i) (20 + i).

Definition long_thread (n : nat) : Store :=
  mkStore [alice; bob] [Category.mk 1 "Tech"] [Tag.mk 1 "News"] [intro]
    (map nth_reply (seq 0 (S n))) 2 2 2 (n + 2).

(** *** Cascading deletion *)

(** [closed rows s]: the set of keys [s] contains the key of every row
    whose parent is in it. *)
Definition closed (rows : list Comment.t) (s : list nat) : Prop :=
  forall r p, In r rows -> Comment.parent r = Some p -> In p s -> In (Comment.id r) s.

(** *** Requests *)

(** A view guards its objects by their author when, for every request:
    a safe method passes both permission checks and is never answered
    403; a mutating method from an anonymous caller is answered 403 and
    the store stays as it was; and so is a mutating method on an object
    of the view's query set whose author is not the caller. *)
Definition author_only {Obj Body Data V : Type} `{HasAuthor Obj}
    (view : ModelViewSet Obj Body Data V) : Prop :=
  forall (now : Clock) (db : Store) (request : Request Body),
    (is_safe (method request) = true ->
       check_permissions view request = true
       /\ (forall obj, check_object_permissions view request obj = true)
       /\ fst (dispatch view now db request) <> HTTP_403_FORBIDDEN)
    /\ (is_safe (method request) = false -> user request = None ->
          dispatch view now db request = (HTTP_403_FORBIDDEN, db))
    /\ (forall k u obj,
          In (method request) [PUT; PATCH; DELETE] ->
          pk request = Some k -> user request = Some u ->
          get (fun o => lookup_field view o =? k)
              (get_queryset view db (query_params request)) = Ok obj ->
          author_of obj <> User.id u ->
          dispatch view now db request = (HTTP_403_FORBIDDEN, db)).

(** A view is open when no request to it is answered 403 and both
    permission checks pass whoever asks. *)
Definition open_to_all {Obj Body Data V : Type}
    (view : ModelViewSet Obj Body Data V) : Prop :=
  forall (now : Clock) (db : Store) (request : Request Body),
    check_permissions view request = true
    /\ (forall obj, check_object_permissions view request obj = true)
    /\ fst (dispatch view now db request) <> HTTP_403_FORBIDDEN.

Definition no_query : QueryParams := mkQuery None None.

Definition no_post : PostBody.t := PostBody.mk Absent Absent Absent Absent Absent.
Definition no_comment : CommentBody.t := CommentBody.mk Absent Absent Absent Absent.

(** The spec's scenario: a change of title sent by someone who is not
    the author, and by the author. *)
Definition retitle (who : option User.t) : Request PostBody.t :=
  mkRequest PATCH who (Some 1) no_query
    (PostBody.mk (Value "Forbidden Update") Absent Absent Absent Absent).

Definition anonymous_delete : Request CommentBody.t :=
  mkRequest DELETE None (Some 1) no_query no_comment.

(** Anonymous requests to the category and tag endpoints. *)
Definition anonymous_named (m : Method) (k : option nat) (name : field string)
  : Request NameBody.t :=
  mkRequest m None k no_query (NameBody.mk name).

(** The same request with another body, and the same body with another
    value under the key [author]. *)
Definition with_data {Body : Type} (request : Request Body) (d : Body)
  : Request Body :=
  mkRequest (method request) (user request) (pk request) (query_params request) d.

Definition PostBody_with_author (a : field string) (b : PostBody.t) : PostBody.t :=
  PostBody.mk (PostBody.title b) (PostBody.content b) a
    (PostBody.category b) (PostBody.tag b).

Definition CommentBody_with_author (a : field string) (b : CommentBody.t)
  : CommentBody.t :=
  CommentBody.mk (CommentBody.post b) (CommentBody.content b) a
    (CommentBody.parent b).

(** A comment on "Intro" sent by bob under alice's name. *)
Definition spoofed_comment : Request CommentBody.t :=
  mkRequest POST (Some bob) None no_query
    (CommentBody.mk (Value "Intro") (Value "Me too") (Value "alice") Absent).

Definition spoofed_post : Request PostBody.t :=
  mkRequest POST (Some bob) None no_query
    (PostBody.mk (Value "Second") (Value "More") (Value "alice")
       (Value "Tech") (Value ["News"])).

(** *** Two posts

    A second post by bob next to "Intro", before and after bob answers
    alice's comment on "Intro" with a comment that he files under his
    own post. *)
Definition other : Post.t := Post.mk 2 "Other" "Elsewhere" (Some 1) [] 11 11 2.

Definition two_posts_store : Store :=
  mkStore [alice; bob] [Category.mk 1 "Tech"] [Tag.mk 1 "News"] [intro; other]
    [first_comment] 2 2 3 2.

Definition misfiled_reply : Request CommentBody.t :=
  mkRequest POST (Some bob) None no_query
    (CommentBody.mk (Value "Other") (Value "Off topic") Absent (Value 1)).

Definition misfiled : Comment.t := Comment.mk 2 2 "Off topic" 2 (Some 1) 30 31.

Definition cross_post_store : Store :=
  mkStore [alice; bob] [Category.mk 1 "Tech"] [Tag.mk 1 "News"] [intro; other]
    [first_comment; misfiled] 2 2 3 3.

(** *** Two posts with one title

    [Post.title] is not declared unique, so a second "Intro" can be
    posted. *)
Definition second_intro : Request PostBody.t :=
  mkRequest POST (Some bob) None no_query
    (PostBody.mk (Value "Intro") (Value "Hello again") Absent
       (Value "Tech") (Value [])).

Definition intro_again : Post.t := Post.mk 2 "Intro" "Hello again" (Some 1) [] 30 31 2.

Definition twin_titles_store : Store :=
  mkStore [alice; bob] [Category.mk 1 "Tech"] [Tag.mk 1 "News"] [intro; intro_again]
    [first_comment; first_reply; second_reply; late_reply] 2 2 3 5.

Definition comment_on_intro (content : field string) (parent : field nat)
  : Request CommentBody.t :=
  mkRequest POST (Some alice) None no_query
    (CommentBody.mk (Value "Intro") content Absent parent).

(** At most one post carries the title submitted. *)
Definition title_unambiguous (db : Store) (d : field string) : Prop :=
  forall t, d = Value t ->
    List.length (filter (fun x => String.eqb (Post.title x) t) (Post_objects db)) <= 1.

(** *** Listing the comments of a post *)

(** [GET /comments/?post_id=...], with or without a page number. *)
Definition list_comments (pid : nat) (page : option nat) : Request CommentBody.t :=
  mkRequest GET None None (mkQuery (Some pid) page) no_comment.

(** The entries of the listing over all its pages: the serializer
    applied to each row of the view's query set. *)
Definition CommentViewSet_listing (db : Store) (pid : nat)
  : result (list CommentData.t) :=
  mapM (CommentSerializer_data db)
    (CommentViewSet_get_queryset db (mkQuery (Some pid) None)).

(** The reply [r] is in the payload twice: as an entry of its own and
    among the replies of the entry of its parent. *)
Definition shown_twice (entries : list CommentData.t) (r : Comment.t) : Prop :=
  exists own above,
    In own entries /\ CommentData.id own = Comment.id r
    /\ In above entries /\ Some (CommentData.id above) = Comment.parent r
    /\ In own (CommentData.replies above).

(** The listing of a post shows every reply stored under that post
    twice. *)
Definition every_reply_twice (db : Store) (pid : nat) : Prop :=
  exists entries,
    CommentViewSet_listing db pid = Ok entries
    /\ forall r, In r (Comment_objects db) -> Comment.post r = pid ->
                 Comment.parent r <> None -> shown_twice entries r.

(* ------------------------------------------------------------------ *)
(** ** Vocabulary of the further properties *)

(** The answers that refuse a request: invalid data, no permission, no
    such object, no such action. *)
Definition is_refusal {Data : Type} (r : Response Data) : bool :=
  match r with
  | HTTP_400_BAD_REQUEST _ | HTTP_403_FORBIDDEN
  | HTTP_404_NOT_FOUND | HTTP_405_METHOD_NOT_ALLOWED => true
  | _ => false
  end.

(** A view answers 403 in exactly two cases: a mutating method from an
    anonymous caller, and a change or deletion of an object of its
    query set by someone who is not the author. *)
Definition forbidden_exactly {Obj Body Data V : Type} `{HasAuthor Obj}
    (view : ModelViewSet Obj Body Data V) : Prop :=
  forall (now : Clock) (db : Store) (request : Request Body),
    fst (dispatch view now db request) = HTTP_403_FORBIDDEN <->
    is_safe (method request) = false
    /\ (user request = None
        \/ exists k u obj,
             In (method request) [PUT; PATCH; DELETE]
             /\ pk request = Some k /\ user request = Some u
             /\ get (fun o => lookup_field view o =? k)
                    (get_queryset view db (query_params request)) = Ok obj
             /\ author_of obj <> User.id u).

(** Whoever changes the store through a view is signed in and either
    creates, or is the author of the object addressed. *)
Definition changed_by_author_only {Obj Body Data V : Type} `{HasAuthor Obj}
    (view : ModelViewSet Obj Body Data V) : Prop :=
  forall (now : Clock) (db : Store) (request : Request Body),
    snd (dispatch view now db request) <> db ->
    exists u,
      user request = Some u
      /\ ((method request = POST /\ pk request = None)
          \/ exists k obj,
               In (method request) [PUT; PATCH; DELETE]
               /\ pk request = Some k
               /\ get (fun o => lookup_field view o =? k)
                      (get_queryset view db (query_params request)) = Ok obj
               /\ author_of obj = User.id u).

(** All the pages of a query set, from page 1 to the last one. *)
Definition pages {A : Type} (page_size : nat) (queryset : list A)
  : list (option (list A)) :=
  map (fun n => paginate_queryset page_size (Some n) queryset)
    (seq 1 (num_pages page_size (List.length queryset))).

(** Newest first: [b] may follow [a] in the post listing. *)
Definition not_newer (a b : Post.t) : Prop :=
  Post.created_at b <= Post.created_at a.

(** The keys that a cascade from [seeds] can reach: the seeds and the
    keys of the rows whose chain of parents passes through a seed. *)
Definition reached (rows : list Comment.t) (seeds : list nat) (y : nat) : Prop :=
  In y seeds
  \/ exists a r, In a seeds /\ descends rows a r /\ Comment.id r = y.

(** The constraints on the category and tag tables: keys are unique and
    below the next key of the sequence, names are unique
    ([unique=True]). *)
Definition categories_ok (db : Store) : Prop :=
  NoDup (map Category.id (Category_objects db))
  /\ NoDup (map Category.name (Category_objects db))
  /\ Forall (fun c => Category.id c < Category_seq db) (Category_objects db).

Definition tags_ok (db : Store) : Prop :=
  NoDup (map Tag.id (Tag_objects db))
  /\ NoDup (map Tag.name (Tag_objects db))
  /\ Forall (fun c => Tag.id c < Tag_seq db) (Tag_objects db).

(** A post as the deletion of the category [c], resp. of the tag [t],
    leaves it, and its representation after that. *)
Definition without_category (c : Category.t) (p : Post.t) : Post.t :=
  if eq_opt (Post.category p) (Category.id c) then Post_with_category p None else p.

Definition without_tag (t : Tag.t) (p : Post.t) : Post.t :=
  Post_with_tag p (filter (fun i => negb (i =? Tag.id t)) (Post.tag p)).

Definition PostData_with (d : PostData.t) (category : option string)
    (tag : list string) : PostData.t :=
  PostData.mk (PostData.id d) (PostData.title d) (PostData.content d)
    (PostData.author d) category tag (PostData.created_at d) (PostData.updated_at d).

(** Referential integrity: users and posts have unique keys, the keys of
    posts lie below the next one of the sequence, every post has a
    stored author, every comment a stored post and a stored author. *)
Definition store_integrity (db : Store) : Prop :=
  NoDup (map User.id (User_objects db))
  /\ NoDup (map Post.id (Post_objects db))
  /\ Forall (fun p => Post.id p < Post_seq db) (Post_objects db)
  /\ Forall (fun p => exists u, In u (User_objects db) /\ User.id u = Post.author p)
       (Post_objects db)
  /\ Forall (fun c => (exists p, In p (Post_objects db) /\ Post.id p = Comment.post c)
                      /\ (exists u, In u (User_objects db)
                                    /\ User.id u = Comment.author c))
       (Comment_objects db).

(** The caller, if signed in, is a stored user. *)
Definition caller_stored {Body : Type} (db : Store) (request : Request Body) : Prop :=
  forall u, user request = Some u -> In u (User_objects db).

(** A comment saved again with nothing changed: only the time of the
    last change moves. *)
Definition touched (now : nat) (c : Comment.t) : Comment.t :=
  Comment.mk (Comment.id c) (Comment.post c) (Comment.content c)
    (Comment.author c) (Comment.parent c) (Comment.created_at c) now.

Unset Implicit Arguments.

(* ------------------------------------------------------------------ *)
(** ** Fallible computations *)

Lemma bind_Ok {A B : Type} (m : result A) (k : A -> result B) (b : B) :
  bind m k = Ok b -> exists a, m = Ok a /\ k a = Ok b.
Proof.
  destruct m as [a|e]; simpl; intros H; [eauto | discriminate].
Qed.

Lemma mapM_Ok {A B : Type} (f : A -> result B) (l : list A) (ys : list B) :
  mapM f l = Ok ys <-> Forall2 (fun x y => f x = Ok y) l ys.
Proof.
  revert ys; induction l as [|x xs IH]; intros ys; simpl.
  - split; intros H.
    + injection H as <-. constructor.
    + inversion H. reflexivity.
  - split; intros H.
    + apply bind_Ok in H as (y & Hy & H).
      apply bind_Ok in H as (ys' & Hys & H).
      injection H as <-. constructor; [assumption | now apply IH].
    + inversion H as [|? y ? ys' Hy Hys]; subst.
      rewrite Hy; simpl. apply IH in Hys. rewrite Hys; reflexivity.
Qed.

Lemma mapM_total {A B : Type} (f : A -> result B) (l : list A) :
  (forall x, In x l -> exists y, f x = Ok y) -> exists ys, mapM f l = Ok ys.
Proof.
  induction l as [|x xs IH]; intros H; simpl.
  - eauto.
  - destruct (H x (or_introl eq_refl)) as [y Hy].
    destruct IH as [ys Hys]; [intros; apply H; now right|].
    rewrite Hy, Hys; simpl; eauto.
Qed.

Lemma mapM_ext_Ok {A B : Type} (f g : A -> result B) (l : list A) (ys : list B) :
  (forall x y, In x l -> f x = Ok y -> g x = Ok y) ->
  mapM f l = Ok ys -> mapM g l = Ok ys.
Proof.
  intros Hfg H. apply mapM_Ok in H. apply mapM_Ok.
  induction H as [|x y xs ys' Hy _ IH]; constructor.
  - apply Hfg; [now left | assumption].
  - apply IH. intros; apply Hfg; [now right | assumption].
Qed.

(* ------------------------------------------------------------------ *)
(** ** The comment tree: recursive serialization *)

Lemma filter_length_lt {A : Type} (p q : A -> bool) (l : list A) (d : A) :
  (forall x, p x = true -> q x = true) ->
  In d l -> q d = true -> p d = false ->
  List.length (filter p l) < List.length (filter q l).
Proof.
  intros Hpq. induction l as [|x xs IH]; simpl; intros Hin Hq Hp; [contradiction|].
  assert (Hle : List.length (filter p xs) <= List.length (filter q xs)).
  { clear - Hpq. induction xs as [|y ys IHy]; simpl; [lia|].
    destruct (p y) eqn:Epy.
    - rewrite (Hpq _ Epy); simpl; lia.
    - destruct (q y); simpl; lia. }
  destruct Hin as [->|Hin].
  - rewrite Hq, Hp; simpl; lia.
  - specialize (IH Hin Hq Hp).
    destruct (p x) eqn:Epx.
    + rewrite (Hpq _ Epx); simpl; lia.
    + destruct (q x); simpl; lia.
Qed.

Lemma eq_opt_true (a : option nat) (n : nat) :
  eq_opt a n = true <-> a = Some n.
Proof.
  destruct a as [m|]; simpl.
  - rewrite Nat.eqb_eq. split; [now intros -> | now intros [= ->]].
  - split; discriminate.
Qed.

Lemma Comment_replies_In (db : Store) (c r : Comment.t) :
  In r (Comment_replies db c) <->
  In r (Comment_objects db) /\ Comment.parent r = Some (Comment.id c).
Proof.
  unfold Comment_replies. rewrite filter_In, eq_opt_true. reflexivity.
Qed.

Lemma parents_first_lt (db : Store) (c r : Comment.t) :
  parents_first db -> In r (Comment_replies db c) -> Comment.id c < Comment.id r.
Proof.
  intros Hpf Hr. apply Comment_replies_In in Hr as [Hin Hp].
  unfold parents_first in Hpf. rewrite Forall_forall in Hpf.
  exact (Hpf r Hin _ Hp).
Qed.

Lemma later_reply (db : Store) (c r : Comment.t) :
  parents_first db -> In r (Comment_replies db c) -> later db r < later db c.
Proof.
  intros Hpf Hr. pose proof (parents_first_lt db c r Hpf Hr) as Hlt.
  apply Comment_replies_In in Hr as [Hin _].
  unfold later. apply filter_length_lt with (d := r).
  - intros x Hx. apply Nat.ltb_lt in Hx. apply Nat.ltb_lt. lia.
  - assumption.
  - apply Nat.ltb_lt; assumption.
  - apply Nat.ltb_ge; lia.
Qed.

Lemma later_le_length (db : Store) (c : Comment.t) :
  later db c <= List.length (Comment_objects db).
Proof. unfold later. apply filter_length_le. Qed.

Lemma to_representation_S (fuel : nat) (db : Store) (c : Comment.t) :
  CommentSerializer_to_representation (S fuel) db c =
  (p <- Comment_post db c ;;
   a <- Comment_author db c ;;
   rs <- mapM (CommentSerializer_to_representation fuel db) (Comment_replies db c) ;;
   Ok (CommentData.mk (Comment.id c) (Post.title p) (Comment.content c)
         (User.username a) (Comment.parent c) (Comment.created_at c)
         (Comment.updated_at c) rs)).
Proof. reflexivity. Qed.

(** With resolvable keys, a depth beyond the length of every chain of
    replies below the comment is enough for the serializer to return. *)
Lemma to_representation_total (db : Store) :
  keys_resolve db ->
  forall fuel c, In c (Comment_objects db) ->
  (forall chain, reply_chain db c chain -> List.length chain < fuel) ->
  exists n, CommentSerializer_to_representation fuel db c = Ok n.
Proof.
  intros Hk. induction fuel as [|fuel IH]; intros c Hin Hfuel.
  - specialize (Hfuel [] I). simpl in Hfuel. lia.
  - rewrite to_representation_S. unfold keys_resolve in Hk. rewrite Forall_forall in Hk.
    destruct (Hk c Hin) as [[p Hp] [a Ha]]. rewrite Hp, Ha; simpl.
    destruct (mapM_total (CommentSerializer_to_representation fuel db)
                (Comment_replies db c)) as [rs Hrs].
    + intros r Hr. apply Comment_replies_In in Hr as [Hr Hpar]. apply IH; [exact Hr|].
      intros chain Hchain.
      assert (Hlong : reply_chain db c (r :: chain)) by (simpl; auto).
      apply Hfuel in Hlong. simpl in Hlong. lia.
    + rewrite Hrs; simpl. eauto.
Qed.

(** When parents come first, a chain of replies below a comment is made
    of rows created after it. *)
Lemma chain_later (db : Store) :
  parents_first db ->
  forall chain c, reply_chain db c chain -> List.length chain <= later db c.
Proof.
  intros Hpf. induction chain as [|r rest IH]; intros c Hchain; simpl; [lia|].
  destruct Hchain as (Hin & Hpar & Hrest).
  assert (Hr : In r (Comment_replies db c)) by now apply Comment_replies_In.
  pose proof (later_reply db c r Hpf Hr). pose proof (IH r Hrest). lia.
Qed.

(** A result does not depend on the depth allowed, once it is there. *)
Lemma to_representation_fuel (db : Store) :
  forall fuel fuel' c n, fuel <= fuel' ->
  CommentSerializer_to_representation fuel db c = Ok n ->
  CommentSerializer_to_representation fuel' db c = Ok n.
Proof.
  induction fuel as [|fuel IH]; intros fuel' c n Hle H; [discriminate|].
  destruct fuel' as [|fuel']; [lia|].
  rewrite to_representation_S in *.
  apply bind_Ok in H as (p & Hp & H). apply bind_Ok in H as (a & Ha & H).
  apply bind_Ok in H as (rs & Hrs & H).
  rewrite Hp, Ha; simpl.
  rewrite (mapM_ext_Ok (CommentSerializer_to_representation fuel db)
             (CommentSerializer_to_representation fuel' db) (Comment_replies db c) rs).
  - exact H.
  - intros x y _ Hx. apply (IH fuel' x y); [lia | exact Hx].
  - exact Hrs.
Qed.

(** What a returned representation looks like. *)
Lemma to_representation_inv (db : Store) (fuel : nat) (c : Comment.t)
    (n : CommentData.t) :
  CommentSerializer_to_representation (S fuel) db c = Ok n ->
  exists p a rs,
    Comment_post db c = Ok p /\ Comment_author db c = Ok a
    /\ Forall2 (fun r y => CommentSerializer_to_representation fuel db r = Ok y)
         (Comment_replies db c) rs
    /\ n = CommentData.mk (Comment.id c) (Post.title p) (Comment.content c)
             (User.username a) (Comment.parent c) (Comment.created_at c)
             (Comment.updated_at c) rs.
Proof.
  rewrite to_representation_S. intros H.
  apply bind_Ok in H as (p & Hp & H). apply bind_Ok in H as (a & Ha & H).
  apply bind_Ok in H as (rs & Hrs & H). injection H as <-.
  exists p, a, rs. repeat split; try assumption. now apply mapM_Ok.
Qed.

Lemma to_representation_id (db : Store) (fuel : nat) (c : Comment.t)
    (n : CommentData.t) :
  CommentSerializer_to_representation fuel db c = Ok n ->
  CommentData.id n = Comment.id c /\ CommentData.content n = Comment.content c
  /\ CommentData.parent n = Comment.parent c.
Proof.
  destruct fuel as [|fuel]; [discriminate|]. intros H.
  apply to_representation_inv in H as (p & a & rs & _ & _ & _ & ->). auto.
Qed.

Lemma CommentSerializer_data_eq (db : Store) (c : Comment.t) :
  CommentSerializer_data db c
  = CommentSerializer_to_representation (S max_nested_replies) db c.
Proof. reflexivity. Qed.

Lemma data_total (db : Store) (c : Comment.t) :
  keys_resolve db -> In c (Comment_objects db) ->
  (forall chain, reply_chain db c chain -> List.length chain <= max_nested_replies) ->
  exists n, CommentSerializer_data db c = Ok n.
Proof.
  intros Hk Hin Hchains. rewrite CommentSerializer_data_eq.
  apply to_representation_total; try assumption.
  intros chain Hchain. apply Hchains in Hchain. lia.
Qed.

(** A node returned one level down is the node returned at top level. *)
Lemma to_representation_data (db : Store) (fuel : nat) (c : Comment.t)
    (n : CommentData.t) :
  fuel <= S max_nested_replies ->
  CommentSerializer_to_representation fuel db c = Ok n ->
  CommentSerializer_data db c = Ok n.
Proof.
  intros Hle H. rewrite CommentSerializer_data_eq.
  eapply to_representation_fuel; eassumption.
Qed.

(** A node is returned only where the depth allowed is beyond the
    length of every chain of replies. *)
Lemma to_representation_chain (db : Store) (chain : list Comment.t) :
  forall fuel c n,
    CommentSerializer_to_representation fuel db c = Ok n ->
    reply_chain db c chain -> List.length chain < fuel.
Proof.
  induction chain as [|r rest IH]; intros fuel c n H Hchain;
    (destruct fuel as [|fuel]; [discriminate|]); simpl; [lia|].
  destruct Hchain as (Hin & Hpar & Hrest).
  apply to_representation_inv in H as (p & a & rs & _ & _ & HF & _).
  assert (Hr : In r (Comment_replies db c)) by now apply Comment_replies_In.
  assert (Hy : exists y, CommentSerializer_to_representation fuel db r = Ok y).
  { clear - HF Hr. induction HF as [|x y xs ys Hxy _ IHF]; [destruct Hr|].
    destruct Hr as [->|Hr]; eauto. }
  destruct Hy as [y Hy]. pose proof (IH fuel r y Hy Hrest). lia.
Qed.

Lemma mapM_Raise {A B : Type} (f : A -> result B) (l : list A) (e : exn) :
  mapM f l = Raise e -> exists x, In x l /\ f x = Raise e.
Proof.
  induction l as [|x xs IH]; simpl; [discriminate|].
  destruct (f x) as [y|e'] eqn:Hx; simpl.
  - destruct (mapM f xs) as [ys|e'']; simpl; [discriminate|].
    intros [= <-]. destruct IH as (z & Hz & Hfz); [reflexivity|]. eauto.
  - intros [= <-]. eauto.
Qed.

(** With resolvable keys the one exception left to the serializer is
    the interpreter's. *)
Lemma to_representation_Raise (db : Store) :
  keys_resolve db ->
  forall fuel c e, In c (Comment_objects db) ->
  CommentSerializer_to_representation fuel db c = Raise e -> e = RecursionError.
Proof.
  intros Hk. induction fuel as [|fuel IH]; intros c e Hin H.
  - simpl in H. congruence.
  - rewrite to_representation_S in H.
    unfold keys_resolve in Hk. rewrite Forall_forall in Hk.
    destruct (Hk c Hin) as [[p Hp] [a Ha]]. rewrite Hp, Ha in H; simpl in H.
    destruct (mapM _ _) as [rs|e'] eqn:Hrs; simpl in H; [discriminate|].
    injection H as <-. apply mapM_Raise in Hrs as (r & Hr & Hraise).
    apply Comment_replies_In in Hr as [Hr _]. exact (IH r e' Hr Hraise).
Qed.

(** A chain of replies too long for the interpreter: [RecursionError]. *)
Lemma data_too_deep (db : Store) (c : Comment.t) (chain : list Comment.t) :
  keys_resolve db -> In c (Comment_objects db) ->
  reply_chain db c chain -> max_nested_replies < List.length chain ->
  CommentSerializer_data db c = Raise RecursionError.
Proof.
  intros Hk Hin Hchain Hlong.
  destruct (CommentSerializer_data db c) as [n|e] eqn:H.
  - rewrite CommentSerializer_data_eq in H.
    pose proof (to_representation_chain db chain _ c n H Hchain). lia.
  - rewrite CommentSerializer_data_eq in H.
    now rewrite (to_representation_Raise db Hk _ c e Hin H).
Qed.

Lemma subtree_ids_eq (n : CommentData.t) :
  subtree_ids n = CommentData.id n :: flat_map subtree_ids (CommentData.replies n).
Proof. destruct n; reflexivity. Qed.

Lemma depth_eq (n : CommentData.t) :
  depth n = S (list_max (map depth (CommentData.replies n))).
Proof. destruct n; reflexivity. Qed.

Lemma depth_reply (n r : CommentData.t) :
  In r (CommentData.replies n) -> depth r < depth n.
Proof.
  intros Hr. rewrite (depth_eq n).
  assert (H : Forall (fun k => k <= list_max (map depth (CommentData.replies n)))
                (map depth (CommentData.replies n)))
    by (apply list_max_le; lia).
  rewrite Forall_forall in H. specialize (H (depth r) (in_map depth _ _ Hr)). lia.
Qed.

Lemma Forall2_In_r {A B : Type} (R : A -> B -> Prop) (l : list A) (l' : list B) (y : B) :
  Forall2 R l l' -> In y l' -> exists x, In x l /\ R x y.
Proof.
  induction 1 as [|x y' xs ys Hxy _ IH]; simpl; [contradiction|].
  intros [<-|Hin].
  - exists x; auto.
  - destruct (IH Hin) as (x' & Hx' & HR). exists x'; auto.
Qed.

Lemma Forall2_In_l {A B : Type} (R : A -> B -> Prop) (l : list A) (l' : list B) (x : A) :
  Forall2 R l l' -> In x l -> exists y, In y l' /\ R x y.
Proof.
  induction 1 as [|x' y xs ys Hxy _ IH]; simpl; [contradiction|].
  intros [<-|Hin].
  - exists y; auto.
  - destruct (IH Hin) as (y' & Hy' & HR). exists y'; auto.
Qed.

Lemma Forall2_impl_In {A B : Type} (R S : A -> B -> Prop) (l : list A) (l' : list B) :
  Forall2 R l l' -> (forall x y, In x l -> R x y -> S x y) -> Forall2 S l l'.
Proof.
  induction 1 as [|x y xs ys Hxy _ IH]; intros HRS; constructor.
  - apply HRS; [now left | exact Hxy].
  - apply IH. intros; apply HRS; [now right | assumption].
Qed.

Lemma NoDup_map_inj {A : Type} (f : A -> nat) (l : list A) (x y : A) :
  NoDup (map f l) -> In x l -> In y l -> f x = f y -> x = y.
Proof.
  induction l as [|z zs IH]; simpl; [contradiction|].
  intros Hnd Hx Hy Hf. inversion Hnd as [|? ? Hnotin Hnd']; subst.
  destruct Hx as [->|Hx], Hy as [->|Hy]; auto.
  - exfalso. apply Hnotin. rewrite Hf. now apply in_map.
  - exfalso. apply Hnotin. rewrite <- Hf. now apply in_map.
Qed.

Lemma NoDup_map_filter {A : Type} (f : A -> nat) (p : A -> bool) (l : list A) :
  NoDup (map f l) -> NoDup (map f (filter p l)).
Proof.
  induction l as [|z zs IH]; simpl; intros Hnd; [constructor|].
  inversion Hnd as [|? ? Hnotin Hnd']; subst.
  destruct (p z); simpl; [constructor|]; auto.
  intros Hin. apply Hnotin. apply in_map_iff in Hin as (w & <- & Hw).
  apply in_map. now apply filter_In in Hw.
Qed.

(** The keys in [replies] are those of the stored replies, in order. *)
Lemma replies_ids (db : Store) (fuel : nat) (c : Comment.t) (n : CommentData.t) :
  CommentSerializer_to_representation fuel db c = Ok n ->
  map CommentData.id (CommentData.replies n) = map Comment.id (Comment_replies db c).
Proof.
  destruct fuel as [|fuel]; [discriminate|]. intros H.
  apply to_representation_inv in H as (p & a & rs & _ & _ & HF & ->). simpl.
  induction HF as [|r y rs' ys Hy _ IH]; simpl; [reflexivity|].
  apply to_representation_id in Hy as (-> & _). now rewrite IH.
Qed.

(** Everything written out below [c] is a stored row that has a node of
    its own, less deep than that of [c], and whose parent is [c] or is
    written out below [c] as well. *)
Lemma below_rows (db : Store) :
  forall fuel c n, CommentSerializer_to_representation fuel db c = Ok n ->
  forall x, In x (flat_map subtree_ids (CommentData.replies n)) ->
  exists row m fuel' p,
    In row (Comment_objects db) /\ Comment.id row = x
    /\ CommentSerializer_to_representation fuel' db row = Ok m
    /\ fuel' <= fuel /\ depth m < depth n
    /\ Comment.parent row = Some p
    /\ (p = Comment.id c \/ In p (flat_map subtree_ids (CommentData.replies n))).
Proof.
  induction fuel as [|fuel IH]; intros c n H x Hx; [discriminate|].
  apply to_representation_inv in H as (p & a & rs & _ & _ & HF & ->).
  cbn [CommentData.replies] in *.
  apply in_flat_map in Hx as (y & Hy & Hxy).
  destruct (Forall2_In_r _ _ _ _ HF Hy) as (r & Hr & Hry).
  assert (Hdepth : depth y < depth (CommentData.mk (Comment.id c) (Post.title p)
                      (Comment.content c) (User.username a) (Comment.parent c)
                      (Comment.created_at c) (Comment.updated_at c) rs))
    by (apply depth_reply; exact Hy).
  destruct (to_representation_id db fuel r y Hry) as (Hid & _).
  rewrite subtree_ids_eq in Hxy. destruct Hxy as [Hxy|Hxy].
  - apply Comment_replies_In in Hr as [Hin Hpar].
    exists r, y, fuel, (Comment.id c).
    repeat split; auto; congruence.
  - destruct (IH r y Hry x Hxy) as (row & m & fuel' & q & Hin & Hrow & Hm & Hle & Hd & Hq & Hqin).
    exists row, m, fuel', q. repeat split; auto; try lia.
    right. apply in_flat_map. exists y. split; [exact Hy|].
    rewrite subtree_ids_eq. destruct Hqin as [->|Hqin]; [left; congruence | now right].
Qed.

(** A comment for which the serializer returns is not written out
    below itself. *)
Lemma not_below_itself (db : Store) (fuel : nat) (c : Comment.t) (n : CommentData.t) :
  pk_unique db -> In c (Comment_objects db) ->
  CommentSerializer_to_representation fuel db c = Ok n ->
  ~ In (Comment.id c) (flat_map subtree_ids (CommentData.replies n)).
Proof.
  intros Hu Hc H Hin.
  destruct (below_rows db fuel c n H _ Hin)
    as (row & m & fuel' & q & Hrow & Hid & Hm & Hle & Hd & _).
  assert (row = c) by (eapply NoDup_map_inj; eauto). subst row.
  assert (Hm' : CommentSerializer_to_representation fuel db c = Ok m)
    by (eapply to_representation_fuel; eassumption).
  assert (m = n) by congruence. subst m. lia.
Qed.

Lemma count_occ_flat_map_subtree (x : nat) (rs : list CommentData.t) :
  (forall y, In y rs -> ~ In x (flat_map subtree_ids (CommentData.replies y))) ->
  count_occ Nat.eq_dec (flat_map subtree_ids rs) x
  = count_occ Nat.eq_dec (map CommentData.id rs) x.
Proof.
  induction rs as [|y ys IH]; intros H; [reflexivity|].
  cbn [flat_map map]. rewrite count_occ_app, subtree_ids_eq.
  rewrite IH by (intros; apply H; now right).
  assert (H0 : count_occ Nat.eq_dec
                 (flat_map subtree_ids (CommentData.replies y)) x = 0).
  { apply count_occ_not_In. apply H. now left. }
  simpl. destruct (Nat.eq_dec (CommentData.id y) x); lia.
Qed.

(** C1, the part on keys: a stored reply to [c] is written out once
    among the replies of [c] and nowhere else below [c]. *)
Lemma reply_once (db : Store) (fuel : nat) (c d : Comment.t) (n : CommentData.t) :
  pk_unique db -> In c (Comment_objects db) ->
  CommentSerializer_to_representation fuel db c = Ok n ->
  In d (Comment_objects db) -> Comment.parent d = Some (Comment.id c) ->
  count_occ Nat.eq_dec (map CommentData.id (CommentData.replies n)) (Comment.id d) = 1
  /\ count_occ Nat.eq_dec (subtree_ids n) (Comment.id d) = 1.
Proof.
  intros Hu Hc H Hd Hpar.
  assert (Hrep : In d (Comment_replies db c)) by now apply Comment_replies_In.
  pose proof (not_below_itself db fuel c n Hu Hc H) as Hacyclic.
  assert (Hids : In (Comment.id d) (map CommentData.id (CommentData.replies n)))
    by (rewrite (replies_ids db fuel c n H); now apply in_map).
  assert (Hsub : forall y, In y (CommentData.replies n) ->
                   forall x, In x (subtree_ids y) ->
                   In x (flat_map subtree_ids (CommentData.replies n)))
    by (intros y Hy x Hx; apply in_flat_map; eauto).
  assert (H1 : count_occ Nat.eq_dec (map CommentData.id (CommentData.replies n))
                 (Comment.id d) = 1).
  { rewrite (replies_ids db fuel c n H).
    assert (Hnd : NoDup (map Comment.id (Comment_replies db c)))
      by (unfold Comment_replies; now apply NoDup_map_filter).
    rewrite (NoDup_count_occ' Nat.eq_dec) in Hnd. apply Hnd. now apply in_map. }
  split; [exact H1|].
  rewrite subtree_ids_eq. cbn [count_occ].
  destruct (to_representation_id db fuel c n H) as (Hid & _). rewrite Hid.
  destruct (Nat.eq_dec (Comment.id c) (Comment.id d)) as [E|_].
  { exfalso. apply Hacyclic. rewrite E.
    apply in_map_iff in Hids as (y & Hy & Hyin).
    apply (Hsub y Hyin). rewrite subtree_ids_eq. now left. }
  rewrite count_occ_flat_map_subtree; [exact H1|].
  intros y Hy Hx.
  destruct fuel as [|fuel]; [discriminate|].
  pose proof H as H'.
  apply to_representation_inv in H' as (p & a & rs & _ & _ & HF & E).
  assert (Hy' : In y rs) by (rewrite E in Hy; exact Hy).
  destruct (Forall2_In_r _ _ _ _ HF Hy') as (r & Hr & Hry).
  destruct (below_rows db fuel r y Hry _ Hx)
    as (row & m & fuel' & q & Hrow & Hrowid & _ & _ & _ & Hq & Hqin).
  assert (row = d) by (eapply NoDup_map_inj; eauto).
  subst row. rewrite Hpar in Hq. injection Hq as <-.
  apply Hacyclic. apply (Hsub y Hy). rewrite subtree_ids_eq.
  destruct (to_representation_id db fuel r y Hry) as (Hyid & _).
  destruct Hqin as [->|Hqin]; [left; congruence | now right].
Qed.

(** Conditions on a store written out in full are settled by running
    through its rows. *)
Ltac rows :=
  repeat match goal with
         | |- NoDup _ => constructor
         | |- Forall _ _ => constructor
         | |- StronglySorted _ _ => constructor
         | |- _ /\ _ => split
         | |- ~ In _ _ => simpl; intuition (try discriminate; try lia)
         | |- forall _, _ => intro
         | |- exists _, _ = Ok _ => eexists; reflexivity
         | H : Comment.parent _ = Some _ |- _ => cbv in H
         | H : Some _ = Some _ |- _ => injection H as <-
         | H : None = Some _ |- _ => discriminate H
         | |- _ < _ => simpl; lia
         | |- In _ _ => simpl; tauto
         end.

Lemma thread_store_ok :
  pk_unique thread_store /\ pk_sorted thread_store
  /\ parents_first thread_store /\ keys_resolve thread_store.
Proof.
  unfold pk_unique, pk_sorted, parents_first, keys_resolve; simpl. rows.
Qed.




(** The spec's scenario: serializing the first comment nests the reply,
    and the reply nests its own reply. *)
Example thread_first_comment :
  CommentSerializer_data thread_store first_comment
  = Ok (CommentData.mk 1 "Intro" "First" "alice" None 20 20
          [CommentData.mk 2 "Intro" "Reply" "bob" (Some 1) 21 21
             [CommentData.mk 3 "Intro" "Reply to reply" "alice" (Some 2) 22 22 []];
           CommentData.mk 4 "Intro" "Another reply" "bob" (Some 1) 23 23 []]).
Proof. reflexivity. Qed.

(* ------------------------------------------------------------------ *)
(** ** Termination and depth *)

Lemma nested_depth (chain : list Comment.t) :
  forall n, nested n chain -> List.length chain < depth n.
Proof.
  induction chain as [|c rest IH]; intros n H; simpl.
  - rewrite depth_eq; lia.
  - destruct H as (r & Hr & _ & _ & Hrest).
    pose proof (IH r Hrest). pose proof (depth_reply n r Hr). lia.
Qed.

(** Every chain of stored replies below [c] is written out, level by
    level, in whatever the serializer returns for [c]. *)
Lemma nested_chain (db : Store) (chain : list Comment.t) :
  forall fuel c n,
    CommentSerializer_to_representation fuel db c = Ok n ->
    reply_chain db c chain -> nested n chain.
Proof.
  induction chain as [|r rest IH]; intros fuel c n H Hchain; simpl; [exact I|].
  destruct Hchain as (Hin & Hpar & Hrest).
  destruct fuel as [|fuel]; [discriminate|].
  apply to_representation_inv in H as (p & a & rs & _ & _ & HF & ->). simpl.
  assert (Hr : In r (Comment_replies db c)) by now apply Comment_replies_In.
  destruct (Forall2_In_l _ _ _ _ HF Hr) as (y & Hy & Hry).
  exists y. destruct (to_representation_id db fuel r y Hry) as (Hid & Hcontent & _).
  repeat split; try assumption.
  exact (IH fuel r y Hry Hrest).
Qed.

Lemma full_depth (db : Store) (fuel : nat) (c : Comment.t) (n : CommentData.t) :
  CommentSerializer_to_representation fuel db c = Ok n ->
  forall chain, reply_chain db c chain ->
                nested n chain /\ List.length chain < depth n.
Proof.
  intros Hn chain Hchain.
  pose proof (nested_chain db chain _ c n Hn Hchain) as Hnested.
  split; [exact Hnested | now apply nested_depth].
Qed.

(** C2, as the code has it.  In a store where every comment's parent
    was created strictly before it (and foreign keys resolve), the
    recursion over the replies of a stored comment is well founded: any
    depth allowance beyond the number of later rows gives one and the
    same node, which contains every chain of replies below the comment
    at full length.  The serializer as the views call it returns that
    node when no chain of replies below the comment has more levels
    than the interpreter allows, three levels being well within that,
    and ends with [RecursionError] when a chain is longer. *)
Theorem serialization_terminates_full_depth (db : Store) (c : Comment.t) :
  parents_first db -> keys_resolve db -> In c (Comment_objects db) ->
  (exists n,
      (forall fuel, later db c < fuel ->
                    CommentSerializer_to_representation fuel db c = Ok n)
      /\ (forall chain, reply_chain db c chain ->
                        nested n chain /\ List.length chain < depth n)
      /\ ((forall chain, reply_chain db c chain ->
                         List.length chain <= max_nested_replies) ->
          CommentSerializer_data db c = Ok n))
  /\ (forall chain, reply_chain db c chain ->
                    max_nested_replies < List.length chain ->
                    CommentSerializer_data db c = Raise RecursionError)
  /\ 2 <= max_nested_replies.
Proof.
  intros Hpf Hk Hin. split; [|split].
  - destruct (to_representation_total db Hk (S (later db c)) c Hin) as [n Hn].
    { intros chain Hchain. pose proof (chain_later db Hpf chain c Hchain). lia. }
    exists n. split; [|split].
    + intros fuel Hfuel.
      apply (to_representation_fuel db (S (later db c)) fuel c n); [lia | exact Hn].
    + exact (full_depth db _ c n Hn).
    + intros Hchains. destruct (data_total db c Hk Hin Hchains) as [m Hm].
      rewrite Hm. f_equal. rewrite CommentSerializer_data_eq in Hm.
      destruct (Nat.le_ge_cases (S (later db c)) (S max_nested_replies)) as [Hle|Hge].
      * pose proof (to_representation_fuel db _ _ c n Hle Hn). congruence.
      * pose proof (to_representation_fuel db _ _ c m Hge Hm). congruence.
  - intros chain Hchain Hlong. exact (data_too_deep db c chain Hk Hin Hchain Hlong).
  - unfold max_nested_replies. lia.
Qed.

Lemma serialization_terminates_full_depth_witness :
  exists n,
    (forall fuel, later thread_store first_comment < fuel ->
                  CommentSerializer_to_representation fuel thread_store first_comment = Ok n)
    /\ (forall chain, reply_chain thread_store first_comment chain ->
                      nested n chain /\ List.length chain < depth n)
    /\ CommentSerializer_data thread_store first_comment = Ok n.
Proof.
  destruct (serialization_terminates_full_depth thread_store first_comment)
    as ((n & Hfuel & Hfull & Hdata) & _).
  - unfold parents_first; simpl; rows.
  - unfold keys_resolve; simpl; rows.
  - simpl; tauto.
  - exists n. split; [exact Hfuel|]. split; [exact Hfull|].
    apply Hdata. intros chain Hchain.
    pose proof (chain_later thread_store (proj1 (proj2 (proj2 thread_store_ok)))
                  chain first_comment Hchain) as Hlen.
    cbv [later] in Hlen; simpl in Hlen. unfold max_nested_replies. lia.
Defined.

Lemma long_thread_ok (n : nat) :
  pk_unique (long_thread n) /\ parents_first (long_thread n)
  /\ keys_resolve (long_thread n).
Proof.
  unfold pk_unique, parents_first, keys_resolve, long_thread.
  cbn [Comment_objects]. split; [|split].
  - rewrite map_map, (map_ext _ S) by reflexivity.
    rewrite seq_shift. apply seq_NoDup.
  - apply Forall_forall. intros c Hc. apply in_map_iff in Hc as (i & <- & _).
    destruct i as [|i]; simpl; intros p [= <-]; lia.
  - apply Forall_forall. intros c Hc. apply in_map_iff in Hc as (i & <- & _).
    split; eexists; reflexivity.
Qed.

Lemma long_thread_chain (n : nat) :
  forall k i, i + k <= n ->
  reply_chain (long_thread n) (nth_reply i) (map nth_reply (seq (S i) k)).
Proof.
  induction k as [|k IH]; intros i Hik; cbn [seq map reply_chain]; [exact I|].
  split; [|split].
  - unfold long_thread; cbn [Comment_objects]. apply in_map, in_seq. lia.
  - reflexivity.
  - apply IH. lia.
Qed.

(** C2, where it fails.  A comment, a reply to it, a reply to the reply
    and so on, 163 replies in all, each created after its parent: the
    serializer does not reproduce the thread but ends with
    [RecursionError], and reading the first comment is answered 500.
    With one reply less the thread is written out at its full depth. *)
Lemma long_thread_not_written_out :
  parents_first (long_thread 163) /\ keys_resolve (long_thread 163)
  /\ In (nth_reply 0) (Comment_objects (long_thread 163))
  /\ reply_chain (long_thread 163) (nth_reply 0) (map nth_reply (seq 1 163))
  /\ CommentSerializer_data (long_thread 163) (nth_reply 0) = Raise RecursionError
  /\ dispatch CommentViewSet (ticking 30) (long_thread 163)
       (mkRequest GET None (Some 1) no_query no_comment)
     = (HTTP_500_INTERNAL_SERVER_ERROR RecursionError, long_thread 163)
  /\ (exists n, CommentSerializer_data (long_thread 162) (nth_reply 0) = Ok n
                /\ depth n = 163).
Proof.
  destruct (long_thread_ok 163) as (_ & Hpf & Hk).
  split; [exact Hpf|]. split; [exact Hk|].
  split; [simpl; tauto|].
  split; [apply (long_thread_chain 163 163 0); lia|].
  split; [vm_compute; reflexivity|].
  split; [vm_compute; reflexivity|].
  eexists. split; vm_compute; reflexivity.
Qed.

(** Three levels: root, reply, reply to the reply. *)
Example thread_three_levels :
  reply_chain thread_store first_comment [first_reply; second_reply]
  /\ forall n, CommentSerializer_data thread_store first_comment = Ok n -> depth n = 3.
Proof.
  split.
  - simpl; tauto.
  - intros n H. rewrite thread_first_comment in H. injection H as <-. reflexivity.
Qed.

(** Without the condition the recursion need not end: a comment that is
    its own parent exhausts every depth. *)
Example self_parent_never_returns :
  let c := Comment.mk 1 1 "First" 1 (Some 1) 20 20 in
  let db := mkStore [alice] [] [] [intro] [c] 1 1 2 2 in
  forall fuel, CommentSerializer_to_representation fuel db c = Raise RecursionError.
Proof.
  intros c db. induction fuel as [|fuel IH]; [reflexivity|].
  rewrite to_representation_S. cbn - [CommentSerializer_to_representation].
  fold c db. rewrite IH. reflexivity.
Qed.

(* ------------------------------------------------------------------ *)
(** ** Keys in order *)

Lemma StronglySorted_map_filter {A : Type} (f : A -> nat) (p : A -> bool) (l : list A) :
  StronglySorted lt (map f l) -> StronglySorted lt (map f (filter p l)).
Proof.
  induction l as [|x xs IH]; simpl; intros H; [constructor|].
  apply StronglySorted_inv in H as [Hxs Hx].
  destruct (p x); simpl; [constructor|]; auto.
  rewrite Forall_forall in *. intros k Hk.
  apply in_map_iff in Hk as (y & <- & Hy). apply filter_In in Hy as [Hy _].
  apply Hx. now apply in_map.
Qed.

Lemma StronglySorted_NoDup (l : list nat) : StronglySorted lt l -> NoDup l.
Proof.
  induction 1 as [|x xs _ IH Hx]; constructor; [|exact IH].
  intros Hin. rewrite Forall_forall in Hx. specialize (Hx x Hin). lia.
Qed.

Lemma pk_sorted_unique (db : Store) : pk_sorted db -> pk_unique db.
Proof. intros [H _]. now apply StronglySorted_NoDup. Qed.

(* ------------------------------------------------------------------ *)
(** ** Cascading deletion *)

Lemma mem_In (n : nat) (l : list nat) : mem n l = true <-> In n l.
Proof.
  unfold mem. rewrite existsb_exists. split.
  - intros (x & Hx & E). apply Nat.eqb_eq in E. now subst.
  - intros H. exists n. split; [exact H | apply Nat.eqb_refl].
Qed.

Lemma mem_false (n : nat) (l : list nat) : mem n l = false <-> ~ In n l.
Proof.
  rewrite <- mem_In. destruct (mem n l); split; try discriminate; auto.
  intros H; now contradiction H.
Qed.

Lemma collect_seen (rows : list Comment.t) :
  forall fuel seen objs x, In x seen -> In x (collect fuel rows seen objs).
Proof.
  induction fuel as [|fuel IH]; intros seen objs x Hx; simpl; [exact Hx|].
  destruct (filter _ (nodup Nat.eq_dec objs)) as [|n new]; [exact Hx|].
  apply IH. apply in_or_app. now left.
Qed.

Lemma collect_objs (rows : list Comment.t) :
  forall fuel seen objs x, In x objs -> In x (collect (S fuel) rows seen objs).
Proof.
  intros fuel seen objs x Hx. simpl.
  destruct (mem x seen) eqn:Hseen.
  - apply mem_In in Hseen.
    destruct (filter _ (nodup Nat.eq_dec objs)) as [|n new]; [exact Hseen|].
    apply collect_seen. apply in_or_app. now left.
  - assert (Hnew : In x (filter (fun i => negb (mem i seen)) (nodup Nat.eq_dec objs))).
    { apply filter_In. split; [now apply nodup_In | now rewrite Hseen]. }
    destruct (filter _ (nodup Nat.eq_dec objs)) as [|n new]; [contradiction|].
    apply collect_seen. apply in_or_app. now right.
Qed.

(** The collector ends on a set that holds the replies of all its
    members, provided its rounds are not cut short: every round but the
    last adds the key of a row not seen before. *)
Lemma collect_closed (rows : list Comment.t) :
  forall fuel seen objs,
    (forall r p, In r rows -> Comment.parent r = Some p -> In p seen ->
                 In (Comment.id r) seen \/ In (Comment.id r) objs) ->
    (forall x, In x objs -> In x (map Comment.id rows)) ->
    List.length (filter (fun r => negb (mem (Comment.id r) seen)) rows) <= fuel ->
    closed rows (collect fuel rows seen objs).
Proof.
  induction fuel as [|fuel IH]; intros seen objs Hinv Hobjs Hfuel.
  - simpl. intros r p Hr _ _.
    apply mem_In. destruct (mem (Comment.id r) seen) eqn:E; [reflexivity|].
    assert (Hin : In r (filter (fun r => negb (mem (Comment.id r) seen)) rows))
      by (apply filter_In; split; [exact Hr | now rewrite E]).
    destruct (filter _ rows); [contradiction | simpl in Hfuel; lia].
  - cbn [collect].
    destruct (filter (fun i => negb (mem i seen)) (nodup Nat.eq_dec objs))
      as [|n new] eqn:Enew.
    + intros r p Hr Hp Hps.
      destruct (Hinv r p Hr Hp Hps) as [H|H]; [exact H|].
      apply mem_In. destruct (mem (Comment.id r) seen) eqn:E; [reflexivity|].
      assert (Hin : In (Comment.id r)
                      (filter (fun i => negb (mem i seen)) (nodup Nat.eq_dec objs)))
        by (apply filter_In; split; [now apply nodup_In | now rewrite E]).
      rewrite Enew in Hin. contradiction.
    + assert (Hn : In n (filter (fun i => negb (mem i seen)) (nodup Nat.eq_dec objs)))
        by (rewrite Enew; now left).
      apply filter_In in Hn as [Hn Hnseen]. apply nodup_In in Hn.
      apply negb_true_iff in Hnseen.
      apply IH.
      * intros r p Hr Hp Hps. apply in_app_or in Hps as [Hps|Hps].
        -- destruct (Hinv r p Hr Hp Hps) as [H|H].
           ++ left. apply in_or_app. now left.
           ++ left. apply in_or_app.
              destruct (mem (Comment.id r) seen) eqn:E.
              ** left. now apply mem_In.
              ** right. rewrite <- Enew. apply filter_In.
                 split; [now apply nodup_In | now rewrite E].
        -- right. apply in_map. apply filter_In. split; [exact Hr|].
           cbv beta. rewrite Hp. now apply mem_In.
      * intros x Hx. apply in_map_iff in Hx as (r & <- & Hr).
        apply filter_In in Hr as [Hr _]. now apply in_map.
      * apply Hobjs in Hn. apply in_map_iff in Hn as (d & Hd & Hdrows).
        assert (Hlt : List.length
                        (filter (fun r => negb (mem (Comment.id r) (seen ++ n :: new))) rows)
                      < List.length
                          (filter (fun r => negb (mem (Comment.id r) seen)) rows)).
        { apply filter_length_lt with (d := d).
          - intros x Hx. apply negb_true_iff in Hx. apply negb_true_iff.
            apply mem_false in Hx. apply mem_false. intros H. apply Hx.
            apply in_or_app. now left.
          - exact Hdrows.
          - now rewrite Hd, Hnseen.
          - apply negb_false_iff. apply mem_In. rewrite Hd.
            apply in_or_app. right. now left. }
        lia.
Qed.

Lemma collected_closed (db : Store) (objs : list nat) :
  closed (Comment_objects db) (collected db objs).
Proof.
  unfold collected. cbn [collect].
  change (filter (fun i => negb (mem i [])) (nodup Nat.eq_dec objs))
    with (filter (fun _ : nat => true) (nodup Nat.eq_dec objs)).
  destruct (filter (fun _ : nat => true) (nodup Nat.eq_dec objs)) as [|n new].
  - intros r p _ _ [].
  - apply collect_closed.
    + intros r p Hr Hp Hps. right. apply in_map. apply filter_In.
      split; [exact Hr|]. cbv beta. rewrite Hp. now apply mem_In.
    + intros x Hx. apply in_map_iff in Hx as (r & <- & Hr).
      apply filter_In in Hr as [Hr _]. now apply in_map.
    + apply filter_length_le.
Qed.

Lemma collected_objs (db : Store) (objs : list nat) (x : nat) :
  In x objs -> In x (collected db objs).
Proof. apply collect_objs. Qed.

Lemma collected_descends (db : Store) (objs : list nat) (a : nat) (c : Comment.t) :
  In a (collected db objs) -> descends (Comment_objects db) a c ->
  In (Comment.id c) (collected db objs).
Proof.
  intros Ha. induction 1 as [c Hc Hp | c b Hc Hp _ IH].
  - exact (collected_closed db objs c a Hc Hp Ha).
  - exact (collected_closed db objs c (Comment.id b) Hc Hp IH).
Qed.

Lemma delete_comments_In (db : Store) (objs : list nat) (r : Comment.t) :
  In r (delete_comments db objs) <->
  In r (Comment_objects db) /\ ~ In (Comment.id r) (collected db objs).
Proof.
  unfold delete_comments. rewrite filter_In, negb_true_iff, mem_false. reflexivity.
Qed.



(** The spec's scenario, run: deleting the post empties the comment
    table; deleting the first reply takes its own reply with it and
    leaves the rest. *)
Example thread_delete_post :
  Comment_objects (Post_delete thread_store intro) = []
  /\ Post_objects (Post_delete thread_store intro) = [].
Proof. split; reflexivity. Qed.

Example thread_delete_reply :
  Comment_objects (Comment_delete thread_store first_reply)
  = [first_comment; late_reply].
Proof. reflexivity. Qed.

(** A thread too deep for the collector is not deleted at all: with 480
    replies below the first comment the author's DELETE is answered 500
    and every row is still there; with one reply less the whole thread
    goes. *)
Example long_thread_delete :
  let delete_first := mkRequest DELETE (Some alice) (Some 1) no_query no_comment in
  dispatch CommentViewSet (ticking 30) (long_thread 480) delete_first
  = (HTTP_500_INTERNAL_SERVER_ERROR RecursionError, long_thread 480)
  /\ fst (dispatch CommentViewSet (ticking 30) (long_thread 479) delete_first)
     = HTTP_204_NO_CONTENT
  /\ Comment_objects
       (snd (dispatch CommentViewSet (ticking 30) (long_thread 479) delete_first))
     = [].
Proof.
  intros delete_first.
  split; [vm_compute; reflexivity|]. split; vm_compute; reflexivity.
Qed.

(* ------------------------------------------------------------------ *)
(** ** The author-only permission *)

Ltac unfold_view :=
  unfold dispatch, ListModelMixin_list, CreateModelMixin_create,
    RetrieveModelMixin_retrieve, UpdateModelMixin_update,
    DestroyModelMixin_destroy, get_object, respond,
    check_permissions, check_object_permissions.

(** Case analysis on everything a request handler branches on. *)
Ltac branches :=
  repeat match goal with
         | |- context [match ?x with _ => _ end] => destruct x eqn:?
         | |- context [if ?b then _ else _] => destruct b eqn:?
         end.

(** When the object check passes, looking an object up never ends in
    403. *)
Lemma get_object_permitted {Obj Body Data V : Type}
    (view : ModelViewSet Obj Body Data V) (db : Store) (request : Request Body)
    (k : nat) (r : Response Data) :
  (forall obj, check_object_permissions view request obj = true) ->
  get_object view db request k = inl r -> r <> HTTP_403_FORBIDDEN.
Proof.
  intros Ho. unfold get_object.
  destruct (get _ _) as [obj|e].
  - rewrite Ho. discriminate.
  - destruct e; intros [= <-]; discriminate.
Qed.

Section Guarded.
Context {Obj Body Data V : Type} `{HasAuthor Obj}.
Variable view : ModelViewSet Obj Body Data V.
Hypothesis guarded : permission_classes view = [IsAuthorOrReadOnly Obj].

Lemma guarded_safe (now : Clock) (db : Store) (request : Request Body) :
is_safe (method request) = true ->
check_permissions view request = true
/\ (forall obj, check_object_permissions view request obj = true)
/\ fst (dispatch view now db request) <> HTTP_403_FORBIDDEN.
Proof.
intros Hsafe.
assert (Hp : check_permissions view request = true)
by (unfold check_permissions; rewrite guarded; simpl; now rewrite Hsafe).
assert (Ho : forall obj, check_object_permissions view request obj = true)
by (intros obj; unfold check_object_permissions; rewrite guarded; simpl;
now rewrite Hsafe).
repeat split; try assumption.
unfold dispatch. rewrite Hp. cbn [negb].
unfold ListModelMixin_list, RetrieveModelMixin_retrieve, get_object, respond.
destruct (method request); try discriminate Hsafe;
branches; simpl; try discriminate;
eapply get_object_permitted; eassumption.
Qed.

Lemma guarded_anonymous (now : Clock) (db : Store) (request : Request Body) :
is_safe (method request) = false -> user request = None ->
dispatch view now db request = (HTTP_403_FORBIDDEN, db).
Proof.
intros Hsafe Hanon. unfold dispatch, check_permissions.
rewrite guarded. simpl. rewrite Hsafe, Hanon. reflexivity.
Qed.

Lemma guarded_not_author (now : Clock) (db : Store) (request : Request Body)
(k : nat) (u : User.t) (obj : Obj) :
In (method request) [PUT; PATCH; DELETE] ->
pk request = Some k -> user request = Some u ->
get (fun o => lookup_field view o =? k)
(get_queryset view db (query_params request)) = Ok obj ->
author_of obj <> User.id u ->
dispatch view now db request = (HTTP_403_FORBIDDEN, db).
Proof.
intros Hm Hk Hu Hget Hauthor.
assert (Hsafe : is_safe (method request) = false)
by (destruct Hm as [<-|[<-|[<-|[]]]]; reflexivity).
assert (Ho : check_object_permissions view request obj = false).
{ unfold check_object_permissions. rewrite guarded. simpl.
rewrite Hsafe, Hu. apply Nat.eqb_neq in Hauthor. now rewrite Hauthor. }
unfold dispatch, check_permissions. rewrite guarded. simpl.
rewrite Hsafe, Hu, Hk. simpl.
unfold UpdateModelMixin_update, DestroyModelMixin_destroy, get_object.
rewrite Hget, Ho.
destruct Hm as [<-|[<-|[<-|[]]]]; reflexivity.
Qed.

Lemma guarded_author_only : author_only view.
Proof.
intros now db request. split; [|split].
- apply guarded_safe.
- apply guarded_anonymous.
- intros k u obj. apply guarded_not_author.
Qed.

End Guarded.



(** The spec's scenario, run: the author's change of title is stored,
    and an anonymous reader gets the post. *)
Example thread_retitle_by_author :
  exists d db',
    dispatch PostViewSet (ticking 30) thread_store (retitle (Some alice))
    = (HTTP_200_OK (Detail d), db')
    /\ PostData.title d = "Forbidden Update"
    /\ map Post.title (Post_objects db') = ["Forbidden Update"]
    /\ map Post.updated_at (Post_objects db') = [30].
Proof. do 2 eexists. split; [reflexivity|]. repeat split. Qed.

Example thread_read_anonymous :
  exists d,
    dispatch PostViewSet (ticking 30) thread_store
      (mkRequest GET None (Some 1) no_query no_post)
    = (HTTP_200_OK (Detail d), thread_store).
Proof. eexists. reflexivity. Qed.

(* ------------------------------------------------------------------ *)
(** ** Categories and tags *)

Section Open.
Context {Obj Body Data V : Type}.
Variable view : ModelViewSet Obj Body Data V.
Hypothesis unguarded : permission_classes view = [AllowAny Obj].

Lemma unguarded_open : open_to_all view.
Proof.
intros now db request.
assert (Hp : check_permissions view request = true)
by (unfold check_permissions; rewrite unguarded; reflexivity).
assert (Ho : forall obj, check_object_permissions view request obj = true)
by (intros obj; unfold check_object_permissions; rewrite unguarded; reflexivity).
repeat split; try assumption.
unfold dispatch. rewrite Hp. cbn [negb].
unfold ListModelMixin_list, CreateModelMixin_create,
RetrieveModelMixin_retrieve, UpdateModelMixin_update,
DestroyModelMixin_destroy, respond.
branches; simpl; try discriminate;
eapply get_object_permitted; eassumption.
Qed.

End Open.

(** C10. The category and tag view sets name no permission class and
    so get the default one, which lets everything pass; the author-only
    permission is the one of the post and comment view sets.  No request
    to a category or tag endpoint is answered 403, whoever sends it, and
    an anonymous caller creates, renames and deletes a category and a
    tag of the small store. *)
Theorem category_and_tag_open :
  permission_classes CategoryViewSet = [AllowAny Category.t]
  /\ permission_classes TagViewSet = [AllowAny Tag.t]
  /\ permission_classes PostViewSet = [IsAuthorOrReadOnly Post.t]
  /\ permission_classes CommentViewSet = [IsAuthorOrReadOnly Comment.t]
  /\ open_to_all CategoryViewSet
  /\ open_to_all TagViewSet
  /\ (exists db',
        dispatch CategoryViewSet (ticking 30) thread_store
          (anonymous_named POST None (Value "Science"))
        = (HTTP_201_CREATED (Category.mk 2 "Science"), db')
        /\ Category_objects db' = [Category.mk 1 "Tech"; Category.mk 2 "Science"])
  /\ (exists db',
        dispatch CategoryViewSet (ticking 30) thread_store
          (anonymous_named PATCH (Some 1) (Value "Science"))
        = (HTTP_200_OK (Detail (Category.mk 1 "Science")), db')
        /\ Category_objects db' = [Category.mk 1 "Science"])
  /\ (exists db',
        dispatch CategoryViewSet (ticking 30) thread_store
          (anonymous_named DELETE (Some 1) Absent)
        = (HTTP_204_NO_CONTENT, db')
        /\ Category_objects db' = []
        /\ map Post.category (Post_objects db') = [None])
  /\ (exists db',
        dispatch TagViewSet (ticking 30) thread_store
          (anonymous_named POST None (Value "Opinion"))
        = (HTTP_201_CREATED (Tag.mk 2 "Opinion"), db')
        /\ Tag_objects db' = [Tag.mk 1 "News"; Tag.mk 2 "Opinion"])
  /\ (exists db',
        dispatch TagViewSet (ticking 30) thread_store
          (anonymous_named PUT (Some 1) (Value "Opinion"))
        = (HTTP_200_OK (Detail (Tag.mk 1 "Opinion")), db')
        /\ Tag_objects db' = [Tag.mk 1 "Opinion"])
  /\ (exists db',
        dispatch TagViewSet (ticking 30) thread_store
          (anonymous_named DELETE (Some 1) Absent)
        = (HTTP_204_NO_CONTENT, db')
        /\ Tag_objects db' = []
        /\ map Post.tag (Post_objects db') = [[]]).
Proof.
  repeat match goal with
         | |- _ /\ _ => split
         | |- exists _, _ => eexists
         | |- open_to_all _ => apply unguarded_open
         end; reflexivity.
Qed.

(* ------------------------------------------------------------------ *)
(** ** The author of a new post or comment *)

(** What a create request of a signed-in caller does to the post table:
    nothing, or one more row, whose author is the caller. *)
Lemma create_post_cases (now : Clock) (db : Store) (request : Request PostBody.t)
    (u : User.t) (r : Response PostData.t) (db' : Store) :
  method request = POST -> pk request = None -> user request = Some u ->
  dispatch PostViewSet now db request = (r, db') ->
  (db' = db /\ forall d, r <> HTTP_201_CREATED d)
  \/ exists row, Post_objects db' = Post_objects db ++ [row]
                 /\ Post.id row = Post_seq db
                 /\ Post.author row = User.id u.
Proof.
  intros Hm Hk Hu. unfold dispatch, check_permissions.
  rewrite Hm, Hk. cbn. rewrite Hu. cbn.
  unfold CreateModelMixin_create, respond. cbn. rewrite Hu.
  destruct (PostSerializer_to_internal_value db false (data request)) as [[errors|v]|e].
  - intros [= <- <-]. left. split; [reflexivity | discriminate].
  - cbn. destruct (PostSerializer_data _ _); intros [= <- <-];
      right; eexists; repeat split.
  - intros [= <- <-]. left. split; [reflexivity | discriminate].
Qed.

Lemma create_comment_cases (now : Clock) (db : Store) (request : Request CommentBody.t)
    (u : User.t) (r : Response CommentData.t) (db' : Store) :
  method request = POST -> pk request = None -> user request = Some u ->
  dispatch CommentViewSet now db request = (r, db') ->
  (db' = db /\ forall d, r <> HTTP_201_CREATED d)
  \/ exists row, Comment_objects db' = Comment_objects db ++ [row]
                 /\ Comment.id row = Comment_seq db
                 /\ Comment.author row = User.id u.
Proof.
  intros Hm Hk Hu. unfold dispatch, check_permissions.
  rewrite Hm, Hk. cbn. rewrite Hu. cbn.
  unfold CreateModelMixin_create, respond.
  cbn [to_internal_value perform_create serializer_data CommentViewSet].
  rewrite Hu.
  destruct (CommentSerializer_to_internal_value db false (data request))
    as [[errors|v]|e].
  - intros [= <- <-]. left. split; [reflexivity | discriminate].
  - unfold save_as_author, CommentSerializer_create.
    destruct (CommentValidated.post v) as [p|].
    + destruct (CommentSerializer_data _ _); intros [= <- <-];
        right; eexists; repeat split.
    + intros [= <- <-]. left. split; [reflexivity | discriminate].
  - intros [= <- <-]. left. split; [reflexivity | discriminate].
Qed.

(** C3. When a create request of a signed-in caller is answered 201,
    one row has been added to the table and its author is the caller;
    and whatever the request carries under the key [author] makes no
    difference to the answer or to the store, for posts and for
    comments. *)
Theorem author_is_caller :
  (forall now db (request : Request PostBody.t) u d db',
      method request = POST -> pk request = None -> user request = Some u ->
      dispatch PostViewSet now db request = (HTTP_201_CREATED d, db') ->
      exists row, Post_objects db' = Post_objects db ++ [row]
                  /\ Post.author row = User.id u)
  /\ (forall now db (request : Request PostBody.t) a,
        dispatch PostViewSet now db
          (with_data request (PostBody_with_author a (data request)))
        = dispatch PostViewSet now db request)
  /\ (forall now db (request : Request CommentBody.t) u d db',
        method request = POST -> pk request = None -> user request = Some u ->
        dispatch CommentViewSet now db request = (HTTP_201_CREATED d, db') ->
        exists row, Comment_objects db' = Comment_objects db ++ [row]
                    /\ Comment.author row = User.id u)
  /\ (forall now db (request : Request CommentBody.t) a,
        dispatch CommentViewSet now db
          (with_data request (CommentBody_with_author a (data request)))
        = dispatch CommentViewSet now db request).
Proof.
  split; [|split; [|split]].
  - intros now db request u d db' Hm Hk Hu H.
    destruct (create_post_cases now db request u _ db' Hm Hk Hu H)
      as [[_ Hno]|(row & Hrows & _ & Hauthor)].
    + now contradiction (Hno d).
    + exists row. auto.
  - intros now db [m u k q [t c a0 cat tg]] a. reflexivity.
  - intros now db request u d db' Hm Hk Hu H.
    destruct (create_comment_cases now db request u _ db' Hm Hk Hu H)
      as [[_ Hno]|(row & Hrows & _ & Hauthor)].
    + now contradiction (Hno d).
    + exists row. auto.
  - intros now db [m u k q [p c a0 par]] a. reflexivity.
Qed.

Lemma author_is_caller_witness :
  (exists row,
     Post_objects (snd (dispatch PostViewSet (ticking 30) thread_store spoofed_post))
     = Post_objects thread_store ++ [row]
     /\ Post.author row = User.id bob)
  /\ (exists row,
        Comment_objects (snd (dispatch CommentViewSet (ticking 30) thread_store spoofed_comment))
        = Comment_objects thread_store ++ [row]
        /\ Comment.author row = User.id bob).
Proof.
  destruct author_is_caller as (Hpost & _ & Hcomment & _).
  split.
  - eapply (Hpost (ticking 30) thread_store spoofed_post bob); reflexivity.
  - eapply (Hcomment (ticking 30) thread_store spoofed_comment bob); reflexivity.
Defined.

(** The spoofed requests, run: bob is stored and shown as the author. *)
Example thread_spoofed_comment :
  exists db',
    dispatch CommentViewSet (ticking 30) thread_store spoofed_comment
    = (HTTP_201_CREATED (CommentData.mk 5 "Intro" "Me too" "bob" None 30 31 []), db')
    /\ Comment_objects db'
       = Comment_objects thread_store ++ [Comment.mk 5 1 "Me too" 2 None 30 31].
Proof. eexists. split; reflexivity. Qed.

(* ------------------------------------------------------------------ *)
(** ** Creating comments: what is checked and what is not *)

(** A post title, a content and a parent key that each resolve are all
    that validation asks for; the post of the parent is never looked at. *)
Lemma comment_validation_accepts (db : Store) (partial : bool) (data : CommentBody.t)
    (t s : string) (k : nat) (p : Post.t) (q : Comment.t) :
  CommentBody.post data = Value t -> t <> "" ->
  get (fun x => String.eqb (Post.title x) t) (Post_objects db) = Ok p ->
  CommentBody.content data = Value s ->
  CharField partial None (fun _ => []) (Value s) = Valid (strip s) ->
  CommentBody.parent data = Value k ->
  get (fun x => Comment.id x =? k) (Comment_objects db) = Ok q ->
  CommentSerializer_to_internal_value db partial data
  = Ok (inr (CommentValidated.mk (Some p) (Some (strip s)) (Some (Some q)))).
Proof.
  intros Hpost Ht Hp Hcontent Hs Hparent Hq.
  unfold CommentSerializer_to_internal_value.
  rewrite Hpost, Hcontent, Hparent, Hs.
  unfold SlugRelatedField, PrimaryKeyRelatedField, related_get.
  apply String.eqb_neq in Ht. rewrite Ht, Hp, Hq. reflexivity.
Qed.

(** C6. There is a create request whose parent is a stored comment of
    another post than the one its title resolves to, and it is answered
    201: the new comment is stored under the one post with a parent
    under the other. *)
Theorem parent_of_another_post_accepted :
  exists (db : Store) (request : Request CommentBody.t) (now : Clock)
         (p : Post.t) (q : Comment.t) (d : CommentData.t) (db' : Store)
         (row : Comment.t),
    method request = POST
    /\ CommentBody.post (data request) = Value (Post.title p)
    /\ get (fun x => String.eqb (Post.title x) (Post.title p)) (Post_objects db) = Ok p
    /\ CommentBody.parent (data request) = Value (Comment.id q)
    /\ In q (Comment_objects db)
    /\ Comment.post q <> Post.id p
    /\ dispatch CommentViewSet now db request = (HTTP_201_CREATED d, db')
    /\ Comment_objects db' = Comment_objects db ++ [row]
    /\ Comment.post row = Post.id p
    /\ Comment.parent row = Some (Comment.id q).
Proof.
  exists two_posts_store, misfiled_reply, (ticking 30), other, first_comment.
  eexists. exists cross_post_store, misfiled.
  repeat split; try reflexivity.
  - simpl; tauto.
  - cbv; discriminate.
Qed.

(** The store this leaves behind still has keys in order, parents first
    and resolvable keys. *)
Lemma cross_post_store_ok :
  pk_sorted cross_post_store /\ parents_first cross_post_store
  /\ keys_resolve cross_post_store.
Proof.
  unfold pk_sorted, parents_first, keys_resolve; simpl. rows.
Qed.

(* ------------------------------------------------------------------ *)
(** ** Creating comments: invalid input *)

Lemma get_none {A : Type} (p : A -> bool) (qs : list A) :
  (forall x, In x qs -> p x = false) -> get p qs = Raise DoesNotExist.
Proof.
  intros H. unfold get.
  assert (E : filter p qs = []).
  { induction qs as [|x xs IH]; [reflexivity|]. simpl.
    rewrite (H x (or_introl eq_refl)). apply IH. intros; apply H; now right. }
  now rewrite E.
Qed.

Lemma filter_pk_unique {A : Type} (f : A -> nat) (k : nat) (l : list A) :
  NoDup (map f l) -> List.length (filter (fun x => f x =? k) l) <= 1.
Proof.
  induction l as [|x xs IH]; simpl; intros Hnd; [lia|].
  inversion Hnd as [|? ? Hnotin Hnd']; subst.
  destruct (f x =? k) eqn:E; [|now apply IH].
  apply Nat.eqb_eq in E. simpl.
  assert (Hnil : filter (fun y => f y =? k) xs = []).
  { destruct (filter (fun y => f y =? k) xs) as [|y ys] eqn:Ef; [reflexivity|].
    exfalso. apply Hnotin.
    assert (Hy : In y (filter (fun y => f y =? k) xs)) by (rewrite Ef; now left).
    apply filter_In in Hy as [Hy Hk]. apply Nat.eqb_eq in Hk.
    rewrite E, <- Hk. now apply in_map. }
  rewrite Hnil. simpl; lia.
Qed.

(** With unique keys the parent field raises nothing. *)
Lemma parent_field_returns (db : Store) (d : field nat) :
  pk_unique db ->
  exists o, PrimaryKeyRelatedField Comment.id (Comment_objects db) d = Ok o
            /\ (forall k, d = Value k ->
                  (forall x, In x (Comment_objects db) -> Comment.id x <> k) ->
                  exists codes, o = Invalid codes).
Proof.
  intros Hu. destruct d as [| |k]; simpl.
  - eexists; split; [reflexivity | discriminate].
  - eexists; split; [reflexivity | discriminate].
  - unfold related_get, get.
    pose proof (filter_pk_unique Comment.id k (Comment_objects db) Hu) as Hlen.
    destruct (filter (fun x => Comment.id x =? k) (Comment_objects db))
      as [|x [|y ys]] eqn:Ef; simpl in *; try lia.
    + eexists; split; [reflexivity|]. intros; eexists; reflexivity.
    + eexists; split; [reflexivity|]. intros k' [= <-] Hno.
      assert (Hx : In x (filter (fun x => Comment.id x =? k) (Comment_objects db)))
        by (rewrite Ef; now left).
      apply filter_In in Hx as [Hx Hk]. apply Nat.eqb_eq in Hk.
      now contradiction (Hno x Hx).
Qed.

Lemma post_field_returns (db : Store) (d : field string) :
  title_unambiguous db d ->
  exists o, SlugRelatedField false Post.title (Post_objects db) d = Ok o
            /\ (forall t, d = Value t ->
                  (forall x, In x (Post_objects db) -> Post.title x <> t) ->
                  exists codes, o = Invalid codes).
Proof.
  intros Hone. destruct d as [| |t]; simpl.
  - eexists; split; [reflexivity | discriminate].
  - eexists; split; [reflexivity | discriminate].
  - destruct (String.eqb t "") eqn:Et.
    + eexists; split; [reflexivity|]. intros; eexists; reflexivity.
    + unfold related_get, get. specialize (Hone t eq_refl).
      destruct (filter (fun x => String.eqb (Post.title x) t) (Post_objects db))
        as [|x [|y ys]] eqn:Ef; simpl in *; try lia.
      * eexists; split; [reflexivity|]. intros; eexists; reflexivity.
      * eexists; split; [reflexivity|]. intros t' [= <-] Hno.
        assert (Hx : In x (filter (fun x => String.eqb (Post.title x) t) (Post_objects db)))
          by (rewrite Ef; now left).
        apply filter_In in Hx as [Hx Ht]. apply String.eqb_eq in Ht.
        now contradiction (Hno x Hx).
Qed.

Lemma post_field_unknown (db : Store) (partial : bool) (t : string) :
  (forall x, In x (Post_objects db) -> Post.title x <> t) ->
  exists codes,
    SlugRelatedField partial Post.title (Post_objects db) (Value t) = Ok (Invalid codes).
Proof.
  intros Hno. simpl. destruct (String.eqb t ""); [eexists; reflexivity|].
  unfold related_get. rewrite get_none; [eexists; reflexivity|].
  intros x Hx. apply String.eqb_neq. now apply Hno.
Qed.

(** A create request of a signed-in caller whose fields raise nothing
    and are not all valid is answered 400 and stores nothing. *)
Lemma invalid_comment_400 (now : Clock) (db : Store) (request : Request CommentBody.t)
    (u : User.t) (po : outcome Post.t) (pa : outcome (option Comment.t))
    (e : string * list string) (es : ErrorDict) :
  method request = POST -> pk request = None -> user request = Some u ->
  SlugRelatedField false Post.title (Post_objects db)
    (CommentBody.post (data request)) = Ok po ->
  PrimaryKeyRelatedField Comment.id (Comment_objects db)
    (CommentBody.parent (data request)) = Ok pa ->
  field_errors "post" po
  ++ field_errors "content"
       (CharField false None (fun _ => []) (CommentBody.content (data request)))
  ++ field_errors "parent" pa = e :: es ->
  dispatch CommentViewSet now db request = (HTTP_400_BAD_REQUEST (e :: es), db).
Proof.
  intros Hm Hk Hu Hpo Hpa Herr. unfold dispatch, check_permissions.
  rewrite Hm, Hk. cbn. rewrite Hu. cbn.
  unfold CreateModelMixin_create.
  cbn [to_internal_value CommentViewSet].
  unfold CommentSerializer_to_internal_value.
  rewrite Hpo, Hpa. cbn [bind]. rewrite Herr. reflexivity.
Qed.

(** What holds of the three clauses on invalid input: an unknown title
    is always answered 400; missing or blank content and an unknown
    parent are, as long as the title submitted is not the title of two
    posts. *)
Lemma create_comment_rejects (now : Clock) (db : Store)
    (request : Request CommentBody.t) (u : User.t) :
  method request = POST -> pk request = None -> user request = Some u ->
  pk_unique db ->
  (forall t, CommentBody.post (data request) = Value t ->
     (forall x, In x (Post_objects db) -> Post.title x <> t) ->
     exists errors,
       dispatch CommentViewSet now db request = (HTTP_400_BAD_REQUEST errors, db)
       /\ In "post" (map fst errors))
  /\ (title_unambiguous db (CommentBody.post (data request)) ->
      (CommentBody.content (data request) = Absent
       \/ exists s, CommentBody.content (data request) = Value s /\ strip s = "") ->
      exists errors,
        dispatch CommentViewSet now db request = (HTTP_400_BAD_REQUEST errors, db)
        /\ In "content" (map fst errors))
  /\ (title_unambiguous db (CommentBody.post (data request)) ->
      forall k, CommentBody.parent (data request) = Value k ->
      (forall x, In x (Comment_objects db) -> Comment.id x <> k) ->
      exists errors,
        dispatch CommentViewSet now db request = (HTTP_400_BAD_REQUEST errors, db)
        /\ In "parent" (map fst errors)).
Proof.
  intros Hm Hk Hu Hpk.
  destruct (parent_field_returns db (CommentBody.parent (data request)) Hpk)
    as (pa & Hpa & Hpa_unknown).
  split; [|split].
  - intros t Ht Hno.
    destruct (post_field_unknown db false t Hno) as [codes Hpo].
    rewrite <- Ht in Hpo.
    eexists. split.
    + eapply (invalid_comment_400 now db request u _ pa); try eassumption.
      reflexivity.
    + simpl. now left.
  - intros Hone Hcontent.
    destruct (post_field_returns db _ Hone) as (po & Hpo & _).
    assert (Hc : exists codes,
               CharField false None (fun _ => []) (CommentBody.content (data request))
               = Invalid codes).
    { destruct Hcontent as [->|(s & -> & Hs)]; simpl.
      - eexists; reflexivity.
      - rewrite Hs. eexists; reflexivity. }
    destruct Hc as [codes Hc].
    destruct (field_errors "post" po
              ++ field_errors "content"
                   (CharField false None (fun _ => []) (CommentBody.content (data request)))
              ++ field_errors "parent" pa) as [|e es] eqn:Herr.
    + rewrite Hc in Herr. destruct po; discriminate Herr.
    + exists (e :: es). split.
      * exact (invalid_comment_400 now db request u po pa e es Hm Hk Hu Hpo Hpa Herr).
      * rewrite <- Herr, Hc, !map_app. apply in_or_app. right.
        apply in_or_app. left. simpl. now left.
  - intros Hone k Hparent Hno.
    destruct (post_field_returns db _ Hone) as (po & Hpo & _).
    destruct (Hpa_unknown k Hparent Hno) as [codes ->].
    destruct (field_errors "post" po
              ++ field_errors "content"
                   (CharField false None (fun _ => []) (CommentBody.content (data request)))
              ++ field_errors "parent" (@Invalid (option Comment.t) codes))
      as [|e es] eqn:Herr.
    + destruct po, (CharField false None (fun _ => []) (CommentBody.content (data request)));
        discriminate Herr.
    + exists (e :: es). split.
      * exact (invalid_comment_400 now db request u po _ e es Hm Hk Hu Hpo Hpa Herr).
      * rewrite <- Herr, !map_app. apply in_or_app. right.
        apply in_or_app. right. simpl. now left.
Qed.

(** C7, where it fails.  On a store with two posts titled "Intro", a
    comment on "Intro" with empty content, or with a parent key that no
    comment has, is not answered 400: resolving the title raises
    [MultipleObjectsReturned], which the field does not catch, and the
    request ends in a server error.  Nothing is stored.  The store is
    one that the post endpoint produces. *)
Theorem ambiguous_title_is_server_error :
  dispatch PostViewSet (ticking 30) thread_store second_intro
  = (HTTP_201_CREATED (PostData.mk 2 "Intro" "Hello again" "bob" (Some "Tech") [] 30 31),
     twin_titles_store)
  /\ dispatch CommentViewSet (ticking 31) twin_titles_store (comment_on_intro (Value "") Absent)
     = (HTTP_500_INTERNAL_SERVER_ERROR MultipleObjectsReturned, twin_titles_store)
  /\ dispatch CommentViewSet (ticking 31) twin_titles_store (comment_on_intro Absent Absent)
     = (HTTP_500_INTERNAL_SERVER_ERROR MultipleObjectsReturned, twin_titles_store)
  /\ dispatch CommentViewSet (ticking 31) twin_titles_store
       (comment_on_intro (Value "Hi") (Value 99))
     = (HTTP_500_INTERNAL_SERVER_ERROR MultipleObjectsReturned, twin_titles_store)
  /\ (forall x, In x (Comment_objects twin_titles_store) -> Comment.id x <> 99).
Proof.
  repeat split; try reflexivity.
  simpl. intros x [<-|[<-|[<-|[<-|[]]]]]; discriminate.
Qed.

(** On the store with one "Intro" the same requests are answered 400. *)
Example thread_invalid_comments :
  dispatch CommentViewSet (ticking 31) thread_store (comment_on_intro (Value "") Absent)
  = (HTTP_400_BAD_REQUEST [("content", ["blank"])], thread_store)
  /\ dispatch CommentViewSet (ticking 31) thread_store (comment_on_intro Absent Absent)
     = (HTTP_400_BAD_REQUEST [("content", ["required"])], thread_store)
  /\ dispatch CommentViewSet (ticking 31) thread_store
       (comment_on_intro (Value "Hi") (Value 99))
     = (HTTP_400_BAD_REQUEST [("parent", ["does_not_exist"])], thread_store)
  /\ dispatch CommentViewSet (ticking 31) thread_store
       (mkRequest POST (Some alice) None no_query
          (CommentBody.mk (Value "Nowhere") (Value "Hi") Absent Absent))
     = (HTTP_400_BAD_REQUEST [("post", ["does_not_exist"])], thread_store).
Proof. repeat split. Qed.

(* ------------------------------------------------------------------ *)
(** ** Listing the comments of a post *)

Lemma Forall2_firstn {A B : Type} (R : A -> B -> Prop) (n : nat) :
  forall l l', Forall2 R l l' -> Forall2 R (firstn n l) (firstn n l').
Proof.
  induction n as [|n IH]; intros l l' H; simpl; [constructor|].
  destruct H; constructor; auto.
Qed.

Lemma Forall2_skipn {A B : Type} (R : A -> B -> Prop) (n : nat) :
  forall l l', Forall2 R l l' -> Forall2 R (skipn n l) (skipn n l').
Proof.
  induction n as [|n IH]; intros l l' H; simpl; [exact H|].
  destruct H; [constructor | auto].
Qed.

Lemma Forall2_length_eq {A B : Type} (R : A -> B -> Prop) (l : list A) (l' : list B) :
  Forall2 R l l' -> List.length l = List.length l'.
Proof. induction 1; simpl; congruence. Qed.

(** A page of the listing is a window on its entries. *)
Lemma list_comments_page (now : Clock) (db : Store) (pid : nat) (page : option nat)
    (entries : list CommentData.t) :
  CommentViewSet_listing db pid = Ok entries ->
  dispatch CommentViewSet now db (list_comments pid page)
  = match paginate_queryset CommentPagination_page_size page entries with
    | Some window => (HTTP_200_OK (Page (List.length entries) window), db)
    | None => (HTTP_404_NOT_FOUND, db)
    end.
Proof.
  unfold CommentViewSet_listing. intros H. apply mapM_Ok in H.
  unfold dispatch, check_permissions. cbn.
  unfold ListModelMixin_list.
  cbn [get_queryset pagination_class serializer_data CommentViewSet
       query_params list_comments views.page post_id CommentViewSet_get_queryset].
  cbn [CommentViewSet_get_queryset post_id] in H.
  unfold paginate_queryset.
  rewrite (Forall2_length_eq _ _ _ H).
  destruct (_ || _); [reflexivity|].
  assert (Hw : mapM (CommentSerializer_data db)
                 (firstn CommentPagination_page_size
                    (skipn ((match page with Some n => n | None => 1 end - 1)
                            * CommentPagination_page_size)
                       (filter (fun c => Comment.post c =? pid) (Comment_objects db))))
               = Ok (firstn CommentPagination_page_size
                       (skipn ((match page with Some n => n | None => 1 end - 1)
                               * CommentPagination_page_size) entries))).
  { apply mapM_Ok. apply Forall2_firstn. apply Forall2_skipn. exact H. }
  rewrite Hw. reflexivity.
Qed.

(** C5, as the code has it.  Whenever the listing filtered by a post
    is produced, it has, over its pages, one entry for every comment
    stored under that post, replies included, each entry being the full
    node of its comment; a reply whose parent is stored under the same
    post is therefore in the payload as its own entry and again nested
    in the entry of its parent.  The listing is produced when foreign
    keys resolve and no chain of replies below a comment of the post has
    more levels than the interpreter allows. *)
Theorem listing_flat_and_nested (db : Store) (pid : nat) :
  (forall entries,
      CommentViewSet_listing db pid = Ok entries ->
      Forall2 (fun c e => CommentSerializer_data db c = Ok e)
        (Post_comments db pid) entries
      /\ (forall c, In c (Post_comments db pid) <->
                    In c (Comment_objects db) /\ Comment.post c = pid)
      /\ (forall r q, In r (Comment_objects db) -> Comment.post r = pid ->
                      In q (Comment_objects db) -> Comment.post q = pid ->
                      Comment.parent r = Some (Comment.id q) ->
                      shown_twice entries r)
      /\ (forall now page,
            dispatch CommentViewSet now db (list_comments pid page)
            = match paginate_queryset CommentPagination_page_size page entries with
              | Some window => (HTTP_200_OK (Page (List.length entries) window), db)
              | None => (HTTP_404_NOT_FOUND, db)
              end))
  /\ (keys_resolve db ->
      (forall c chain, In c (Comment_objects db) -> Comment.post c = pid ->
                       reply_chain db c chain ->
                       List.length chain <= max_nested_replies) ->
      exists entries, CommentViewSet_listing db pid = Ok entries).
Proof.
  assert (Hmem : forall c, In c (Post_comments db pid) <->
                           In c (Comment_objects db) /\ Comment.post c = pid).
  { intros c. unfold Post_comments. rewrite filter_In, Nat.eqb_eq. reflexivity. }
  split.
  - intros entries Hentries.
    pose proof Hentries as HF. apply mapM_Ok in HF.
    split; [exact HF|]. split; [exact Hmem|]. split.
    + intros r q Hr Hrp Hq Hqp Hpar.
      destruct (Forall2_In_l _ _ _ _ HF (proj2 (Hmem r) (conj Hr Hrp)))
        as (own & Hown & Hrown).
      destruct (Forall2_In_l _ _ _ _ HF (proj2 (Hmem q) (conj Hq Hqp)))
        as (above & Habove & Hqabove).
      exists own, above.
      destruct (to_representation_id db _ r own Hrown) as (Hid & _).
      destruct (to_representation_id db _ q above Hqabove) as (Hidq & _).
      repeat split; try assumption; [congruence|].
      rewrite CommentSerializer_data_eq in Hqabove.
      apply to_representation_inv in Hqabove as (p & a & rs & _ & _ & HFq & ->).
      simpl.
      assert (Hrq : In r (Comment_replies db q)) by now apply Comment_replies_In.
      destruct (Forall2_In_l _ _ _ _ HFq Hrq) as (y & Hy & Hry).
      apply (to_representation_data db max_nested_replies r y) in Hry; [|lia].
      assert (y = own) by congruence. now subst.
    + intros now page. now apply list_comments_page.
  - intros Hk Hchains.
    apply (mapM_total (CommentSerializer_data db) (Post_comments db pid)).
    intros c Hc. apply Hmem in Hc as [Hc Hpost]. apply data_total; try assumption.
    intros chain. now apply Hchains.
Qed.

Lemma listing_flat_and_nested_witness :
  exists entries,
    CommentViewSet_listing thread_store 1 = Ok entries
    /\ shown_twice entries first_reply
    /\ shown_twice entries second_reply.
Proof.
  destruct (listing_flat_and_nested thread_store 1) as (Hshape & Hreturns).
  destruct Hreturns as [entries Hentries].
  - unfold keys_resolve; simpl; rows.
  - intros c chain _ _ Hchain.
    pose proof (chain_later thread_store (proj1 (proj2 (proj2 thread_store_ok)))
                  chain c Hchain) as Hlen.
    pose proof (later_le_length thread_store c) as Hrows.
    simpl in Hrows. unfold max_nested_replies. lia.
  - destruct (Hshape entries Hentries) as (_ & _ & Htwice & _).
    exists entries. split; [exact Hentries|]. split.
    + apply (Htwice first_reply first_comment);
        first [reflexivity | simpl; tauto].
    + apply (Htwice second_reply first_reply);
        first [reflexivity | simpl; tauto].
Defined.

(** C5, where it fails.  The reply that bob filed under his own post is
    a reply stored under post 2; the listing of post 2 has it as its
    only entry and nests it nowhere, its parent being a comment of
    post 1. *)
Lemma cross_post_reply_shown_once :
  pk_sorted cross_post_store /\ parents_first cross_post_store
  /\ keys_resolve cross_post_store
  /\ dispatch CommentViewSet (ticking 30) two_posts_store misfiled_reply
     = (HTTP_201_CREATED (CommentData.mk 2 "Other" "Off topic" "bob" (Some 1) 30 31 []),
        cross_post_store)
  /\ CommentViewSet_listing cross_post_store 2
     = Ok [CommentData.mk 2 "Other" "Off topic" "bob" (Some 1) 30 31 []]
  /\ ~ every_reply_twice cross_post_store 2.
Proof.
  destruct cross_post_store_ok as (Hs & Hpf & Hk).
  split; [exact Hs|]. split; [exact Hpf|]. split; [exact Hk|].
  split; [reflexivity|]. split; [reflexivity|].
  intros (entries & Hentries & Hall).
  assert (E : CommentViewSet_listing cross_post_store 2
              = Ok [CommentData.mk 2 "Other" "Off topic" "bob" (Some 1) 30 31 []])
    by reflexivity.
  rewrite E in Hentries. injection Hentries as <-.
  destruct (Hall misfiled) as (own & above & _ & _ & Habove & _ & Hnest).
  - simpl; tauto.
  - reflexivity.
  - discriminate.
  - destruct Habove as [<-|[]]. exact Hnest.
Qed.

(** The spec's scenario, run: both comments of "Intro" are entries and
    the entry of the first nests the second again. *)
Example thread_listing :
  CommentViewSet_listing thread_store 1
  = Ok [CommentData.mk 1 "Intro" "First" "alice" None 20 20
          [CommentData.mk 2 "Intro" "Reply" "bob" (Some 1) 21 21
             [CommentData.mk 3 "Intro" "Reply to reply" "alice" (Some 2) 22 22 []];
           CommentData.mk 4 "Intro" "Another reply" "bob" (Some 1) 23 23 []];
        CommentData.mk 2 "Intro" "Reply" "bob" (Some 1) 21 21
          [CommentData.mk 3 "Intro" "Reply to reply" "alice" (Some 2) 22 22 []];
        CommentData.mk 3 "Intro" "Reply to reply" "alice" (Some 2) 22 22 [];
        CommentData.mk 4 "Intro" "Another reply" "bob" (Some 1) 23 23 []].
Proof. reflexivity. Qed.

(* ------------------------------------------------------------------ *)
(** ** Stores built by creating and deleting comments

    The conditions on stores used above are kept by the create and
    delete requests of the comment endpoint: keys stay in order and
    parents stay first.  A change of [parent] through an update is what
    can break the second. *)

Lemma get_In {A : Type} (p : A -> bool) (qs : list A) (x : A) :
  get p qs = Ok x -> In x qs /\ p x = true.
Proof.
  unfold get. destruct (filter p qs) as [|y [|z zs]] eqn:E; try discriminate.
  intros [= <-]. apply filter_In. rewrite E. now left.
Qed.

Lemma validated_parent_stored (db : Store) (partial : bool) (data : CommentBody.t)
    (v : CommentValidated.t) (q : Comment.t) :
  CommentSerializer_to_internal_value db partial data = Ok (inr v) ->
  CommentValidated.parent v = Some (Some q) -> In q (Comment_objects db).
Proof.
  unfold CommentSerializer_to_internal_value. intros H.
  apply bind_Ok in H as (po & _ & H). apply bind_Ok in H as (pa & Hpa & H).
  destruct (_ ++ _) in H; [|discriminate]. injection H as <-. simpl.
  unfold PrimaryKeyRelatedField in Hpa.
  destruct (CommentBody.parent data) as [| |k].
  - injection Hpa as <-. discriminate.
  - injection Hpa as <-. discriminate.
  - apply bind_Ok in Hpa as (o & Ho & Hpa). injection Hpa as <-.
    unfold related_get in Ho.
    destruct (get _ _) as [x|e] eqn:Hget.
    + injection Ho as <-. simpl. intros [= <-]. now apply get_In in Hget.
    + destruct e; try discriminate. injection Ho as <-. discriminate.
Qed.

Lemma StronglySorted_snoc (l : list nat) (x : nat) :
  StronglySorted lt l -> Forall (fun k => k < x) l -> StronglySorted lt (l ++ [x]).
Proof.
  induction 1 as [|y ys Hys IH Hy]; intros Hx; simpl.
  - repeat constructor.
  - inversion Hx as [|? ? Hyx Hx']; subst. constructor; [now apply IH|].
    apply Forall_app. split; [exact Hy | now constructor].
Qed.

Lemma create_comment_keeps_order (now : Clock) (db : Store)
    (request : Request CommentBody.t) (r : Response CommentData.t) (db' : Store) :
  method request = POST -> pk request = None ->
  dispatch CommentViewSet now db request = (r, db') ->
  pk_sorted db -> parents_first db ->
  pk_sorted db' /\ parents_first db'.
Proof.
  intros Hm Hk H [Hs Hseq] Hpf.
  destruct request as [m [u|] k query body]; simpl in Hm, Hk; subst m k;
    unfold dispatch, check_permissions in H; cbn in H;
    [|injection H as <- <-; repeat split; assumption].
  unfold CreateModelMixin_create, respond in H.
  cbn [to_internal_value perform_create serializer_data CommentViewSet
       data user] in H.
  destruct (CommentSerializer_to_internal_value db false body)
    as [[errors|v]|e] eqn:Hv;
    try (injection H as <- <-; repeat split; assumption).
  unfold save_as_author, CommentSerializer_create in H.
  destruct (CommentValidated.post v) as [p|];
    [|injection H as <- <-; repeat split; assumption].
  assert (Hdb' : db' = with_comments db
                   (Comment_objects db
                    ++ [Comment.mk (Comment_seq db) (Post.id p)
                          (or_default (CommentValidated.content v) "") (User.id u)
                          (match CommentValidated.parent v with
                           | Some (Some q) => Some (Comment.id q)
                           | _ => None
                           end) (now 0) (now 1)])
                   (S (Comment_seq db)))
    by (destruct (CommentSerializer_data _ _); now injection H as <- <-).
  subst db'. unfold pk_sorted, parents_first. simpl.
  rewrite map_app. simpl. repeat split.
  - apply StronglySorted_snoc; [exact Hs|].
    rewrite Forall_forall in *. intros k Hin.
    apply in_map_iff in Hin as (c & <- & Hc). now apply Hseq.
  - apply Forall_app. split.
    + rewrite Forall_forall in *. intros c Hc. specialize (Hseq c Hc). lia.
    + repeat constructor.
  - apply Forall_app. split; [exact Hpf|].
    repeat constructor. simpl. intros k Hpar.
    destruct (CommentValidated.parent v) as [[q|]|] eqn:Hq; try discriminate.
    injection Hpar as <-.
    pose proof (validated_parent_stored db false _ v q Hv Hq) as Hin.
    rewrite Forall_forall in Hseq. now apply Hseq.
Qed.

Lemma delete_comments_keeps_order (db : Store) (objs : list nat) :
  pk_sorted db -> parents_first db ->
  StronglySorted lt (map Comment.id (delete_comments db objs))
  /\ Forall (fun c => Comment.id c < Comment_seq db) (delete_comments db objs)
  /\ Forall (fun c => forall p, Comment.parent c = Some p -> p < Comment.id c)
       (delete_comments db objs).
Proof.
  intros [Hs Hseq] Hpf. unfold delete_comments. repeat split.
  - now apply StronglySorted_map_filter.
  - unfold parents_first in Hpf. rewrite Forall_forall in *.
    intros c Hc. apply filter_In in Hc as [Hc _]. now apply Hseq.
  - unfold parents_first in Hpf. rewrite Forall_forall in *.
    intros c Hc. apply filter_In in Hc as [Hc _]. now apply Hpf.
Qed.

Lemma delete_keeps_order (db : Store) :
  pk_sorted db -> parents_first db ->
  (forall c, pk_sorted (Comment_delete db c) /\ parents_first (Comment_delete db c))
  /\ (forall p, pk_sorted (Post_delete db p) /\ parents_first (Post_delete db p)).
Proof.
  intros Hs Hpf. split.
  - intros c.
    destruct (delete_comments_keeps_order db [Comment.id c] Hs Hpf) as (H1 & H2 & H3).
    repeat split; assumption.
  - intros p.
    destruct (delete_comments_keeps_order db
                (map Comment.id (Post_comments db (Post.id p))) Hs Hpf)
      as (H1 & H2 & H3).
    repeat split; assumption.
Qed.

(** An author who makes a comment its own parent gets a server error
    for an answer, and so does everyone who reads the comment after. *)
Example thread_self_parent :
  let request := mkRequest PATCH (Some alice) (Some 1) no_query
                   (CommentBody.mk Absent Absent Absent (Value 1)) in
  exists db',
    dispatch CommentViewSet (ticking 30) thread_store request
    = (HTTP_500_INTERNAL_SERVER_ERROR RecursionError, db')
    /\ ~ parents_first db'
    /\ dispatch CommentViewSet (ticking 31) db'
         (mkRequest GET None (Some 1) no_query no_comment)
       = (HTTP_500_INTERNAL_SERVER_ERROR RecursionError, db').
Proof.
  intros request. eexists. split; [reflexivity|]. split; [|reflexivity].
  unfold parents_first. simpl. intros H.
  inversion H as [|? ? Hc _]; subst. specialize (Hc 1 eq_refl). simpl in Hc. lia.
Qed.

(* ------------------------------------------------------------------ *)
(** ** Requests that change nothing *)

Lemma dispatch_unchanged {Obj Body Data V : Type}
    (view : ModelViewSet Obj Body Data V) (now : Clock) (db : Store)
    (request : Request Body) (r : Response Data) (db' : Store) :
  dispatch view now db request = (r, db') ->
  is_safe (method request) = true \/ is_refusal r = true ->
  db' = db.
Proof.
  destruct request as [m u k q b]. unfold_view. cbn [method user pk data query_params].
  destruct m; branches;
    intros [= <- <-] [Hs|Hr]; try reflexivity; try discriminate.
Qed.

(** X1. Whatever the view set, a request with a safe method leaves the
    store as it was, and so does every request that is answered 400,
    403, 404 or 405. *)
Theorem refusals_and_reads_change_nothing {Obj Body Data V : Type}
    (view : ModelViewSet Obj Body Data V) (now : Clock) (db : Store)
    (request : Request Body) (r : Response Data) (db' : Store) :
  dispatch view now db request = (r, db') ->
  is_safe (method request) = true \/ is_refusal r = true ->
  db' = db.
Proof. apply dispatch_unchanged. Qed.

Lemma refusals_and_reads_change_nothing_witness :
  snd (dispatch PostViewSet (ticking 30) thread_store (retitle (Some bob))) = thread_store.
Proof.
  apply (refusals_and_reads_change_nothing PostViewSet (ticking 30) thread_store
           (retitle (Some bob)) HTTP_403_FORBIDDEN).
  - reflexivity.
  - right. reflexivity.
Defined.

(* ------------------------------------------------------------------ *)
(** ** Who is refused and who changes what *)

Section GuardedExactly.
Context {Obj Body Data V : Type} `{HasAuthor Obj}.
Variable view : ModelViewSet Obj Body Data V.
Hypothesis guarded : permission_classes view = [IsAuthorOrReadOnly Obj].

Lemma guarded_object_check (m : Method) (u : User.t) (k : option nat) (q : QueryParams)
(b : Body) (obj : Obj) :
is_safe m = false ->
check_object_permissions view (mkRequest m (Some u) k q b) obj
= (author_of obj =? User.id u).
Proof.
intros Hsafe. unfold check_object_permissions. rewrite guarded. simpl.
rewrite Hsafe. apply andb_true_r.
Qed.

Lemma guarded_forbidden_exactly : forbidden_exactly view.
Proof.
intros now db request. split.
- intros H403.
destruct (is_safe (method request)) eqn:Hsafe.
{ exfalso. now apply (guarded_safe view guarded now db request Hsafe). }
split; [reflexivity|].
destruct request as [m [u|] k q b]; cbn [method user pk query_params] in *;
[right | now left].
revert H403. unfold dispatch, check_permissions. rewrite guarded.
cbn [method user pk data query_params forallb has_permission
IsAuthorOrReadOnly is_authenticated].
rewrite Hsafe. cbn [andb negb is_authenticated].
unfold CreateModelMixin_create, UpdateModelMixin_update,
DestroyModelMixin_destroy, get_object, respond.
destruct m; try discriminate Hsafe; destruct k as [k|];
try (cbn; discriminate);
try (branches; cbn; discriminate);
(destruct (get _ _) as [obj|e] eqn:Hget;
[ rewrite (guarded_object_check _ u (Some k) q b obj Hsafe);
destruct (author_of obj =? User.id u) eqn:Hauthor;
[ branches; cbn; discriminate
| intros _; exists k, u, obj; apply Nat.eqb_neq in Hauthor;
 repeat split; try assumption; simpl; tauto ]
| destruct e; cbn; discriminate ]).
- intros [Hsafe [Hanon|(k & u & obj & Hm & Hk & Hu & Hget & Hauthor)]].
+ now rewrite (guarded_anonymous view guarded now db request Hsafe Hanon).
+ now rewrite (guarded_not_author view guarded now db request k u obj
           Hm Hk Hu Hget Hauthor).
Qed.

Lemma guarded_changed_by_author_only : changed_by_author_only view.
Proof.
intros now db request Hchanged.
destruct (is_safe (method request)) eqn:Hsafe.
{ exfalso. apply Hchanged.
apply (dispatch_unchanged view now db request
   (fst (dispatch view now db request))); [|now left].
now destruct (dispatch view now db request). }
destruct request as [m [u|] k q b]; cbn [method user pk query_params] in *.
2:{ exfalso. apply Hchanged.
now rewrite (guarded_anonymous view guarded now db
           (mkRequest m None k q b) Hsafe eq_refl). }
exists u. split; [reflexivity|].
revert Hchanged. unfold dispatch, check_permissions. rewrite guarded.
cbn [method user pk data query_params forallb has_permission
IsAuthorOrReadOnly is_authenticated].
rewrite Hsafe. cbn [andb negb is_authenticated].
unfold CreateModelMixin_create, UpdateModelMixin_update,
DestroyModelMixin_destroy, get_object, respond.
destruct m; try discriminate Hsafe; destruct k as [k|];
try (cbn; intros Hc; now contradiction Hc);
try (intros _; left; split; reflexivity);
(destruct (get _ _) as [obj|e] eqn:Hget;
[ rewrite (guarded_object_check _ u (Some k) q b obj Hsafe);
destruct (author_of obj =? User.id u) eqn:Hauthor;
[ intros _; right; exists k, obj; apply Nat.eqb_eq in Hauthor;
repeat split; try assumption; simpl; tauto
| cbn; intros Hc; now contradiction Hc ]
| destruct e; cbn; intros Hc; now contradiction Hc ]).
Qed.

End GuardedExactly.

(** X2. On the post and the comment endpoints a request is answered 403
    exactly when its method is not safe and either the caller is
    anonymous, or the request changes or deletes an object of the view's
    query set whose author is not the caller.  In particular the author
    of an object is never refused. *)
Theorem forbidden_exactly_posts_and_comments :
  forbidden_exactly PostViewSet /\ forbidden_exactly CommentViewSet.
Proof.
  split; apply guarded_forbidden_exactly; reflexivity.
Qed.

Lemma forbidden_exactly_posts_and_comments_witness :
  fst (dispatch CommentViewSet (ticking 30) thread_store anonymous_delete) = HTTP_403_FORBIDDEN.
Proof.
  destruct forbidden_exactly_posts_and_comments as [_ Hcomment].
  apply (Hcomment (ticking 30) thread_store anonymous_delete).
  split; [reflexivity | now left].
Defined.

(** X3. On the post and the comment endpoints the store only changes
    for a signed-in caller who either creates, or changes or deletes an
    object whose author they are. *)
Theorem changed_by_author_only_posts_and_comments :
  changed_by_author_only PostViewSet /\ changed_by_author_only CommentViewSet.
Proof.
  split; apply guarded_changed_by_author_only; reflexivity.
Qed.

Lemma changed_by_author_only_posts_and_comments_witness :
  exists u,
    user (retitle (Some alice)) = Some u
    /\ ((method (retitle (Some alice)) = POST /\ pk (retitle (Some alice)) = None)
        \/ exists k obj,
             In (method (retitle (Some alice))) [PUT; PATCH; DELETE]
             /\ pk (retitle (Some alice)) = Some k
             /\ get (fun o => lookup_field PostViewSet o =? k)
                    (get_queryset PostViewSet thread_store
                       (query_params (retitle (Some alice)))) = Ok obj
             /\ author_of obj = User.id u).
Proof.
  destruct changed_by_author_only_posts_and_comments as [Hpost _].
  apply (Hpost (ticking 30) thread_store (retitle (Some alice))).
  cbv. discriminate.
Defined.

(* ------------------------------------------------------------------ *)
(** ** Objects that are not there *)

Lemma get_not_found {A : Type} (f : A -> nat) (k : nat) (qs : list A) :
  (forall x, In x qs -> f x <> k) ->
  get (fun x => f x =? k) qs = Raise DoesNotExist.
Proof.
  intros H. apply get_none. intros x Hx. apply Nat.eqb_neq. now apply H.
Qed.

Lemma dispatch_not_found {Obj Body Data V : Type}
    (view : ModelViewSet Obj Body Data V) (now : Clock) (db : Store)
    (request : Request Body) (k : nat) :
  check_permissions view request = true ->
  In (method request) [GET; HEAD; PUT; PATCH; DELETE] ->
  pk request = Some k ->
  (forall o, In o (get_queryset view db (query_params request)) ->
             lookup_field view o <> k) ->
  dispatch view now db request = (HTTP_404_NOT_FOUND, db).
Proof.
  intros Hp Hm Hk Hnone.
  unfold dispatch. rewrite Hp, Hk. cbn [negb].
  unfold RetrieveModelMixin_retrieve, UpdateModelMixin_update,
    DestroyModelMixin_destroy, get_object.
  rewrite (get_not_found (lookup_field view) k _ Hnone).
  destruct Hm as [<-|[<-|[<-|[<-|[<-|[]]]]]]; reflexivity.
Qed.

(** X4. Whatever the view set: when the permission check of the request
    passes and no object of the view's query set has the key addressed,
    reading, changing and deleting that key are all answered 404 and
    the store stays as it was. *)
Theorem missing_object_not_found {Obj Body Data V : Type}
    (view : ModelViewSet Obj Body Data V) (now : Clock) (db : Store)
    (request : Request Body) (k : nat) :
  check_permissions view request = true ->
  In (method request) [GET; HEAD; PUT; PATCH; DELETE] ->
  pk request = Some k ->
  (forall o, In o (get_queryset view db (query_params request)) ->
             lookup_field view o <> k) ->
  dispatch view now db request = (HTTP_404_NOT_FOUND, db).
Proof. apply dispatch_not_found. Qed.

Lemma missing_object_not_found_witness :
  dispatch CommentViewSet (ticking 30) thread_store
    (mkRequest DELETE (Some alice) (Some 9) no_query no_comment)
  = (HTTP_404_NOT_FOUND, thread_store).
Proof.
  apply (missing_object_not_found CommentViewSet (ticking 30) thread_store _ 9).
  - reflexivity.
  - simpl; tauto.
  - reflexivity.
  - simpl. intros o [<-|[<-|[<-|[<-|[]]]]]; cbv; discriminate.
Defined.

(** X5. The [post_id] of the query string also narrows the detail
    route of the comment endpoint: a comment addressed together with
    the key of a post it does not belong to is not found, for reading
    by anyone and for changing or deleting by any signed-in caller, its
    author included. *)
Theorem comment_hidden_by_post_id (now : Clock) (db : Store)
    (request : Request CommentBody.t) (k p : nat) :
  In (method request) [GET; HEAD; PUT; PATCH; DELETE] ->
  is_safe (method request) = true \/ user request <> None ->
  pk request = Some k ->
  post_id (query_params request) = Some p ->
  (forall c, In c (Comment_objects db) -> Comment.id c = k -> Comment.post c <> p) ->
  dispatch CommentViewSet now db request = (HTTP_404_NOT_FOUND, db).
Proof.
  intros Hm Hallowed Hk Hp Hother.
  apply (dispatch_not_found CommentViewSet now db request k); try assumption.
  - unfold check_permissions. simpl.
    destruct Hallowed as [->|Hu]; [reflexivity|].
    destruct (is_safe (method request)); [reflexivity|].
    destruct (user request); [reflexivity | now contradiction Hu].
  - cbn [get_queryset CommentViewSet lookup_field]. unfold CommentViewSet_get_queryset.
    rewrite Hp. intros c Hc Hid. apply filter_In in Hc as [Hc Hpost].
    apply Nat.eqb_eq in Hpost. exact (Hother c Hc Hid Hpost).
Qed.

Lemma comment_hidden_by_post_id_witness :
  dispatch CommentViewSet (ticking 30) cross_post_store
    (mkRequest PATCH (Some alice) (Some 1) (mkQuery (Some 2) None)
       (CommentBody.mk Absent (Value "Edited") Absent Absent))
  = (HTTP_404_NOT_FOUND, cross_post_store).
Proof.
  apply (comment_hidden_by_post_id (ticking 30) cross_post_store _ 1 2).
  - simpl; tauto.
  - right. discriminate.
  - reflexivity.
  - reflexivity.
  - simpl. intros c [<-|[<-|[]]]; cbv; intros; discriminate.
Defined.

(* ------------------------------------------------------------------ *)
(** ** The users endpoint *)

Lemma mapM_Ok_id {A : Type} (l : list A) : mapM (fun x => Ok x) l = Ok l.
Proof.
  induction l as [|x xs IH]; simpl; [reflexivity|]. now rewrite IH.
Qed.

(** X6. The users endpoint is read-only: no request to it changes the
    store, every method that is not safe is answered 405 whoever sends
    it, and listing returns all users, in the order of the table and in
    one piece. *)
Theorem users_read_only (db : Store) (request : Request unit) :
  snd (ReadOnlyModelViewSet_dispatch UserViewSet db request) = db
  /\ (is_safe (method request) = false ->
      fst (ReadOnlyModelViewSet_dispatch UserViewSet db request)
      = HTTP_405_METHOD_NOT_ALLOWED)
  /\ (In (method request) [GET; HEAD] -> pk request = None ->
      fst (ReadOnlyModelViewSet_dispatch UserViewSet db request)
      = HTTP_200_OK (Listing (User_objects db))).
Proof.
  destruct request as [m u k q b].
  unfold ReadOnlyModelViewSet_dispatch, check_permissions,
    ListModelMixin_list, RetrieveModelMixin_retrieve, get_object, respond,
    check_object_permissions.
  cbn [method user pk data query_params permission_classes UserViewSet
       settings.DEFAULT_PERMISSION_CLASSES forallb has_permission
       has_object_permission AllowAny andb negb get_queryset pagination_class
       settings.DEFAULT_PAGINATION_CLASS serializer_data lookup_field].
  unfold UserSerializer_data. rewrite mapM_Ok_id.
  repeat split.
  - destruct m, k; try reflexivity; destruct (get _ _) as [x|[]]; reflexivity.
  - intros Hsafe. destruct m; try discriminate Hsafe; destruct k; reflexivity.
  - intros [<-|[<-|[]]] [= ->]; reflexivity.
Qed.

Lemma users_read_only_witness :
  fst (ReadOnlyModelViewSet_dispatch UserViewSet thread_store
         (mkRequest DELETE (Some alice) (Some 2) no_query tt))
  = HTTP_405_METHOD_NOT_ALLOWED
  /\ fst (ReadOnlyModelViewSet_dispatch UserViewSet thread_store
            (mkRequest GET None None no_query tt))
     = HTTP_200_OK (Listing [alice; bob]).
Proof.
  split.
  - apply (users_read_only thread_store
             (mkRequest DELETE (Some alice) (Some 2) no_query tt)).
    reflexivity.
  - apply (users_read_only thread_store (mkRequest GET None None no_query tt)).
    + simpl; tauto.
    + reflexivity.
Defined.

(* ------------------------------------------------------------------ *)
(** ** Pages *)

Lemma num_pages_enough (page_size count : nat) :
  0 < page_size -> count <= num_pages page_size count * page_size.
Proof.
  intros Hpos. unfold num_pages.
  pose proof (Nat.mul_succ_div_gt (count + page_size - 1) page_size) as H.
  assert (Hne : page_size <> 0) by lia. specialize (H Hne).
  assert (Hmax : (count + page_size - 1) / page_size
                 <= Nat.max 1 ((count + page_size - 1) / page_size)) by lia.
  nia.
Qed.

Lemma concat_windows {A : Type} (page_size : nat) :
  forall n (l : list A), List.length l <= n * page_size ->
  List.concat (map (fun k => firstn page_size (skipn (k * page_size) l)) (seq 0 n)) = l.
Proof.
  induction n as [|n IH]; intros l Hlen.
  - destruct l; [reflexivity | simpl in Hlen; lia].
  - cbn [seq map List.concat]. rewrite <- seq_shift, map_map.
    rewrite (map_ext _ (fun k => firstn page_size
                                   (skipn (k * page_size) (skipn page_size l)))).
    + rewrite IH; [apply firstn_skipn|]. rewrite length_skipn. lia.
    + intros k. rewrite skipn_skipn. f_equal. f_equal. simpl. lia.
Qed.

(** X7. Pages of a positive size: no page is longer than the page size;
    leaving the page out means page 1, which always exists; page 0 and
    every page beyond the last do not; and the pages from 1 to the last,
    put one after the other, are the query set, every row once and in
    order. *)
Theorem pages_cover_queryset {A : Type} (page_size : nat) (queryset : list A) :
  0 < page_size ->
  (forall page window,
      paginate_queryset page_size page queryset = Some window ->
      List.length window <= page_size)
  /\ paginate_queryset page_size None queryset
     = paginate_queryset page_size (Some 1) queryset
  /\ paginate_queryset page_size (Some 1) queryset
     = Some (firstn page_size queryset)
  /\ paginate_queryset page_size (Some 0) queryset = None
  /\ (forall n, num_pages page_size (List.length queryset) < n ->
                paginate_queryset page_size (Some n) queryset = None)
  /\ exists windows,
       pages page_size queryset = map Some windows
       /\ List.concat windows = queryset.
Proof.
  intros Hpos. split; [|split; [|split; [|split; [|split]]]].
  - intros page window. unfold paginate_queryset.
    destruct (_ || _); [discriminate|]. intros [= <-].
    rewrite length_firstn. lia.
  - reflexivity.
  - unfold paginate_queryset.
    assert (H1 : (num_pages page_size (List.length queryset) <? 1) = false)
      by (apply Nat.ltb_ge; unfold num_pages; lia).
    rewrite H1. reflexivity.
  - reflexivity.
  - intros n Hn. unfold paginate_queryset.
    apply Nat.ltb_lt in Hn. rewrite Hn. now rewrite orb_true_r.
  - exists (map (fun k => firstn page_size (skipn (k * page_size) queryset))
              (seq 0 (num_pages page_size (List.length queryset)))).
    split.
    + unfold pages. rewrite <- seq_shift, !map_map. apply map_ext_in.
      intros k Hk. apply in_seq in Hk. unfold paginate_queryset.
      assert (H0 : (S k =? 0) = false) by reflexivity.
      assert (H1 : (num_pages page_size (List.length queryset) <? S k) = false)
        by (apply Nat.ltb_ge; lia).
      rewrite H0, H1. cbn [orb]. now rewrite Nat.sub_1_r.
    + apply concat_windows. now apply num_pages_enough.
Qed.

Lemma pages_cover_queryset_witness :
  exists windows,
    pages CommentPagination_page_size (Comment_objects thread_store) = map Some windows
    /\ List.concat windows = Comment_objects thread_store.
Proof.
  destruct (pages_cover_queryset CommentPagination_page_size
              (Comment_objects thread_store)) as (_ & _ & _ & _ & _ & H).
  - unfold CommentPagination_page_size. lia.
  - exact H.
Defined.

(* ------------------------------------------------------------------ *)
(** ** The order of the post listing *)

Lemma insert_by_created_at_perm (p : Post.t) (rows : list Post.t) :
  Permutation (p :: rows) (insert_by_created_at p rows).
Proof.
  induction rows as [|q rest IH]; simpl; [reflexivity|].
  destruct (Post.created_at q <=? Post.created_at p); [reflexivity|].
  rewrite perm_swap. now constructor.
Qed.

Lemma insert_by_created_at_sorted (p : Post.t) (rows : list Post.t) :
  StronglySorted not_newer rows ->
  StronglySorted not_newer (insert_by_created_at p rows).
Proof.
  induction 1 as [|q rest Hrest IH Hq]; simpl; [repeat constructor|].
  destruct (Post.created_at q <=? Post.created_at p) eqn:E.
  - apply Nat.leb_le in E. constructor; [now constructor|].
    constructor; [exact E|].
    rewrite Forall_forall in *. intros x Hx. specialize (Hq x Hx).
    unfold not_newer in *. lia.
  - apply Nat.leb_gt in E. constructor; [exact IH|].
    apply (Permutation_Forall (insert_by_created_at_perm p rest)).
    constructor; [unfold not_newer; lia | exact Hq].
Qed.

Lemma order_by_created_at_desc_perm (rows : list Post.t) :
  Permutation rows (order_by_created_at_desc rows).
Proof.
  unfold order_by_created_at_desc.
  induction rows as [|p rows IH]; simpl; [constructor|].
  rewrite <- insert_by_created_at_perm. now constructor.
Qed.

(** X8. The query set of the post endpoint holds every stored post
    exactly once, whatever the query string, and in it no post comes
    before a post created later. *)
Theorem posts_newest_first (db : Store) (q : QueryParams) :
  Permutation (Post_objects db) (get_queryset PostViewSet db q)
  /\ StronglySorted not_newer (get_queryset PostViewSet db q).
Proof.
  cbn [get_queryset PostViewSet]. split; [apply order_by_created_at_desc_perm|].
  unfold order_by_created_at_desc.
  induction (Post_objects db) as [|p rows IH]; simpl.
  - constructor.
  - now apply insert_by_created_at_sorted.
Qed.

(* ------------------------------------------------------------------ *)
(** ** What a cascade leaves alone *)

Lemma reached_reply (rows : list Comment.t) (seeds : list nat) (r : Comment.t)
    (p : nat) :
  In r rows -> Comment.parent r = Some p -> reached rows seeds p ->
  reached rows seeds (Comment.id r).
Proof.
  intros Hr Hp [Hseed|(a & b & Ha & Hb & <-)]; right.
  - exists p, r. repeat split; auto. now apply descends_reply.
  - exists a, r. repeat split; auto. now apply descends_deeper with (b := b).
Qed.

Lemma collect_reached (rows : list Comment.t) (seeds : list nat) :
  forall fuel seen objs,
    (forall y, In y seen -> reached rows seeds y) ->
    (forall y, In y objs -> reached rows seeds y) ->
    forall x, In x (collect fuel rows seen objs) -> reached rows seeds x.
Proof.
  induction fuel as [|fuel IH]; intros seen objs Hseen Hobjs x; cbn [collect];
    [apply Hseen|].
  destruct (filter (fun i => negb (mem i seen)) (nodup Nat.eq_dec objs))
    as [|n new] eqn:Enew; [apply Hseen|].
  assert (Hnew : forall y, In y (n :: new) -> reached rows seeds y).
  { intros y Hy. rewrite <- Enew in Hy. apply filter_In in Hy as [Hy _].
    apply nodup_In in Hy. now apply Hobjs. }
  apply IH.
  - intros y Hy. apply in_app_or in Hy as [Hy|Hy]; auto.
  - intros y Hy. apply in_map_iff in Hy as (r & <- & Hr).
    apply filter_In in Hr as [Hr Hp].
    destruct (Comment.parent r) as [p|] eqn:Epar; [|discriminate].
    apply mem_In in Hp. apply (reached_reply rows seeds r p Hr Epar). auto.
Qed.

Lemma collected_reached (db : Store) (objs : list nat) (x : nat) :
  In x (collected db objs) -> reached (Comment_objects db) objs x.
Proof.
  unfold collected. apply collect_reached.
  - intros y [].
  - intros y Hy. now left.
Qed.





(* ------------------------------------------------------------------ *)
(** ** What the requests to the comment endpoint do to the table *)

Lemma CharField_valid (partial : bool) (max_length : option nat)
    (extra : string -> list string) (d : field string) (v : string) :
  CharField partial max_length extra d = Valid v ->
  exists s, d = Value s /\ v = strip s /\ v <> ""
            /\ (forall n, max_length = Some n -> characters v <= n)
            /\ has_null_character v = false /\ extra v = [].
Proof.
  unfold CharField. destruct d as [| |s]; [destruct partial; discriminate | discriminate |].
  destruct (String.eqb (strip s) "") eqn:Eblank; [discriminate|].
  apply String.eqb_neq in Eblank.
  destruct (extra (strip s) ++ _) as [|failed codes] eqn:Ecodes; [|discriminate].
  intros [= <-]. exists s.
  apply app_eq_nil in Ecodes as [Hextra Ecodes].
  apply app_eq_nil in Ecodes as [Hlen Hnull].
  repeat split; auto.
  - intros n ->. unfold codes_if in Hlen.
    destruct (n <? characters (strip s)) eqn:E; [discriminate|].
    now apply Nat.ltb_ge in E.
  - unfold codes_if in Hnull. now destruct (has_null_character (strip s)).
Qed.

Lemma CharField_required (max_length : option nat)
    (extra : string -> list string) (d : field string) :
  CharField false max_length extra d <> Skip.
Proof.
  unfold CharField. destruct d as [| |s]; try discriminate.
  destruct (String.eqb (strip s) ""); [discriminate|].
  destruct (_ ++ _); discriminate.
Qed.

Lemma related_get_valid {A : Type} (p : A -> bool) (queryset : list A)
    (o : outcome A) :
  related_get p queryset = Ok o ->
  o <> Skip /\ forall x, o = Valid x -> In x queryset /\ p x = true.
Proof.
  unfold related_get. destruct (get p queryset) as [x|e] eqn:Hget.
  - intros [= <-]. split; [discriminate|]. intros y [= <-]. now apply get_In.
  - destruct e; try discriminate. intros [= <-]. split; discriminate.
Qed.

(** What is in the validated data of a new comment. *)
Lemma comment_validated (db : Store) (b : CommentBody.t) (v : CommentValidated.t) :
  CommentSerializer_to_internal_value db false b = Ok (inr v) ->
  (exists p t, CommentValidated.post v = Some p /\ In p (Post_objects db)
               /\ CommentBody.post b = Value t /\ Post.title p = t)
  /\ (exists s, CommentBody.content b = Value s
                /\ CommentValidated.content v = Some (strip s) /\ strip s <> "")
  /\ (forall x, CommentValidated.parent v = Some (Some x) ->
                In x (Comment_objects db)).
Proof.
  intros Hv. split; [|split].
  - unfold CommentSerializer_to_internal_value in Hv.
    apply bind_Ok in Hv as (po & Hpo & Hv). apply bind_Ok in Hv as (pa & _ & Hv).
    destruct po as [p| |codes]; try (simpl in Hv; discriminate Hv).
    + destruct (_ ++ _) in Hv; [|discriminate]. injection Hv as <-.
      unfold SlugRelatedField in Hpo.
      destruct (CommentBody.post b) as [| |t]; try discriminate.
      destruct (String.eqb t ""); [discriminate|].
      apply related_get_valid in Hpo as [_ Hpo].
      destruct (Hpo p eq_refl) as [Hin Ht]. apply String.eqb_eq in Ht.
      exists p, t. auto.
    + exfalso. unfold SlugRelatedField in Hpo.
      destruct (CommentBody.post b) as [| |t]; try discriminate.
      destruct (String.eqb t ""); [discriminate|].
      now apply related_get_valid in Hpo as [Hpo _].
  - unfold CommentSerializer_to_internal_value in Hv.
    apply bind_Ok in Hv as (po & _ & Hv). apply bind_Ok in Hv as (pa & _ & Hv).
    destruct (CharField false None (fun _ => []) (CommentBody.content b))
      as [c| |codes] eqn:Hc.
    + destruct (_ ++ _) in Hv; [|discriminate]. injection Hv as <-.
      apply CharField_valid in Hc as (s & Hs & -> & Hne & _).
      exists s. auto.
    + now apply CharField_required in Hc.
    + destruct po; simpl in Hv; discriminate Hv.
  - intros x. now apply validated_parent_stored with (partial := false) (data := b).
Qed.

(** A create request adds nothing, or one row with the next key, the
    caller as author, the trimmed content and a post and a parent, if
    any, that are stored. *)
Lemma create_comment_shape (now : Clock) (db : Store)
    (u : option User.t) (q : QueryParams) (b : CommentBody.t)
    (r : Response CommentData.t) (db' : Store) :
  dispatch CommentViewSet now db (mkRequest POST u None q b) = (r, db') ->
  (db' = db /\ forall d, r <> HTTP_201_CREATED d)
  \/ exists row caller,
       db' = with_comments db (Comment_objects db ++ [row]) (S (Comment_seq db))
       /\ u = Some caller
       /\ Comment.id row = Comment_seq db
       /\ Comment.author row = User.id caller
       /\ Comment.created_at row = now 0 /\ Comment.updated_at row = now 1
       /\ (exists s, CommentBody.content b = Value s
                     /\ Comment.content row = strip s
                     /\ Comment.content row <> "")
       /\ (exists p t, In p (Post_objects db) /\ Comment.post row = Post.id p
                       /\ CommentBody.post b = Value t /\ Post.title p = t)
       /\ (forall p, Comment.parent row = Some p ->
                     exists x, In x (Comment_objects db) /\ Comment.id x = p)
       /\ (forall d, r = HTTP_201_CREATED d ->
                     CommentSerializer_data db' row = Ok d).
Proof.
  unfold dispatch, check_permissions. cbn.
  destruct u as [caller|]; cbn;
    [|intros [= <- <-]; left; split; [reflexivity | discriminate]].
  unfold CreateModelMixin_create, respond.
  cbn [to_internal_value perform_create serializer_data CommentViewSet data user].
  destruct (CommentSerializer_to_internal_value db false b)
    as [[errors|v]|e] eqn:Hv;
    try (intros [= <- <-]; left; split; [reflexivity | discriminate]).
  destruct (comment_validated db b v Hv)
    as ((p & t & Hp & Hpin & Hpost & Ht) & (s & Hs & Hc & Hne) & Hparent).
  unfold save_as_author, CommentSerializer_create. rewrite Hp, Hc.
  cbn [or_default].
  match goal with
  | |- match CommentSerializer_data ?d ?x with _ => _ end = _ -> _ =>
      set (db1 := d); set (row := x)
  end.
  destruct (CommentSerializer_data db1 row) as [d0|e0] eqn:Hdata;
    intros [= <- <-]; right; exists row, caller;
    (repeat split; try reflexivity;
     [ exists s; repeat split; auto
     | exists p, t; repeat split; auto
     | subst row; simpl; intros k Hk;
       destruct (CommentValidated.parent v) as [[x|]|] eqn:Hx; try discriminate;
       injection Hk as <-; exists x; split; [now apply Hparent | reflexivity]
     | intros d [= <-] || (intros d; discriminate) ]).
  exact Hdata.
Qed.

Lemma validated_post_stored (db : Store) (partial : bool) (b : CommentBody.t)
    (v : CommentValidated.t) (p : Post.t) :
  CommentSerializer_to_internal_value db partial b = Ok (inr v) ->
  CommentValidated.post v = Some p -> In p (Post_objects db).
Proof.
  unfold CommentSerializer_to_internal_value. intros H.
  apply bind_Ok in H as (po & Hpo & H). apply bind_Ok in H as (pa & _ & H).
  destruct (_ ++ _) in H; [|discriminate]. injection H as <-. simpl.
  destruct po as [x| |codes]; try discriminate. intros [= <-].
  unfold SlugRelatedField in Hpo.
  destruct (CommentBody.post b) as [| |t];
    [destruct partial; discriminate | discriminate |].
  destruct (String.eqb t ""); [discriminate|].
  apply related_get_valid in Hpo as [_ Hpo]. now apply (Hpo x).
Qed.

(** A change adds no row and takes none away: nothing happens, or the
    row addressed is replaced by one with the same key, author and date
    of creation, stamped with the time of the change. *)
Lemma update_comment_shape (now : Clock) (db : Store) (m : Method)
    (u : option User.t) (k : nat) (q : QueryParams) (b : CommentBody.t)
    (r : Response CommentData.t) (db' : Store) :
  In m [PUT; PATCH] ->
  dispatch CommentViewSet now db (mkRequest m u (Some k) q b) = (r, db') ->
  db' = db
  \/ exists obj row caller,
       u = Some caller
       /\ In obj (Comment_objects db) /\ Comment.id obj = k
       /\ Comment.author obj = User.id caller
       /\ db' = with_comments db (replace_row Comment.id row (Comment_objects db))
                  (Comment_seq db)
       /\ Comment.id row = Comment.id obj
       /\ Comment.author row = Comment.author obj
       /\ Comment.created_at row = Comment.created_at obj
       /\ Comment.updated_at row = now 0
       /\ (forall p, Comment.parent row = Some p ->
                     Comment.parent obj = Some p
                     \/ exists x, In x (Comment_objects db) /\ Comment.id x = p)
       /\ (Comment.post row = Comment.post obj
           \/ exists p, In p (Post_objects db) /\ Post.id p = Comment.post row).
Proof.
  intros Hm.
  assert (Hsafe : is_safe m = false) by (destruct Hm as [<-|[<-|[]]]; reflexivity).
  unfold dispatch, check_permissions.
  cbn [method user pk data query_params permission_classes CommentViewSet
       forallb has_permission IsAuthorOrReadOnly].
  rewrite Hsafe.
  destruct u as [caller|]; cbn [is_authenticated andb negb];
    [|intros [= <- <-]; now left].
  assert (Hupdate : forall partial,
             UpdateModelMixin_update CommentViewSet now partial db
               (mkRequest m (Some caller) (Some k) q b) k = (r, db') ->
             db' = db
             \/ exists obj row caller0,
                  Some caller = Some caller0
                  /\ In obj (Comment_objects db) /\ Comment.id obj = k
                  /\ Comment.author obj = User.id caller0
                  /\ db' = with_comments db
                             (replace_row Comment.id row (Comment_objects db))
                             (Comment_seq db)
                  /\ Comment.id row = Comment.id obj
                  /\ Comment.author row = Comment.author obj
                  /\ Comment.created_at row = Comment.created_at obj
                  /\ Comment.updated_at row = now 0
                  /\ (forall p, Comment.parent row = Some p ->
                                Comment.parent obj = Some p
                                \/ exists x, In x (Comment_objects db)
                                             /\ Comment.id x = p)
                  /\ (Comment.post row = Comment.post obj
                      \/ exists p, In p (Post_objects db)
                                   /\ Post.id p = Comment.post row)).
  { intros partial. unfold UpdateModelMixin_update, get_object, respond.
    cbn [get_queryset lookup_field CommentViewSet query_params
         to_internal_value perform_update serializer_data data].
    destruct (get _ _) as [obj|e] eqn:Hget;
      [|destruct e; intros [= <- <-]; now left].
    apply get_In in Hget as [Hin Hid]. apply Nat.eqb_eq in Hid.
    assert (Hobj : In obj (Comment_objects db)).
    { unfold CommentViewSet_get_queryset in Hin.
      destruct (post_id q); [now apply filter_In in Hin | exact Hin]. }
    unfold check_object_permissions.
    cbn [permission_classes CommentViewSet forallb has_object_permission
         IsAuthorOrReadOnly method user].
    rewrite Hsafe. unfold author_of, Comment_HasAuthor.
    destruct (Comment.author obj =? User.id caller) eqn:Hauthor;
      cbn [andb]; [|intros [= <- <-]; now left].
    apply Nat.eqb_eq in Hauthor.
    destruct (CommentSerializer_to_internal_value db partial b)
      as [[errors|v]|e] eqn:Hv; try (intros [= <- <-]; now left).
    unfold CommentSerializer_update.
    match goal with
    | |- match CommentSerializer_data ?d ?x with _ => _ end = _ -> _ =>
        set (db1 := d); set (row := x)
    end.
    intros H. right. exists obj, row, caller.
    assert (Hdb' : db' = db1)
      by (revert H; destruct (CommentSerializer_data db1 row); now intros [= <- <-]).
    repeat split; auto.
    - subst row. simpl. intros p Hp.
      destruct (CommentValidated.parent v) as [[x|]|] eqn:Hx; try discriminate.
      + injection Hp as <-. right. exists x. split; [|reflexivity].
        exact (validated_parent_stored db partial b v x Hv Hx).
      + now left.
    - subst row. simpl.
      destruct (CommentValidated.post v) as [p|] eqn:Hp; [right | now left].
      exists p. split; [|reflexivity].
      exact (validated_post_stored db partial b v p Hv Hp). }
  destruct Hm as [<-|[<-|[]]]; apply Hupdate.
Qed.

(** A deletion does nothing, or is the cascade from an object of the
    caller. *)
Lemma delete_comment_shape (now : Clock) (db : Store)
    (u : option User.t) (k : nat) (q : QueryParams) (b : CommentBody.t)
    (r : Response CommentData.t) (db' : Store) :
  dispatch CommentViewSet now db (mkRequest DELETE u (Some k) q b) = (r, db') ->
  (db' = db /\ r <> HTTP_204_NO_CONTENT)
  \/ exists obj caller,
       u = Some caller
       /\ In obj (Comment_objects db) /\ Comment.id obj = k
       /\ Comment.author obj = User.id caller
       /\ db' = Comment_delete db obj /\ r = HTTP_204_NO_CONTENT.
Proof.
  unfold dispatch, check_permissions.
  cbn [method user pk data query_params permission_classes CommentViewSet
       forallb has_permission IsAuthorOrReadOnly is_safe SAFE_METHODS existsb
       Method_eqb orb].
  destruct u as [caller|]; cbn [is_authenticated andb negb];
    [|intros [= <- <-]; left; split; [reflexivity | discriminate]].
  unfold DestroyModelMixin_destroy, get_object.
  cbn [get_queryset lookup_field CommentViewSet query_params perform_destroy].
  destruct (get _ _) as [obj|e] eqn:Hget;
    [|destruct e; intros [= <- <-]; left; (split; [reflexivity | discriminate])].
  apply get_In in Hget as [Hin Hid]. apply Nat.eqb_eq in Hid.
  assert (Hobj : In obj (Comment_objects db)).
  { unfold CommentViewSet_get_queryset in Hin.
    destruct (post_id q); [now apply filter_In in Hin | exact Hin]. }
  unfold check_object_permissions.
  cbn [permission_classes CommentViewSet forallb has_object_permission
       IsAuthorOrReadOnly method user is_safe SAFE_METHODS existsb Method_eqb orb].
  unfold author_of, Comment_HasAuthor.
  destruct (Comment.author obj =? User.id caller) eqn:Hauthor; cbn [andb];
    [|intros [= <- <-]; left; split; [reflexivity | discriminate]].
  unfold Comment_destroy, Model_delete.
  destruct (_ <=? max_cascade_levels);
    intros [= <- <-]; [|left; split; [reflexivity | discriminate]].
  apply Nat.eqb_eq in Hauthor.
  right. exists obj, caller. repeat split; auto.
Qed.

Lemma map_replace_row {A B : Type} (pk : A -> nat) (f : A -> B) (row : A)
    (rows : list A) :
  (forall x, In x rows -> pk x = pk row -> f x = f row) ->
  map f (replace_row pk row rows) = map f rows.
Proof.
  intros H. unfold replace_row. rewrite map_map. apply map_ext_in.
  intros x Hx. destruct (pk x =? pk row) eqn:E; [|reflexivity].
  apply Nat.eqb_eq in E. symmetry. now apply H.
Qed.

Lemma Forall_replace_row {A : Type} (pk : A -> nat) (P : A -> Prop) (row : A)
    (rows : list A) :
  Forall P rows -> P row -> Forall P (replace_row pk row rows).
Proof.
  intros Hrows Hrow. unfold replace_row. apply Forall_map.
  rewrite Forall_forall in *. intros x Hx.
  destruct (pk x =? pk row); auto.
Qed.

Lemma no_detail_no_change {Obj Body Data V : Type}
    (view : ModelViewSet Obj Body Data V) (now : Clock) (db : Store)
    (m : Method) (u : option User.t) (q : QueryParams) (b : Body) :
  In m [PUT; PATCH; DELETE] ->
  snd (dispatch view now db (mkRequest m u None q b)) = db.
Proof.
  intros Hm. unfold dispatch. cbn [method pk].
  destruct (negb _); destruct Hm as [<-|[<-|[<-|[]]]]; reflexivity.
Qed.





(* ------------------------------------------------------------------ *)
(** ** The answer to a new comment *)

Lemma filter_nil {A : Type} (p : A -> bool) (l : list A) :
  (forall x, In x l -> p x = false) -> filter p l = [].
Proof.
  induction l as [|x xs IH]; intros H; [reflexivity|]. simpl.
  rewrite (H x (or_introl eq_refl)). apply IH. intros; apply H; now right.
Qed.

(** X13. In a store with keys in order and parents first, the answer
    201 to a new comment shows the comment under the next key of the
    sequence, with the content submitted, white space at both ends
    removed and not empty, with the first reading of the clock as time
    of creation and the second as time of the last change, with a stored
    comment as parent if it has one, and with an empty list of
    replies. *)
Theorem created_comment_representation (now : Clock) (db : Store)
    (request : Request CommentBody.t) (d : CommentData.t) (db' : Store) :
  method request = POST -> pk request = None ->
  dispatch CommentViewSet now db request = (HTTP_201_CREATED d, db') ->
  pk_sorted db -> parents_first db ->
  CommentData.id d = Comment_seq db
  /\ CommentData.replies d = []
  /\ (exists s, CommentBody.content (data request) = Value s
                /\ CommentData.content d = strip s
                /\ CommentData.content d <> "")
  /\ CommentData.created_at d = now 0 /\ CommentData.updated_at d = now 1
  /\ (forall p, CommentData.parent d = Some p ->
                exists x, In x (Comment_objects db) /\ Comment.id x = p).
Proof.
  intros Hm Hk H [Hsorted Hseq] Hpf.
  destruct request as [m u k q b]. cbn [method pk data] in *. subst m k.
  destruct (create_comment_shape now db u q b _ db' H)
    as [[_ Hno]|(row & caller & -> & _ & Hid & _ & Hcreated & Hupdated
                 & (s & Hs & Hcontent & Hne) & _ & Hpar & Hdata)];
    [now contradiction (Hno d)|].
  specialize (Hdata d eq_refl). unfold CommentSerializer_data in Hdata.
  apply to_representation_inv in Hdata as (p & a & rs & _ & _ & HF & ->).
  cbn [CommentData.id CommentData.replies CommentData.content
       CommentData.created_at CommentData.updated_at CommentData.parent].
  assert (Hnone : Comment_replies
                    (with_comments db (Comment_objects db ++ [row])
                       (S (Comment_seq db))) row = []).
  { unfold Comment_replies. cbn [with_comments Comment_objects].
    apply filter_nil. intros x Hx.
    destruct (eq_opt (Comment.parent x) (Comment.id row)) eqn:E; [|reflexivity].
    exfalso. apply eq_opt_true in E.
    unfold parents_first in Hpf. rewrite Forall_forall in Hpf, Hseq.
    apply in_app_or in Hx as [Hx|[<-|[]]].
    - specialize (Hpf x Hx _ E). specialize (Hseq x Hx). lia.
    - destruct (Hpar _ E) as (y & Hy & Hyid). specialize (Hseq y Hy). lia. }
  rewrite Hnone in HF. inversion HF; subst.
  repeat split; auto.
  - exists s. rewrite <- Hcontent. auto.
Qed.

Lemma created_comment_representation_witness :
  exists d db',
    dispatch CommentViewSet (ticking 30) thread_store spoofed_comment = (HTTP_201_CREATED d, db')
    /\ CommentData.id d = Comment_seq thread_store
    /\ CommentData.replies d = [].
Proof.
  exists (CommentData.mk 5 "Intro" "Me too" "bob" None 30 31 []).
  eexists. split; [reflexivity|].
  destruct (created_comment_representation (ticking 30) thread_store spoofed_comment
              (CommentData.mk 5 "Intro" "Me too" "bob" None 30 31 [])
              (snd (dispatch CommentViewSet (ticking 30) thread_store spoofed_comment)))
    as (Hid & Hreplies & _).
  - reflexivity.
  - reflexivity.
  - reflexivity.
  - unfold pk_sorted; simpl; rows.
  - unfold parents_first; simpl; rows.
  - split; assumption.
Defined.

(* ------------------------------------------------------------------ *)
(** ** What a new post holds *)

Lemma many_related_valid {A : Type} (slug_field : A -> string) (queryset : list A) :
  forall items o,
    many_related slug_field queryset items = Ok o ->
    o <> Skip
    /\ forall xs, o = Valid xs ->
         Forall2 (fun s x => In x queryset /\ slug_field x = s) items xs.
Proof.
  induction items as [|s rest IH]; intros o; simpl.
  - intros [= <-]. split; [discriminate|]. intros xs [= <-]. constructor.
  - intros H. apply bind_Ok in H as (o1 & Ho1 & H).
    apply related_get_valid in Ho1 as [Hskip Hvalid].
    destruct o1 as [x| |codes]; [|now contradiction Hskip|].
    + apply bind_Ok in H as (os & Hos & H).
      destruct (IH os Hos) as [Hskip' Hvalid'].
      destruct os as [xs| |codes]; [|now contradiction Hskip'|].
      * injection H as <-. split; [discriminate|]. intros ys [= <-].
        destruct (Hvalid x eq_refl) as [Hin Hs]. apply String.eqb_eq in Hs.
        constructor; auto.
      * injection H as <-. split; discriminate.
    + injection H as <-. split; discriminate.
Qed.

Lemma slug_field_valid {A : Type} (slug_field : A -> string) (queryset : list A)
    (d : field string) (o : outcome A) :
  SlugRelatedField false slug_field queryset d = Ok o ->
  o <> Skip
  /\ forall x, o = Valid x -> In x queryset /\ d = Value (slug_field x).
Proof.
  unfold SlugRelatedField. destruct d as [| |s].
  - intros [= <-]. split; discriminate.
  - intros [= <-]. split; discriminate.
  - destruct (String.eqb s ""); [intros [= <-]; split; discriminate|].
    intros H. apply related_get_valid in H as [Hskip Hvalid].
    split; [exact Hskip|]. intros x Hx. destruct (Hvalid x Hx) as [Hin Hs].
    apply String.eqb_eq in Hs. now subst.
Qed.

(** What is in the validated data of a new post. *)
Lemma post_validated (db : Store) (b : PostBody.t) (v : PostValidated.t) :
  PostSerializer_to_internal_value db false b = Ok (inr v) ->
  (exists s, PostBody.title b = Value s /\ PostValidated.title v = Some (strip s)
             /\ strip s <> "" /\ characters (strip s) <= 300)
  /\ (exists s, PostBody.content b = Value s
                /\ PostValidated.content v = Some (strip s) /\ strip s <> "")
  /\ (exists c, PostValidated.category v = Some c /\ In c (Category_objects db)
                /\ PostBody.category b = Value (Category.name c))
  /\ (exists names ts, PostBody.tag b = Value names /\ PostValidated.tag v = Some ts
                       /\ Forall2 (fun s x => In x (Tag_objects db) /\ Tag.name x = s)
                            names ts).
Proof.
  unfold PostSerializer_to_internal_value. intros H.
  apply bind_Ok in H as (oc & Hoc & H). apply bind_Ok in H as (ot & Hot & H).
  destruct (CharField false (Some 300) (fun _ => []) (PostBody.title b))
    as [t| |codes] eqn:Ht;
    [|now apply CharField_required in Ht|simpl in H; discriminate H].
  destruct (CharField false None (fun _ => []) (PostBody.content b))
    as [c| |codes] eqn:Hc;
    [|now apply CharField_required in Hc|simpl in H; discriminate H].
  apply slug_field_valid in Hoc as [Hskip Hcat].
  destruct oc as [cat| |codes];
    [|now contradiction Hskip|simpl in H; discriminate H].
  assert (Htag : ot <> Skip
                 /\ forall ts, ot = Valid ts ->
                      exists names, PostBody.tag b = Value names
                        /\ Forall2 (fun s x => In x (Tag_objects db) /\ Tag.name x = s)
                             names ts).
  { unfold ManySlugRelatedField in Hot. destruct (PostBody.tag b) as [| |names].
    - injection Hot as <-. split; discriminate.
    - injection Hot as <-. split; discriminate.
    - apply many_related_valid in Hot as [Hs Hv]. split; [exact Hs|].
      intros ts Hts. exists names. split; [reflexivity | now apply Hv]. }
  destruct Htag as [Hskip' Htag].
  destruct ot as [ts| |codes];
    [|now contradiction Hskip'|simpl in H; discriminate H].
  simpl in H. injection H as <-. simpl.
  apply CharField_valid in Ht as (s & Hs & -> & Hne & Hlen & _).
  apply CharField_valid in Hc as (s' & Hs' & -> & Hne' & _).
  destruct (Hcat cat eq_refl) as [Hin Hname].
  destruct (Htag ts eq_refl) as (names & Hnames & HF).
  repeat split.
  - exists s. repeat split; auto.
  - exists s'. repeat split; auto.
  - exists cat. repeat split; auto.
  - exists names, ts. repeat split; auto.
Qed.

(** X14. The answer 201 to a new post means one more row in the post
    table, under the next key and with the caller as author, whose title
    is not empty and not longer than 300 characters, whose content is
    not empty, whose category is a stored category with the name
    submitted, whose tags are stored tags, each once, and whose times of
    creation and of last change are the first and the second reading of
    the clock.  The endpoint therefore stores no post without a
    category, though the column is nullable. *)
Theorem created_post_row (now : Clock) (db : Store) (request : Request PostBody.t)
    (d : PostData.t) (db' : Store) :
  method request = POST -> pk request = None ->
  dispatch PostViewSet now db request = (HTTP_201_CREATED d, db') ->
  exists row caller c,
    user request = Some caller
    /\ Post_objects db' = Post_objects db ++ [row]
    /\ Post.id row = Post_seq db /\ Post_seq db' = S (Post_seq db)
    /\ Post.author row = User.id caller
    /\ Post.title row <> "" /\ characters (Post.title row) <= 300
    /\ Post.content row <> ""
    /\ In c (Category_objects db) /\ Post.category row = Some (Category.id c)
    /\ PostBody.category (data request) = Value (Category.name c)
    /\ NoDup (Post.tag row)
    /\ (forall t, In t (Post.tag row) ->
                  exists x, In x (Tag_objects db) /\ Tag.id x = t)
    /\ Post.created_at row = now 0 /\ Post.updated_at row = now 1.
Proof.
  intros Hm Hk. destruct request as [m u k q b]. cbn [method pk data user] in *.
  subst m k. unfold dispatch, check_permissions. cbn.
  destruct u as [caller|]; cbn; [|discriminate].
  unfold CreateModelMixin_create, respond.
  cbn [to_internal_value perform_create serializer_data PostViewSet data user].
  destruct (PostSerializer_to_internal_value db false b) as [[errors|v]|e] eqn:Hv;
    try discriminate.
  destruct (post_validated db b v Hv)
    as ((s & _ & Ht & Hne & Hlen) & (s' & _ & Hc & Hne') & (c & Hcat & Hin & Hname)
        & (names & ts & _ & Hts & HF)).
  unfold save_as_author, PostSerializer_create. rewrite Ht, Hc, Hcat, Hts.
  cbn [or_default option_map].
  destruct (PostSerializer_data _ _); [|discriminate].
  intros [= _ <-].
  eexists. exists caller, c. cbn [with_posts Post_objects Post_seq].
  repeat split; cbn; auto.
  - apply NoDup_nodup.
  - intros t Hin'. apply nodup_In in Hin'. apply in_map_iff in Hin' as (x & <- & Hx).
    destruct (Forall2_In_r _ _ _ _ HF Hx) as (name & _ & Hxin & _).
    exists x. auto.
Qed.

Lemma created_post_row_witness :
  exists row caller c,
    user spoofed_post = Some caller
    /\ Post_objects (snd (dispatch PostViewSet (ticking 30) thread_store spoofed_post))
       = Post_objects thread_store ++ [row]
    /\ Post.author row = User.id caller
    /\ Post.category row = Some (Category.id c).
Proof.
  destruct (created_post_row (ticking 30) thread_store spoofed_post
              (PostData.mk 2 "Second" "More" "bob" (Some "Tech") ["News"] 30 31)
              (snd (dispatch PostViewSet (ticking 30) thread_store spoofed_post)))
    as (row & caller & c & Hu & Hrows & _ & _ & Hauthor & _ & _ & _ & _ & Hcat & _).
  - reflexivity.
  - reflexivity.
  - reflexivity.
  - exists row, caller, c. auto.
Defined.

(* ------------------------------------------------------------------ *)
(** ** Unique names of categories and tags *)

Lemma replace_row_absent {A : Type} (pk : A -> nat) (row : A) (rows : list A) :
  (forall x, In x rows -> pk x <> pk row) -> replace_row pk row rows = rows.
Proof.
  intros H. unfold replace_row. rewrite <- (map_id rows) at 2.
  apply map_ext_in. intros x Hx. apply H in Hx. apply Nat.eqb_neq in Hx.
  now rewrite Hx.
Qed.

Lemma replace_row_In {A : Type} (pk : A -> nat) (row : A) (rows : list A) (z : A) :
  In z (replace_row pk row rows) -> z = row \/ In z rows.
Proof.
  unfold replace_row. intros H. apply in_map_iff in H as (x & <- & Hx).
  destruct (pk x =? pk row); auto.
Qed.

Lemma replace_row_names {A : Type} (pk : A -> nat) (nm : A -> string) (row : A)
    (rows : list A) :
  NoDup (map pk rows) -> NoDup (map nm rows) ->
  (forall x, In x rows -> nm x = nm row -> pk x = pk row) ->
  NoDup (map nm (replace_row pk row rows)).
Proof.
  induction rows as [|x xs IH]; intros Hpk Hnm Hrow; [constructor|].
  inversion Hpk as [|? ? Hpkx Hpk']; subst.
  inversion Hnm as [|? ? Hnmx Hnm']; subst.
  change (replace_row pk row (x :: xs))
    with ((if pk x =? pk row then row else x) :: replace_row pk row xs).
  destruct (pk x =? pk row) eqn:E.
  - apply Nat.eqb_eq in E. rewrite replace_row_absent.
    + cbn [map]. constructor; [|exact Hnm'].
      intros Hin. apply in_map_iff in Hin as (y & Hy & Hyin).
      apply Hpkx. rewrite E, <- (Hrow y (or_intror Hyin) Hy). now apply in_map.
    + intros y Hy Hpky. apply Hpkx. rewrite E, <- Hpky. now apply in_map.
  - apply Nat.eqb_neq in E. cbn [map]. constructor.
    + intros Hin. apply in_map_iff in Hin as (z & Hz & Hzin).
      apply replace_row_In in Hzin as [->|Hzin].
      * apply E. apply Hrow; [now left | now symmetry].
      * apply Hnmx. rewrite <- Hz. now apply in_map.
    + apply IH; auto. intros y Hy. apply Hrow. now right.
Qed.

Lemma UniqueValidator_passes (taken : list (nat * string)) (instance : option nat)
    (v : string) :
  UniqueValidator taken instance v = [] ->
  forall r, In r taken -> snd r = v -> instance = Some (fst r).
Proof.
  unfold UniqueValidator, codes_if.
  destruct (existsb _ taken) eqn:E; [discriminate|]. intros _ r Hr Hv.
  rewrite <- not_true_iff_false, existsb_exists in E.
  destruct instance as [i|].
  - destruct (fst r =? i) eqn:Ei; [apply Nat.eqb_eq in Ei; now subst|].
    exfalso. apply E. exists r. split; [exact Hr|].
    rewrite Hv, String.eqb_refl, Ei. reflexivity.
  - exfalso. apply E. exists r. split; [exact Hr|].
    rewrite Hv, String.eqb_refl. reflexivity.
Qed.

Lemma NoDup_snoc {A : Type} (l : list A) (x : A) :
  NoDup l -> ~ In x l -> NoDup (l ++ [x]).
Proof.
  intros Hl Hx. apply NoDup_app; [exact Hl | repeat constructor; auto |].
  intros y Hy [<-|[]]. now apply Hx.
Qed.

Lemma NoDup_map_filter_gen {Row Key : Type} (keep : Row -> bool) (key : Row -> Key)
    (rows : list Row) :
  NoDup (map key rows) -> NoDup (map key (filter keep rows)).
Proof.
  intros Hrows. induction rows as [|row rest IH]; [constructor|].
  cbn [map] in Hrows. apply NoDup_cons_iff in Hrows as [Hfresh Hrest].
  cbn [filter]. destruct (keep row); [|now apply IH].
  cbn [map]. apply NoDup_cons; [|now apply IH].
  intros Hin. apply Hfresh. apply in_map_iff in Hin as (other & <- & Hother).
  apply in_map. now apply filter_In in Hother.
Qed.

Lemma NoDup_map_inj_gen {A B : Type} (f : A -> B) (l : list A) (x y : A) :
  NoDup (map f l) -> In x l -> In y l -> f x = f y -> x = y.
Proof.
  induction l as [|z zs IH]; simpl; [contradiction|].
  intros Hnd Hx Hy Hf. inversion Hnd as [|? ? Hnotin Hnd']; subst.
  destruct Hx as [->|Hx], Hy as [->|Hy]; auto.
  - exfalso. apply Hnotin. rewrite Hf. now apply in_map.
  - exfalso. apply Hnotin. rewrite <- Hf. now apply in_map.
Qed.

Lemma Category_create_ok (now : Clock) (db : Store) (request : Request NameBody.t) :
  categories_ok db ->
  categories_ok (snd (CreateModelMixin_create CategoryViewSet now db request)).
Proof.
  intros (Hid & Hname & Hseq).
  unfold CreateModelMixin_create, respond.
  cbn [to_internal_value perform_create serializer_data CategoryViewSet].
  unfold CategorySerializer_to_internal_value.
  destruct (CharField false (Some 100) _ (NameBody.name (data request)))
    as [v| |codes] eqn:Hv; cbn [field_errors validated];
    [|now apply CharField_required in Hv|cbn; repeat split; assumption].
  apply CharField_valid in Hv as (s & _ & _ & _ & _ & _ & Hunique).
  cbn. unfold categories_ok. cbn. rewrite !map_app. cbn.
  rewrite Forall_forall in Hseq. repeat split.
  - apply NoDup_snoc; [exact Hid|]. intros Hin.
    apply in_map_iff in Hin as (c & Hc & Hcin). specialize (Hseq c Hcin). lia.
  - apply NoDup_snoc; [exact Hname|]. intros Hin.
    apply in_map_iff in Hin as (c & Hc & Hcin).
    assert (Hr : In (Category.id c, Category.name c)
                   (map (fun c => (Category.id c, Category.name c))
                      (Category_objects db)))
      by (apply in_map_iff; exists c; auto).
    pose proof (UniqueValidator_passes _ _ _ Hunique _ Hr Hc) as E. discriminate E.
  - apply Forall_app. split.
    + apply Forall_forall. intros c Hc. specialize (Hseq c Hc). lia.
    + constructor; [|constructor]. cbn. lia.
Qed.

Lemma Category_update_ok (now : Clock) (partial : bool) (db : Store)
    (request : Request NameBody.t) (k : nat) :
  categories_ok db ->
  categories_ok (snd (UpdateModelMixin_update CategoryViewSet now partial db request k)).
Proof.
  intros (Hid & Hname & Hseq).
  unfold UpdateModelMixin_update, get_object, respond.
  cbn [get_queryset lookup_field to_internal_value perform_update
       serializer_data CategoryViewSet].
  destruct (get _ _) as [obj|e] eqn:Hget;
    [|destruct e; cbn; repeat split; assumption].
  apply get_In in Hget as [Hobj _].
  destruct (check_object_permissions _ _ _); [|cbn; repeat split; assumption].
  unfold CategorySerializer_to_internal_value.
  destruct (CharField partial (Some 100) _ (NameBody.name (data request)))
    as [v| |codes] eqn:Hv; cbn [field_errors validated];
    [| |cbn; repeat split; assumption].
  - apply CharField_valid in Hv as (s & _ & _ & _ & _ & _ & Hunique).
    cbn. unfold categories_ok. cbn.
    rewrite (map_replace_row Category.id Category.id) by auto.
    repeat split; [exact Hid | |].
    + apply replace_row_names; auto. cbn. intros x Hx Hxv.
      assert (Hr : In (Category.id x, Category.name x)
                     (map (fun c => (Category.id c, Category.name c))
                        (Category_objects db)))
        by (apply in_map_iff; exists x; auto).
      pose proof (UniqueValidator_passes _ _ _ Hunique _ Hr Hxv) as E.
      cbn in E. now injection E.
    + apply Forall_replace_row; [exact Hseq|]. cbn.
      rewrite Forall_forall in Hseq. now apply Hseq.
  - cbn. unfold categories_ok. cbn.
    rewrite (map_replace_row Category.id Category.id) by auto.
    repeat split; [exact Hid | |].
    + apply replace_row_names; auto. cbn. intros x Hx Hxv.
      f_equal. exact (NoDup_map_inj_gen Category.name _ x obj Hname Hx Hobj Hxv).
    + apply Forall_replace_row; [exact Hseq|]. cbn.
      rewrite Forall_forall in Hseq. now apply Hseq.
Qed.

Lemma Category_destroy_ok (now : Clock) (db : Store)
    (request : Request NameBody.t) (k : nat) :
  categories_ok db ->
  categories_ok (snd (DestroyModelMixin_destroy CategoryViewSet db request k)).
Proof.
  intros (Hid & Hname & Hseq).
  unfold DestroyModelMixin_destroy.
  destruct (get_object _ _ _ _) as [r|obj]; [repeat split; assumption|].
  cbn. unfold categories_ok. cbn. repeat split.
  - now apply NoDup_map_filter_gen.
  - now apply NoDup_map_filter_gen.
  - rewrite Forall_forall in *. intros c Hc. apply filter_In in Hc as [Hc _]. auto.
Qed.

Lemma Category_requests_ok (now : Clock) (db : Store) (request : Request NameBody.t) :
  categories_ok db ->
  categories_ok (snd (dispatch CategoryViewSet now db request)).
Proof.
  intros Hok.
  destruct (is_safe (method request)) eqn:Hsafe.
  { rewrite (dispatch_unchanged CategoryViewSet now db request
               (fst (dispatch CategoryViewSet now db request))
               (snd (dispatch CategoryViewSet now db request)));
      [auto | now destruct (dispatch _ _ _ _) | now left]. }
  unfold dispatch. destruct (negb _); [exact Hok|].
  destruct (method request); try discriminate Hsafe;
    destruct (pk request) as [k|]; try exact Hok.
  - now apply Category_create_ok.
  - now apply Category_update_ok.
  - now apply Category_update_ok.
  - now apply Category_destroy_ok.
Qed.

Lemma Tag_create_ok (now : Clock) (db : Store) (request : Request NameBody.t) :
  tags_ok db ->
  tags_ok (snd (CreateModelMixin_create TagViewSet now db request)).
Proof.
  intros (Hid & Hname & Hseq).
  unfold CreateModelMixin_create, respond.
  cbn [to_internal_value perform_create serializer_data TagViewSet].
  unfold TagSerializer_to_internal_value.
  destruct (CharField false (Some 50) _ (NameBody.name (data request)))
    as [v| |codes] eqn:Hv; cbn [field_errors validated];
    [|now apply CharField_required in Hv|cbn; repeat split; assumption].
  apply CharField_valid in Hv as (s & _ & _ & _ & _ & _ & Hunique).
  cbn. unfold tags_ok. cbn. rewrite !map_app. cbn.
  rewrite Forall_forall in Hseq. repeat split.
  - apply NoDup_snoc; [exact Hid|]. intros Hin.
    apply in_map_iff in Hin as (c & Hc & Hcin). specialize (Hseq c Hcin). lia.
  - apply NoDup_snoc; [exact Hname|]. intros Hin.
    apply in_map_iff in Hin as (c & Hc & Hcin).
    assert (Hr : In (Tag.id c, Tag.name c)
                   (map (fun c => (Tag.id c, Tag.name c))
                      (Tag_objects db)))
      by (apply in_map_iff; exists c; auto).
    pose proof (UniqueValidator_passes _ _ _ Hunique _ Hr Hc) as E. discriminate E.
  - apply Forall_app. split.
    + apply Forall_forall. intros c Hc. specialize (Hseq c Hc). lia.
    + constructor; [|constructor]. cbn. lia.
Qed.

Lemma Tag_update_ok (now : Clock) (partial : bool) (db : Store)
    (request : Request NameBody.t) (k : nat) :
  tags_ok db ->
  tags_ok (snd (UpdateModelMixin_update TagViewSet now partial db request k)).
Proof.
  intros (Hid & Hname & Hseq).
  unfold UpdateModelMixin_update, get_object, respond.
  cbn [get_queryset lookup_field to_internal_value perform_update
       serializer_data TagViewSet].
  destruct (get _ _) as [obj|e] eqn:Hget;
    [|destruct e; cbn; repeat split; assumption].
  apply get_In in Hget as [Hobj _].
  destruct (check_object_permissions _ _ _); [|cbn; repeat split; assumption].
  unfold TagSerializer_to_internal_value.
  destruct (CharField partial (Some 50) _ (NameBody.name (data request)))
    as [v| |codes] eqn:Hv; cbn [field_errors validated];
    [| |cbn; repeat split; assumption].
  - apply CharField_valid in Hv as (s & _ & _ & _ & _ & _ & Hunique).
    cbn. unfold tags_ok. cbn.
    rewrite (map_replace_row Tag.id Tag.id) by auto.
    repeat split; [exact Hid | |].
    + apply replace_row_names; auto. cbn. intros x Hx Hxv.
      assert (Hr : In (Tag.id x, Tag.name x)
                     (map (fun c => (Tag.id c, Tag.name c))
                        (Tag_objects db)))
        by (apply in_map_iff; exists x; auto).
      pose proof (UniqueValidator_passes _ _ _ Hunique _ Hr Hxv) as E.
      cbn in E. now injection E.
    + apply Forall_replace_row; [exact Hseq|]. cbn.
      rewrite Forall_forall in Hseq. now apply Hseq.
  - cbn. unfold tags_ok. cbn.
    rewrite (map_replace_row Tag.id Tag.id) by auto.
    repeat split; [exact Hid | |].
    + apply replace_row_names; auto. cbn. intros x Hx Hxv.
      f_equal. exact (NoDup_map_inj_gen Tag.name _ x obj Hname Hx Hobj Hxv).
    + apply Forall_replace_row; [exact Hseq|]. cbn.
      rewrite Forall_forall in Hseq. now apply Hseq.
Qed.

Lemma Tag_destroy_ok (now : Clock) (db : Store)
    (request : Request NameBody.t) (k : nat) :
  tags_ok db ->
  tags_ok (snd (DestroyModelMixin_destroy TagViewSet db request k)).
Proof.
  intros (Hid & Hname & Hseq).
  unfold DestroyModelMixin_destroy.
  destruct (get_object _ _ _ _) as [r|obj]; [repeat split; assumption|].
  cbn. unfold tags_ok. cbn. repeat split.
  - now apply NoDup_map_filter_gen.
  - now apply NoDup_map_filter_gen.
  - rewrite Forall_forall in *. intros c Hc. apply filter_In in Hc as [Hc _]. auto.
Qed.

Lemma Tag_requests_ok (now : Clock) (db : Store) (request : Request NameBody.t) :
  tags_ok db ->
  tags_ok (snd (dispatch TagViewSet now db request)).
Proof.
  intros Hok.
  destruct (is_safe (method request)) eqn:Hsafe.
  { rewrite (dispatch_unchanged TagViewSet now db request
               (fst (dispatch TagViewSet now db request))
               (snd (dispatch TagViewSet now db request)));
      [auto | now destruct (dispatch _ _ _ _) | now left]. }
  unfold dispatch. destruct (negb _); [exact Hok|].
  destruct (method request); try discriminate Hsafe;
    destruct (pk request) as [k|]; try exact Hok.
  - now apply Tag_create_ok.
  - now apply Tag_update_ok.
  - now apply Tag_update_ok.
  - now apply Tag_destroy_ok.
Qed.

Lemma UniqueValidator_fails (taken : list (nat * string)) (v : string) :
  In v (map snd taken) -> UniqueValidator taken None v = ["unique"].
Proof.
  intros Hin. unfold UniqueValidator, codes_if.
  assert (E : existsb (fun r => String.eqb (snd r) v && negb false) taken = true).
  { apply existsb_exists. apply in_map_iff in Hin as (r & Hr & Hrin).
    exists r. split; [exact Hrin|]. rewrite Hr, String.eqb_refl. reflexivity. }
  now rewrite E.
Qed.

Lemma CharField_taken (partial : bool) (max_length : option nat)
    (taken : list (nat * string)) (s : string) :
  In (strip s) (map snd taken) ->
  exists codes,
    CharField partial max_length (UniqueValidator taken None) (Value s)
    = Invalid codes.
Proof.
  intros Hin. unfold CharField.
  destruct (String.eqb (strip s) ""); [eexists; reflexivity|].
  rewrite (UniqueValidator_fails taken (strip s) Hin).
  eexists; reflexivity.
Qed.

(** X15. Requests to the category endpoint keep the category table
    within its constraints, and so do requests to the tag endpoint with
    the tag table: keys stay unique and below the next key, and names
    stay unique.  A new category or tag whose name, white space
    removed, is already taken is answered 400 and not stored. *)
Theorem names_stay_unique :
  (forall now db request,
      categories_ok db ->
      categories_ok (snd (dispatch CategoryViewSet now db request)))
  /\ (forall now db request,
        tags_ok db -> tags_ok (snd (dispatch TagViewSet now db request)))
  /\ (forall now db u q s,
        In (strip s) (map Category.name (Category_objects db)) ->
        exists errors,
          dispatch CategoryViewSet now db
            (mkRequest POST u None q (NameBody.mk (Value s)))
          = (HTTP_400_BAD_REQUEST errors, db))
  /\ (forall now db u q s,
        In (strip s) (map Tag.name (Tag_objects db)) ->
        exists errors,
          dispatch TagViewSet now db
            (mkRequest POST u None q (NameBody.mk (Value s)))
          = (HTTP_400_BAD_REQUEST errors, db)).
Proof.
  split; [|split; [|split]].
  - intros now db request. apply Category_requests_ok.
  - intros now db request. apply Tag_requests_ok.
  - intros now db u q s Hin.
    destruct (CharField_taken false (Some 100)
                (map (fun c => (Category.id c, Category.name c)) (Category_objects db)) s)
      as [codes Hcodes]; [now rewrite map_map|].
    unfold dispatch, check_permissions, CreateModelMixin_create. cbn.
    unfold CategorySerializer_to_internal_value. cbn [NameBody.name option_map].
    rewrite Hcodes. eexists. reflexivity.
  - intros now db u q s Hin.
    destruct (CharField_taken false (Some 50)
                (map (fun c => (Tag.id c, Tag.name c)) (Tag_objects db)) s)
      as [codes Hcodes]; [now rewrite map_map|].
    unfold dispatch, check_permissions, CreateModelMixin_create. cbn.
    unfold TagSerializer_to_internal_value. cbn [NameBody.name option_map].
    rewrite Hcodes. eexists. reflexivity.
Qed.

Lemma names_stay_unique_witness :
  tags_ok (snd (dispatch TagViewSet (ticking 30) thread_store
                  (anonymous_named POST None (Value "Opinion"))))
  /\ exists errors,
       dispatch CategoryViewSet (ticking 30) thread_store
         (mkRequest POST None None no_query (NameBody.mk (Value " Tech ")))
       = (HTTP_400_BAD_REQUEST errors, thread_store).
Proof.
  destruct names_stay_unique as (_ & Htag & Hcat & _). split.
  - apply Htag. unfold tags_ok; simpl; rows.
  - apply Hcat. simpl. now left.
Defined.

(* ------------------------------------------------------------------ *)
(** ** Posts after the deletion of a category or a tag *)

Lemma filter_filter_pk {A : Type} (pk : A -> nat) (k gone : nat) (l : list A) :
  k <> gone ->
  filter (fun x => pk x =? k) (filter (fun x => negb (pk x =? gone)) l)
  = filter (fun x => pk x =? k) l.
Proof.
  intros Hne. induction l as [|x xs IH]; [reflexivity|]. simpl.
  destruct (pk x =? gone) eqn:Eg; simpl.
  - apply Nat.eqb_eq in Eg.
    assert (E : (pk x =? k) = false) by (apply Nat.eqb_neq; lia).
    now rewrite E.
  - now rewrite IH.
Qed.

Lemma get_after_delete {A : Type} (pk : A -> nat) (k gone : nat) (l : list A) :
  k <> gone ->
  get (fun x => pk x =? k) (filter (fun x => negb (pk x =? gone)) l)
  = get (fun x => pk x =? k) l.
Proof. intros Hne. unfold get. now rewrite filter_filter_pk. Qed.

Lemma mem_filter_other (k gone : nat) (l : list nat) :
  (k =? gone) = false ->
  mem k (filter (fun i => negb (i =? gone)) l) = mem k l.
Proof.
  intros E. unfold mem. induction l as [|i rest IH]; [reflexivity|].
  cbn [filter]. destruct (i =? gone) eqn:Ei; cbn [negb existsb].
  - apply Nat.eqb_eq in Ei. subst i. rewrite E. exact IH.
  - now rewrite IH.
Qed.

Lemma Post_tags_after_delete (db : Store) (t : Tag.t) (p : Post.t) :
  Post_tags (Tag_delete db t)
    (Post_with_tag p (filter (fun i => negb (i =? Tag.id t)) (Post.tag p)))
  = filter (fun x => negb (Tag.id x =? Tag.id t)) (Post_tags db p).
Proof.
  unfold Post_tags. cbn [Tag_delete Tag_objects Post_with_tag Post.tag].
  induction (Tag_objects db) as [|x xs IH]; [reflexivity|].
  cbn [filter]. destruct (Tag.id x =? Tag.id t) eqn:E; cbn [negb].
  - destruct (mem (Tag.id x) (Post.tag p)); cbn [filter]; rewrite ?E; exact IH.
  - cbn [filter]. rewrite (mem_filter_other _ _ _ E).
    destruct (mem (Tag.id x) (Post.tag p)); cbn [filter]; rewrite ?E; cbn [negb];
      now rewrite IH.
Qed.

(** X16. Deleting a category or a tag breaks no post.  A post that the
    serializer could represent is still stored, under the same key, and
    can still be represented: after the deletion of its category with
    [null] for category and everything else as before; after the
    deletion of one of its tags with that tag left out of its tag list;
    and unchanged when the category or tag deleted was not its own. *)
Theorem posts_survive_category_and_tag_delete (db : Store) (p : Post.t)
    (d : PostData.t) :
  In p (Post_objects db) -> PostSerializer_data db p = Ok d ->
  (forall c,
      In (without_category c p) (Post_objects (Category_delete db c))
      /\ Post.id (without_category c p) = Post.id p
      /\ PostSerializer_data (Category_delete db c) (without_category c p)
         = Ok (if eq_opt (Post.category p) (Category.id c)
               then PostData_with d None (PostData.tag d) else d))
  /\ (forall t,
        In (without_tag t p) (Post_objects (Tag_delete db t))
        /\ Post.id (without_tag t p) = Post.id p
        /\ PostData.tag d = map Tag.name (Post_tags db p)
        /\ PostSerializer_data (Tag_delete db t) (without_tag t p)
           = Ok (PostData_with d (PostData.category d)
                   (map Tag.name
                      (filter (fun x => negb (Tag.id x =? Tag.id t))
                         (Post_tags db p))))).
Proof.
  intros Hp Hd. unfold PostSerializer_data in Hd.
  apply bind_Ok in Hd as (a & Ha & Hd). apply bind_Ok in Hd as (oc & Hoc & Hd).
  injection Hd as <-.
  split.
  - intros c. split; [|split].
    + cbn [Category_delete Post_objects]. unfold without_category.
      apply in_map_iff. exists p. auto.
    + unfold without_category. now destruct (eq_opt _ _).
    + unfold without_category, PostSerializer_data, Post_author in *.
      destruct (eq_opt (Post.category p) (Category.id c)) eqn:E.
      * cbn. rewrite Ha. reflexivity.
      * cbn [Category_delete User_objects Category_objects Tag_objects].
        rewrite Ha. cbn [bind].
        destruct (Post.category p) as [k|]; cbn [eq_opt] in E.
        -- apply Nat.eqb_neq in E. rewrite get_after_delete by exact E.
           rewrite Hoc. reflexivity.
        -- rewrite Hoc. reflexivity.
  - intros t. split; [|split; [|split]].
    + cbn [Tag_delete Post_objects]. unfold without_tag.
      apply in_map_iff. exists p. auto.
    + reflexivity.
    + reflexivity.
    + unfold without_tag, PostSerializer_data. rewrite Post_tags_after_delete.
      unfold Post_author in *.
      cbn [Tag_delete User_objects Category_objects Tag_objects
           Post_with_tag Post.author Post.category Post.tag].
      rewrite Ha. cbn [bind]. rewrite Hoc. reflexivity.
Qed.

Lemma posts_survive_category_and_tag_delete_witness :
  PostSerializer_data (Category_delete thread_store (Category.mk 1 "Tech"))
    (without_category (Category.mk 1 "Tech") intro)
  = Ok (PostData.mk 1 "Intro" "Hello" "alice" None ["News"] 10 10).
Proof.
  destruct (posts_survive_category_and_tag_delete thread_store intro
              (PostData.mk 1 "Intro" "Hello" "alice" (Some "Tech") ["News"] 10 10))
    as [Hcat _].
  - simpl; tauto.
  - reflexivity.
  - exact (proj2 (proj2 (Hcat (Category.mk 1 "Tech")))).
Defined.

(* ------------------------------------------------------------------ *)
(** ** What the requests to the post endpoint do to the table *)

Lemma post_queryset_In (db : Store) (q : QueryParams) (p : Post.t) :
  In p (get_queryset PostViewSet db q) <-> In p (Post_objects db).
Proof.
  cbn [get_queryset PostViewSet]. split; intros H.
  - now apply (Permutation_in p (Permutation_sym
                                   (order_by_created_at_desc_perm (Post_objects db)))).
  - now apply (Permutation_in p (order_by_created_at_desc_perm (Post_objects db))).
Qed.

Lemma create_post_shape (now : Clock) (db : Store)
    (u : option User.t) (q : QueryParams) (b : PostBody.t)
    (r : Response PostData.t) (db' : Store) :
  dispatch PostViewSet now db (mkRequest POST u None q b) = (r, db') ->
  db' = db
  \/ exists row caller,
       u = Some caller
       /\ db' = with_posts db (Post_objects db ++ [row]) (S (Post_seq db))
       /\ Post.id row = Post_seq db
       /\ Post.author row = User.id caller.
Proof.
  unfold dispatch, check_permissions. cbn.
  destruct u as [caller|]; cbn; [|intros [= <- <-]; now left].
  unfold CreateModelMixin_create, respond.
  cbn [to_internal_value perform_create serializer_data PostViewSet data user].
  destruct (PostSerializer_to_internal_value db false b) as [[errors|v]|e];
    try (intros [= <- <-]; now left).
  unfold save_as_author, PostSerializer_create.
  destruct (PostSerializer_data _ _); intros [= <- <-];
    right; eexists; exists caller; repeat split.
Qed.

Lemma update_post_shape (now : Clock) (db : Store) (m : Method)
    (u : option User.t) (k : nat) (q : QueryParams) (b : PostBody.t)
    (r : Response PostData.t) (db' : Store) :
  In m [PUT; PATCH] ->
  dispatch PostViewSet now db (mkRequest m u (Some k) q b) = (r, db') ->
  db' = db
  \/ exists obj row caller,
       u = Some caller
       /\ In obj (Post_objects db) /\ Post.id obj = k
       /\ Post.author obj = User.id caller
       /\ db' = with_posts db (replace_row Post.id row (Post_objects db)) (Post_seq db)
       /\ Post.id row = Post.id obj
       /\ Post.author row = Post.author obj
       /\ Post.created_at row = Post.created_at obj
       /\ Post.updated_at row = now 0.
Proof.
  intros Hm.
  assert (Hsafe : is_safe m = false) by (destruct Hm as [<-|[<-|[]]]; reflexivity).
  unfold dispatch, check_permissions.
  cbn [method user pk data query_params permission_classes PostViewSet
       forallb has_permission IsAuthorOrReadOnly].
  rewrite Hsafe.
  destruct u as [caller|]; cbn [is_authenticated andb negb];
    [|intros [= <- <-]; now left].
  assert (Hupdate : forall partial,
             UpdateModelMixin_update PostViewSet now partial db
               (mkRequest m (Some caller) (Some k) q b) k = (r, db') ->
             db' = db
             \/ exists obj row caller0,
                  Some caller = Some caller0
                  /\ In obj (Post_objects db) /\ Post.id obj = k
                  /\ Post.author obj = User.id caller0
                  /\ db' = with_posts db (replace_row Post.id row (Post_objects db))
                             (Post_seq db)
                  /\ Post.id row = Post.id obj
                  /\ Post.author row = Post.author obj
                  /\ Post.created_at row = Post.created_at obj
                  /\ Post.updated_at row = now 0).
  { intros partial. unfold UpdateModelMixin_update, get_object, respond.
    destruct (get _ _) as [obj|e] eqn:Hget;
      [|destruct e; intros [= <- <-]; now left].
    apply get_In in Hget as [Hin Hid]. cbn [lookup_field PostViewSet] in Hid.
    apply Nat.eqb_eq in Hid. apply post_queryset_In in Hin.
    unfold check_object_permissions.
    cbn [permission_classes PostViewSet forallb has_object_permission
         IsAuthorOrReadOnly method user].
    rewrite Hsafe. unfold author_of, Post_HasAuthor.
    destruct (Post.author obj =? User.id caller) eqn:Hauthor;
      cbn [andb]; [|intros [= <- <-]; now left].
    apply Nat.eqb_eq in Hauthor.
    cbn [to_internal_value perform_update serializer_data PostViewSet data].
    destruct (PostSerializer_to_internal_value db partial b)
      as [[errors|v]|e]; try (intros [= <- <-]; now left).
    unfold PostSerializer_update.
    destruct (PostSerializer_data _ _); intros [= <- <-];
      right; exists obj; eexists; exists caller; repeat split; auto. }
  destruct Hm as [<-|[<-|[]]]; apply Hupdate.
Qed.

Lemma delete_post_shape (now : Clock) (db : Store)
    (u : option User.t) (k : nat) (q : QueryParams) (b : PostBody.t)
    (r : Response PostData.t) (db' : Store) :
  dispatch PostViewSet now db (mkRequest DELETE u (Some k) q b) = (r, db') ->
  db' = db
  \/ exists obj caller,
       u = Some caller
       /\ In obj (Post_objects db) /\ Post.id obj = k
       /\ Post.author obj = User.id caller
       /\ db' = Post_delete db obj.
Proof.
  unfold dispatch, check_permissions.
  cbn [method user pk data query_params permission_classes PostViewSet
       forallb has_permission IsAuthorOrReadOnly is_safe SAFE_METHODS existsb
       Method_eqb orb].
  destruct u as [caller|]; cbn [is_authenticated andb negb];
    [|intros [= <- <-]; now left].
  unfold DestroyModelMixin_destroy, get_object.
  destruct (get _ _) as [obj|e] eqn:Hget;
    [|destruct e; intros [= <- <-]; now left].
  apply get_In in Hget as [Hin Hid]. cbn [lookup_field PostViewSet] in Hid.
  apply Nat.eqb_eq in Hid. apply post_queryset_In in Hin.
  unfold check_object_permissions.
  cbn [permission_classes PostViewSet forallb has_object_permission
       IsAuthorOrReadOnly method user is_safe SAFE_METHODS existsb Method_eqb orb].
  unfold author_of, Post_HasAuthor.
  destruct (Post.author obj =? User.id caller) eqn:Hauthor; cbn [andb];
    [|intros [= <- <-]; now left].
  cbn [perform_destroy PostViewSet]. unfold Post_destroy, Model_delete.
  destruct (_ <=? max_cascade_levels); intros [= <- <-]; [|now left].
  apply Nat.eqb_eq in Hauthor.
  right. exists obj, caller. repeat split; auto.
Qed.

(* ------------------------------------------------------------------ *)
(** ** Referential integrity *)

Lemma get_unique {A : Type} (pk : A -> nat) (l : list A) (x : A) :
  NoDup (map pk l) -> In x l -> get (fun y => pk y =? pk x) l = Ok x.
Proof.
  intros Hnd Hx. unfold get.
  pose proof (filter_pk_unique pk (pk x) l Hnd) as Hlen.
  assert (Hin : In x (filter (fun y => pk y =? pk x) l))
    by (apply filter_In; split; [exact Hx | apply Nat.eqb_refl]).
  destruct (filter (fun y => pk y =? pk x) l) as [|y [|z zs]].
  - contradiction.
  - destruct Hin as [->|[]]. reflexivity.
  - simpl in Hlen. lia.
Qed.

Lemma integrity_resolves (db : Store) : store_integrity db -> keys_resolve db.
Proof.
  intros (Hu & Hp & _ & _ & Hc). unfold keys_resolve.
  rewrite Forall_forall in *. intros c Hin.
  destruct (Hc c Hin) as [(p & Hpin & Hpid) (u & Huin & Huid)].
  split.
  - exists p. unfold Comment_post. rewrite <- Hpid. now apply get_unique.
  - exists u. unfold Comment_author. rewrite <- Huid. now apply get_unique.
Qed.

Lemma replace_row_keeps_key {A : Type} (pk : A -> nat) (row : A) (rows : list A)
    (x : A) :
  In x rows -> exists y, In y (replace_row pk row rows) /\ pk y = pk x.
Proof.
  intros Hx. unfold replace_row.
  exists (if pk x =? pk row then row else x). split.
  - apply in_map_iff. exists x. auto.
  - destruct (pk x =? pk row) eqn:E; [|reflexivity].
    apply Nat.eqb_eq in E. now symmetry.
Qed.

Lemma comment_requests_keep_integrity (now : Clock) (db : Store)
    (request : Request CommentBody.t) :
  store_integrity db -> caller_stored db request ->
  store_integrity (snd (dispatch CommentViewSet now db request)).
Proof.
  intros Hok Hcaller.
  destruct (is_safe (method request)) eqn:Hsafe.
  { rewrite (dispatch_unchanged CommentViewSet now db request
               (fst (dispatch CommentViewSet now db request))
               (snd (dispatch CommentViewSet now db request)));
      [auto | now destruct (dispatch _ _ _ _) | now left]. }
  destruct request as [m u k q b]. unfold caller_stored in Hcaller.
  cbn [method user] in *.
  destruct (dispatch CommentViewSet now db (mkRequest m u k q b))
    as [r db'] eqn:H. cbn [snd].
  destruct Hok as (Hu & Hp & Hseq & Hpa & Hc).
  assert (Hrow : forall rows seq,
             Forall (fun c => (exists p, In p (Post_objects db)
                                         /\ Post.id p = Comment.post c)
                              /\ (exists x, In x (User_objects db)
                                            /\ User.id x = Comment.author c)) rows ->
             store_integrity (with_comments db rows seq))
    by (intros rows seq Hrows; repeat split; assumption).
  destruct m; try discriminate Hsafe; destruct k as [k|];
    try (assert (db' = db) as ->;
         [ revert H; unfold dispatch; cbn [method pk];
           destruct (negb _); now intros [= <- <-]
         | repeat split; assumption ]).
  - destruct (create_comment_shape now db u q b r db' H)
      as [[-> _]|(row & caller & -> & -> & _ & Hauthor & _ & _ & _
                  & (p & t & Hpin & Hpost & _) & _)];
      [repeat split; assumption|].
    apply Hrow. apply Forall_app. split; [exact Hc|].
    constructor; [|constructor]. split.
    + exists p. auto.
    + exists caller. split; [now apply Hcaller | now symmetry].
  - destruct (update_comment_shape now db PUT u k q b r db' (or_introl eq_refl) H)
      as [->|(obj & row & caller & _ & Hobj & _ & _ & -> & _ & Hauthor & _ & _ & _
              & Hpost)];
      [repeat split; assumption|].
    apply Hrow. apply Forall_replace_row; [exact Hc|].
    rewrite Forall_forall in Hc. destruct (Hc obj Hobj) as [Hop Hou].
    split; [|now rewrite Hauthor].
    destruct Hpost as [->|Hpost]; assumption.
  - destruct (update_comment_shape now db PATCH u k q b r db'
                (or_intror (or_introl eq_refl)) H)
      as [->|(obj & row & caller & _ & Hobj & _ & _ & -> & _ & Hauthor & _ & _ & _
              & Hpost)];
      [repeat split; assumption|].
    apply Hrow. apply Forall_replace_row; [exact Hc|].
    rewrite Forall_forall in Hc. destruct (Hc obj Hobj) as [Hop Hou].
    split; [|now rewrite Hauthor].
    destruct Hpost as [->|Hpost]; assumption.
  - destruct (delete_comment_shape now db u k q b r db' H)
      as [[-> _]|(obj & caller & _ & _ & _ & _ & -> & _)];
      [repeat split; assumption|].
    repeat split; try assumption.
    cbn [Comment_delete Comment_objects User_objects Post_objects].
    unfold delete_comments. rewrite Forall_forall in *. intros c Hin.
    apply filter_In in Hin as [Hin _]. now apply Hc.
Qed.

Lemma post_requests_keep_integrity (now : Clock) (db : Store)
    (request : Request PostBody.t) :
  store_integrity db -> caller_stored db request ->
  store_integrity (snd (dispatch PostViewSet now db request)).
Proof.
  intros Hok Hcaller.
  destruct (is_safe (method request)) eqn:Hsafe.
  { rewrite (dispatch_unchanged PostViewSet now db request
               (fst (dispatch PostViewSet now db request))
               (snd (dispatch PostViewSet now db request)));
      [auto | now destruct (dispatch _ _ _ _) | now left]. }
  destruct request as [m u k q b]. unfold caller_stored in Hcaller.
  cbn [method user] in *.
  destruct (dispatch PostViewSet now db (mkRequest m u k q b))
    as [r db'] eqn:H. cbn [snd].
  destruct Hok as (Hu & Hp & Hseq & Hpa & Hc).
  destruct m; try discriminate Hsafe; destruct k as [k|];
    try (assert (db' = db) as ->;
         [ revert H; unfold dispatch; cbn [method pk];
           destruct (negb _); now intros [= <- <-]
         | repeat split; assumption ]).
  - destruct (create_post_shape now db u q b r db' H)
      as [->|(row & caller & -> & -> & Hid & Hauthor)];
      [repeat split; assumption|].
    unfold store_integrity.
    cbn [with_posts User_objects Post_objects Comment_objects Post_seq].
    rewrite map_app. cbn [map]. rewrite Forall_forall in Hseq.
    repeat split.
    + exact Hu.
    + apply NoDup_snoc; [exact Hp|]. intros Hin.
      apply in_map_iff in Hin as (x & Hx & Hxin). specialize (Hseq x Hxin). lia.
    + apply Forall_app. split.
      * apply Forall_forall. intros x Hx. specialize (Hseq x Hx). lia.
      * constructor; [|constructor]. lia.
    + apply Forall_app. split; [exact Hpa|]. constructor; [|constructor].
      exists caller. split; [now apply Hcaller | now symmetry].
    + rewrite Forall_forall in *. intros c Hin.
      destruct (Hc c Hin) as [(p & Hpin & Hpid) Hau]. split; [|exact Hau].
      exists p. split; [apply in_or_app; now left | exact Hpid].
  - destruct (update_post_shape now db PUT u k q b r db' (or_introl eq_refl) H)
      as [->|(obj & row & caller & _ & Hobj & _ & _ & -> & Hid & Hauthor & _)];
      [repeat split; assumption|].
    unfold store_integrity.
    cbn [with_posts User_objects Post_objects Comment_objects Post_seq].
    rewrite (map_replace_row Post.id Post.id) by auto.
    rewrite Forall_forall in Hseq, Hpa.
    repeat split; try assumption.
    + apply Forall_replace_row; [now apply Forall_forall|].
      rewrite Hid. now apply Hseq.
    + apply Forall_replace_row; [now apply Forall_forall|].
      rewrite Hauthor. now apply Hpa.
    + rewrite Forall_forall in *. intros c Hin.
      destruct (Hc c Hin) as [(p & Hpin & Hpid) Hau]. split; [|exact Hau].
      destruct (replace_row_keeps_key Post.id row _ p Hpin) as (y & Hy & Hyid).
      exists y. split; [exact Hy | congruence].
  - destruct (update_post_shape now db PATCH u k q b r db'
                (or_intror (or_introl eq_refl)) H)
      as [->|(obj & row & caller & _ & Hobj & _ & _ & -> & Hid & Hauthor & _)];
      [repeat split; assumption|].
    unfold store_integrity.
    cbn [with_posts User_objects Post_objects Comment_objects Post_seq].
    rewrite (map_replace_row Post.id Post.id) by auto.
    rewrite Forall_forall in Hseq, Hpa.
    repeat split; try assumption.
    + apply Forall_replace_row; [now apply Forall_forall|].
      rewrite Hid. now apply Hseq.
    + apply Forall_replace_row; [now apply Forall_forall|].
      rewrite Hauthor. now apply Hpa.
    + rewrite Forall_forall in *. intros c Hin.
      destruct (Hc c Hin) as [(p & Hpin & Hpid) Hau]. split; [|exact Hau].
      destruct (replace_row_keeps_key Post.id row _ p Hpin) as (y & Hy & Hyid).
      exists y. split; [exact Hy | congruence].
  - destruct (delete_post_shape now db u k q b r db' H)
      as [->|(obj & caller & _ & _ & _ & _ & ->)];
      [repeat split; assumption|].
    unfold store_integrity.
    cbn [Post_delete User_objects Post_objects Comment_objects Post_seq].
    repeat split.
    + exact Hu.
    + now apply NoDup_map_filter.
    + rewrite Forall_forall in *. intros x Hx.
      apply filter_In in Hx as [Hx _]. now apply Hseq.
    + rewrite Forall_forall in *. intros x Hx.
      apply filter_In in Hx as [Hx _]. now apply Hpa.
    + rewrite Forall_forall in *. intros c Hin.
      apply delete_comments_In in Hin as [Hin Hnot].
      destruct (Hc c Hin) as [(p & Hpin & Hpid) Hau]. split; [|exact Hau].
      exists p. split; [|exact Hpid].
      apply filter_In. split; [exact Hpin|].
      apply negb_true_iff, Nat.eqb_neq. intros E. apply Hnot.
      apply collected_objs. apply in_map. unfold Post_comments.
      apply filter_In. split; [exact Hin|]. apply Nat.eqb_eq. congruence.
Qed.

(** X17. No request to the post or the comment endpoint sent by a
    stored user, or by nobody, leaves a dangling reference: if before
    the request users and posts have unique keys, every post has a
    stored author and every comment a stored post and a stored author,
    then the same holds after it, the deletion of a post with its
    cascade included; and in such a store the foreign keys of every
    comment resolve for the serializer. *)
Theorem references_stay_valid :
  (forall now db (request : Request CommentBody.t),
      store_integrity db -> caller_stored db request ->
      store_integrity (snd (dispatch CommentViewSet now db request)))
  /\ (forall now db (request : Request PostBody.t),
        store_integrity db -> caller_stored db request ->
        store_integrity (snd (dispatch PostViewSet now db request)))
  /\ (forall db, store_integrity db -> keys_resolve db).
Proof.
  split; [|split].
  - apply comment_requests_keep_integrity.
  - apply post_requests_keep_integrity.
  - apply integrity_resolves.
Qed.

Lemma thread_store_integrity : store_integrity thread_store.
Proof.
  unfold store_integrity; simpl.
  repeat match goal with
         | |- _ /\ _ => split
         | |- NoDup _ => constructor
         | |- Forall _ _ => constructor
         | |- ~ In _ _ => simpl; intuition (try discriminate; try lia)
         | |- _ < _ => simpl; lia
         end;
    first [ exists alice; simpl; split; [tauto | reflexivity]
          | exists bob; simpl; split; [tauto | reflexivity]
          | exists intro; simpl; split; [tauto | reflexivity] ].
Defined.

Lemma references_stay_valid_witness :
  store_integrity
    (snd (dispatch PostViewSet (ticking 30) thread_store
            (mkRequest DELETE (Some alice) (Some 1) no_query no_post)))
  /\ keys_resolve thread_store.
Proof.
  destruct references_stay_valid as (_ & Hpost & Hresolve). split.
  - apply Hpost; [exact thread_store_integrity|].
    intros u [= <-]. simpl; tauto.
  - apply Hresolve. exact thread_store_integrity.
Defined.

(* ------------------------------------------------------------------ *)
(** ** Requests one after the other *)

(** X18. Deleting a comment twice: once a deletion has been answered
    204, the same request sent again is answered 404 and changes
    nothing. *)
Theorem comment_deleted_twice (now now' : Clock) (db db' : Store)
    (request : Request CommentBody.t) :
  method request = DELETE ->
  dispatch CommentViewSet now db request = (HTTP_204_NO_CONTENT, db') ->
  dispatch CommentViewSet now' db' request = (HTTP_404_NOT_FOUND, db').
Proof.
  intros Hm H. destruct request as [m u [k|] q b]; cbn [method] in Hm; subst m.
  2:{ revert H. unfold dispatch. cbn [method pk]. destruct (negb _); discriminate. }
  destruct (delete_comment_shape now db u k q b _ db' H)
    as [[_ Hno]|(obj & caller & -> & Hobj & Hid & _ & -> & _)];
    [now contradiction Hno|].
  apply (dispatch_not_found CommentViewSet now' _ _ k).
  - reflexivity.
  - simpl; tauto.
  - reflexivity.
  - cbn [get_queryset CommentViewSet lookup_field query_params].
    intros o Ho Hoid.
    assert (Hin : In o (Comment_objects (Comment_delete db obj))).
    { unfold CommentViewSet_get_queryset in Ho.
      destruct (post_id q); [now apply filter_In in Ho | exact Ho]. }
    cbn [Comment_delete Comment_objects] in Hin.
    apply delete_comments_In in Hin as [_ Hnot]. apply Hnot.
    apply collected_objs. left. congruence.
Qed.

Lemma comment_deleted_twice_witness :
  let request := mkRequest DELETE (Some bob) (Some 2) no_query no_comment in
  dispatch CommentViewSet (ticking 31)
    (snd (dispatch CommentViewSet (ticking 30) thread_store request)) request
  = (HTTP_404_NOT_FOUND, snd (dispatch CommentViewSet (ticking 30) thread_store request)).
Proof.
  intros request.
  apply (comment_deleted_twice (ticking 30) (ticking 31) thread_store); reflexivity.
Defined.

(** X19. Creating and reading back: in a store with keys in order,
    the comment shown in the answer 201 to a create request is what any
    caller, signed in or not, gets afterwards when reading the key shown
    in that answer, and reading changes nothing. *)
Theorem created_comment_read_back (now now' : Clock) (db db' : Store)
    (request : Request CommentBody.t) (d : CommentData.t)
    (reader : option User.t) (b : CommentBody.t) :
  method request = POST -> pk request = None ->
  dispatch CommentViewSet now db request = (HTTP_201_CREATED d, db') ->
  pk_sorted db ->
  dispatch CommentViewSet now' db'
    (mkRequest GET reader (Some (CommentData.id d)) no_query b)
  = (HTTP_200_OK (Detail d), db').
Proof.
  intros Hm Hk H [_ Hseq].
  destruct request as [m u k q body]. cbn [method pk] in *. subst m k.
  destruct (create_comment_shape now db u q body _ db' H)
    as [[_ Hno]|(row & caller & Hdb' & _ & Hid & _ & _ & _ & _ & _ & _ & Hdata)];
    [now contradiction (Hno d)|].
  specialize (Hdata d eq_refl).
  assert (Hrows : Comment_objects db' = Comment_objects db ++ [row])
    by (now subst db').
  clear Hdb' H.
  assert (Hd : CommentData.id d = Comment.id row).
  { unfold CommentSerializer_data in Hdata.
    now apply to_representation_id in Hdata as (-> & _). }
  assert (Hget : get (fun o => Comment.id o =? CommentData.id d)
                   (Comment_objects db ++ [row]) = Ok row).
  { unfold get. rewrite filter_app, Hd.
    rewrite (filter_nil (fun o => Comment.id o =? Comment.id row) (Comment_objects db)).
    - cbn. now rewrite Nat.eqb_refl.
    - intros x Hx. apply Nat.eqb_neq. rewrite Forall_forall in Hseq.
      specialize (Hseq x Hx). lia. }
  unfold dispatch, check_permissions.
  cbn [method user pk query_params permission_classes CommentViewSet forallb
       has_permission IsAuthorOrReadOnly is_safe SAFE_METHODS existsb Method_eqb
       orb andb negb].
  unfold RetrieveModelMixin_retrieve, get_object, respond, check_object_permissions.
  cbn [get_queryset lookup_field CommentViewSet query_params serializer_data
       permission_classes method user forallb has_object_permission
       IsAuthorOrReadOnly is_safe SAFE_METHODS existsb Method_eqb orb andb].
  unfold CommentViewSet_get_queryset. cbn [post_id no_query].
  rewrite Hrows, Hget, Hdata. reflexivity.
Qed.

Lemma created_comment_read_back_witness :
  dispatch CommentViewSet (ticking 31)
    (snd (dispatch CommentViewSet (ticking 30) thread_store spoofed_comment))
    (mkRequest GET None (Some 5) no_query no_comment)
  = (HTTP_200_OK (Detail (CommentData.mk 5 "Intro" "Me too" "bob" None 30 31 [])),
     snd (dispatch CommentViewSet (ticking 30) thread_store spoofed_comment)).
Proof.
  apply (created_comment_read_back (ticking 30) (ticking 31) thread_store _ spoofed_comment
           (CommentData.mk 5 "Intro" "Me too" "bob" None 30 31 []) None no_comment).
  - reflexivity.
  - reflexivity.
  - reflexivity.
  - unfold pk_sorted; simpl; rows.
Defined.

(* ------------------------------------------------------------------ *)
(** ** Changing posts and comments *)



(** X21. Whole and partial change of a comment by its author.  A PUT
    that leaves out the post or the content is answered 400 and changes
    nothing, as long as the title submitted is not the title of two
    posts and keys are unique.  A PATCH that carries no key at all is
    accepted and saves the comment as it is: the row is replaced by
    itself with the time of the last change set to the time of the
    request. *)
Theorem comment_put_and_patch (now : Clock) (db : Store) (caller : User.t)
    (k : nat) (q : QueryParams) (obj : Comment.t) :
  get (fun o => Comment.id o =? k) (CommentViewSet_get_queryset db q) = Ok obj ->
  Comment.author obj = User.id caller ->
  (forall b,
      pk_unique db -> title_unambiguous db (CommentBody.post b) ->
      CommentBody.post b = Absent \/ CommentBody.content b = Absent ->
      exists errors,
        dispatch CommentViewSet now db (mkRequest PUT (Some caller) (Some k) q b)
        = (HTTP_400_BAD_REQUEST errors, db))
  /\ snd (dispatch CommentViewSet now db
            (mkRequest PATCH (Some caller) (Some k) q no_comment))
     = with_comments db (replace_row Comment.id (touched (now 0) obj) (Comment_objects db))
         (Comment_seq db).
Proof.
  intros Hget Hauthor.
  assert (Hcheck : forall m b,
             is_safe m = false ->
             check_object_permissions CommentViewSet
               (mkRequest m (Some caller) (Some k) q b) obj = true).
  { intros m b Hsafe.
    rewrite (guarded_object_check CommentViewSet eq_refl m caller (Some k) q b obj Hsafe).
    unfold author_of, Comment_HasAuthor. rewrite Hauthor. apply Nat.eqb_refl. }
  split.
  - intros b Hu Hone Hmissing.
    destruct (post_field_returns db _ Hone) as (po & Hpo & _).
    destruct (parent_field_returns db (CommentBody.parent b) Hu) as (pa & Hpa & _).
    unfold dispatch, check_permissions. cbn.
    unfold UpdateModelMixin_update, get_object.
    cbn [get_queryset lookup_field CommentViewSet query_params to_internal_value data].
    rewrite Hget, (Hcheck PUT b eq_refl).
    unfold CommentSerializer_to_internal_value. rewrite Hpo, Hpa. cbn [bind].
    destruct (field_errors "post" po
              ++ field_errors "content"
                   (CharField false None (fun _ => []) (CommentBody.content b))
              ++ field_errors "parent" pa) as [|e es] eqn:Herr;
      [|eexists; reflexivity].
    exfalso. apply app_eq_nil in Herr as [Hp Herr].
    apply app_eq_nil in Herr as [Hc _].
    destruct Hmissing as [Hmiss|Hmiss]; rewrite Hmiss in *.
    + cbn in Hpo. injection Hpo as <-. discriminate Hp.
    + discriminate Hc.
  - unfold dispatch, check_permissions. cbn.
    unfold UpdateModelMixin_update, get_object, respond.
    cbn [get_queryset lookup_field CommentViewSet query_params to_internal_value
         perform_update serializer_data data].
    rewrite Hget, (Hcheck PATCH no_comment eq_refl).
    cbn [CommentSerializer_to_internal_value no_comment CommentBody.post
         CommentBody.content CommentBody.parent SlugRelatedField CharField
         PrimaryKeyRelatedField bind field_errors validated app].
    unfold CommentSerializer_update.
    cbn [CommentValidated.post CommentValidated.content CommentValidated.parent
         or_default].
    fold (touched (now 0) obj).
    destruct (CommentSerializer_data _ _); reflexivity.
Qed.

Lemma comment_put_and_patch_witness :
  (exists errors,
     dispatch CommentViewSet (ticking 30) thread_store
       (mkRequest PUT (Some alice) (Some 1) no_query
          (CommentBody.mk (Value "Intro") Absent Absent Absent))
     = (HTTP_400_BAD_REQUEST errors, thread_store))
  /\ snd (dispatch CommentViewSet (ticking 30) thread_store
            (mkRequest PATCH (Some alice) (Some 1) no_query no_comment))
     = with_comments thread_store
         (replace_row Comment.id (touched 30 first_comment)
            (Comment_objects thread_store))
         (Comment_seq thread_store).
Proof.
  destruct (comment_put_and_patch (ticking 30) thread_store alice 1 no_query first_comment)
    as [Hput Hpatch].
  - reflexivity.
  - reflexivity.
  - split; [|exact Hpatch].
    apply Hput.
    + unfold pk_unique; simpl; rows.
    + intros t [= <-]. simpl. lia.
    + now right.
Defined.

(* ------------------------------------------------------------------ *)
(** ** Who is in the node of a comment *)

Lemma subtree_below (n y : CommentData.t) (x : nat) :
  In y (CommentData.replies n) -> In x (subtree_ids y) ->
  In x (flat_map subtree_ids (CommentData.replies n)).
Proof. intros Hy Hx. apply in_flat_map. eauto. Qed.

Lemma descendants_written_out (db : Store) (c : Comment.t) (fuel : nat)
    (n : CommentData.t) (r : Comment.t) :
  CommentSerializer_to_representation fuel db c = Ok n ->
  descends (Comment_objects db) (Comment.id c) r ->
  exists fuel' m,
    CommentSerializer_to_representation fuel' db r = Ok m
    /\ forall x, In x (subtree_ids m) ->
                 In x (flat_map subtree_ids (CommentData.replies n)).
Proof.
  intros Hn Hd. induction Hd as [r Hr Hp | r b Hr Hp _ IH].
  - destruct fuel as [|fuel]; [discriminate|].
    apply to_representation_inv in Hn as (p & a & rs & _ & _ & HF & ->).
    assert (Hrep : In r (Comment_replies db c)) by now apply Comment_replies_In.
    destruct (Forall2_In_l _ _ _ _ HF Hrep) as (y & Hy & Hry).
    exists fuel, y. split; [exact Hry|]. intros x Hx.
    now apply (subtree_below _ y).
  - destruct IH as (fuel' & m & Hm & Hsub).
    destruct fuel' as [|fuel']; [discriminate|].
    pose proof Hm as Hm'.
    apply to_representation_inv in Hm' as (p & a & rs & _ & _ & HF & E).
    assert (Hrep : In r (Comment_replies db b)) by now apply Comment_replies_In.
    destruct (Forall2_In_l _ _ _ _ HF Hrep) as (y & Hy & Hry).
    exists fuel', y. split; [exact Hry|]. intros x Hx.
    apply Hsub. rewrite subtree_ids_eq. right.
    apply (subtree_below m y); [now rewrite E | exact Hx].
Qed.

Lemma written_out_descends (db : Store) :
  forall fuel c n, CommentSerializer_to_representation fuel db c = Ok n ->
  forall x, In x (flat_map subtree_ids (CommentData.replies n)) ->
  exists r, descends (Comment_objects db) (Comment.id c) r /\ Comment.id r = x.
Proof.
  induction fuel as [|fuel IH]; intros c n H x Hx; [discriminate|].
  apply to_representation_inv in H as (p & a & rs & _ & _ & HF & ->).
  cbn [CommentData.replies] in Hx.
  apply in_flat_map in Hx as (y & Hy & Hxy).
  destruct (Forall2_In_r _ _ _ _ HF Hy) as (r & Hr & Hry).
  apply Comment_replies_In in Hr as [Hin Hpar].
  destruct (to_representation_id db fuel r y Hry) as (Hid & _).
  rewrite subtree_ids_eq in Hxy. destruct Hxy as [Hxy|Hxy].
  - exists r. split; [now apply descends_reply | congruence].
  - destruct (IH r y Hry x Hxy) as (r' & Hd & Hid').
    exists r'. split; [|exact Hid'].
    clear - Hd Hin Hpar. induction Hd as [z Hz Hzp | z b Hz Hzp _ IHd].
    + apply descends_deeper with (b := r); [exact Hz | exact Hzp |].
      now apply descends_reply.
    + now apply descends_deeper with (b := b).
Qed.

(** X22. Whenever the serializer returns a node for a comment, the keys
    written out in the node are the key of the comment and the keys of
    the stored comments whose chain of parents passes through it: every
    descendant is in the node, at whatever depth, and nothing else
    is. *)
Theorem node_holds_the_descendants (db : Store) (c : Comment.t) (fuel : nat)
    (n : CommentData.t) (x : nat) :
  CommentSerializer_to_representation fuel db c = Ok n ->
  (In x (subtree_ids n) <->
   x = Comment.id c
   \/ exists r, descends (Comment_objects db) (Comment.id c) r /\ Comment.id r = x).
Proof.
  intros Hn. destruct (to_representation_id db fuel c n Hn) as (Hid & _).
  rewrite subtree_ids_eq, Hid. split.
  - intros [E|Hx]; [now left | right].
    exact (written_out_descends db fuel c n Hn x Hx).
  - intros [->|(r & Hd & <-)]; [now left | right].
    destruct (descendants_written_out db c fuel n r Hn Hd) as (fuel' & m & Hm & Hsub).
    apply Hsub. rewrite subtree_ids_eq.
    destruct (to_representation_id db fuel' r m Hm) as (-> & _). now left.
Qed.

Lemma node_holds_the_descendants_witness :
  In 3 (subtree_ids
          (CommentData.mk 1 "Intro" "First" "alice" None 20 20
             [CommentData.mk 2 "Intro" "Reply" "bob" (Some 1) 21 21
                [CommentData.mk 3 "Intro" "Reply to reply" "alice" (Some 2) 22 22 []];
              CommentData.mk 4 "Intro" "Another reply" "bob" (Some 1) 23 23 []])) <->
  3 = Comment.id first_comment
  \/ exists r, descends (Comment_objects thread_store) (Comment.id first_comment) r
               /\ Comment.id r = 3.
Proof.
  apply (node_holds_the_descendants thread_store first_comment 5).
  reflexivity.
Defined.
